(** * Verification of the language-learning game engine

    Shallow embedding of [src/question-engine.ts] (question validators and
    the gamification classes that follow them in the same file) and of the
    [UserProgress] class, followed by the lesson content (lessons, skill
    paths, the lesson manager) and the methods of the game that ties them
    together.

    Conventions of the embedding

    - A JavaScript [string] is a sequence of UTF-16 code units.  It is
      modelled by [String.string], every [ascii] standing for the code unit
      of the same number; the model therefore covers the strings whose code
      units lie below 256 (Latin-1).  [length] and [charAt] then agree with
      the JavaScript ones.
    - A JavaScript [number] is a binary64 floating-point number, a [float]
      of [PrimFloat].  The classes are embedded twice.  In the first
      embedding the numbers the game passes around itself (counters,
      points, indices into lessons, millisecond time stamps) are integers
      [Z], which is what they are in the game: whole and far below 2^53,
      where binary64 sums, differences and comparisons are exact
      ([recordAnswer_agrees], [calculatePoints_agrees] and [addXP_agrees]
      relate the two embeddings); the ratios (similarity, progress) are
      computed on [float] there as well.  The second
      embedding, [Binary64], has the classes that take a [number] from
      their caller unchecked ([UserProgress], [ComboSystem],
      [EnergySystem]) on [float] throughout, and what is stated of these
      classes for every caller is stated there.  The correct index of a
      multiple-choice question is a [float] in both.
    - A method that mutates [this] is a function from the state before to
      the state after; a method that may throw returns an [outcome].  A
      parameter with a constant default ([isFirstTry = false]) is an
      ordinary argument; one whose default reads the clock is an [option].
    - [Date.now()] reads an ambient clock.  The clock is a sequence of
      readings [nat -> Z] and the number of readings consumed so far is
      threaded through the clock monad [Clk]. *)

From Stdlib Require Import ZArith List Bool Lia.
From Stdlib Require Import Ascii String.
From Stdlib Require Import Uint63 PrimFloat.
From Stdlib Require Import QArith Qround.
From Stdlib Require Import FloatOps FloatAxioms SpecFloat.
Import ListNotations.

Set Implicit Arguments.
Local Open Scope string_scope.
Local Open Scope Z_scope.

(** ** JavaScript strings *)

Module JsString.

(** Code unit of a character. *)
Definition code (c : ascii) : Z := Z.of_N (N_of_ascii c).

Definition of_code (n : Z) : ascii := ascii_of_N (Z.to_N n).

(** [String.prototype.toLowerCase] on one Latin-1 code unit: the letters
    A-Z and the accented capitals U+00C0-U+00DE (U+00D7, the
    multiplication sign, excepted) move up by 32. *)
Definition lowerChar (c : ascii) : ascii :=
  let n := code c in
  if ((65 <=? n) && (n <=? 90))
     || ((192 <=? n) && (n <=? 222) && negb (n =? 215))
  then of_code (n + 32) else c.

Fixpoint toLowerCase (s : string) : string :=
  match s with
  | EmptyString => EmptyString
  | String c s' => String (lowerChar c) (toLowerCase s')
  end.

(** The code units below 256 that ECMAScript counts as white space or as
    line terminators: TAB, LF, VT, FF, CR, SP and NBSP. *)
Definition isWhite (c : ascii) : bool :=
  let n := code c in
  ((9 <=? n) && (n <=? 13)) || (n =? 32) || (n =? 160).

Fixpoint trimStart (s : string) : string :=
  match s with
  | EmptyString => EmptyString
  | String c s' => if isWhite c then trimStart s' else s
  end.

Fixpoint trimEnd (s : string) : string :=
  match s with
  | EmptyString => EmptyString
  | String c s' =>
      match trimEnd s' with
      | EmptyString => if isWhite c then EmptyString else String c EmptyString
      | t => String c t
      end
  end.

Definition trim (s : string) : string := trimEnd (trimStart s).

(** [s.includes(sub)]. *)
Fixpoint includes (s sub : string) : bool :=
  String.prefix sub s
  || match s with
     | EmptyString => false
     | String _ s' => includes s' sub
     end.

(** Template-literal interpolation [`${v}`] of a value that is a string
    or [undefined]. *)
Definition interpolate (v : option string) : string :=
  match v with
  | Some s => s
  | None => "undefined"
  end.

End JsString.

(** ** JavaScript numbers outside the integers *)

Module JsNumber.

(** An integer-valued number as a binary64 float (exact below 2^53). *)
Definition of_Z (n : Z) : float := PrimFloat.of_uint63 (Uint63.of_Z n).

(** The literal [0.85]: the binary64 number nearest to 85/100. *)
Definition lit_0_85 : float := 0x1.b333333333333p-1%float.

(** [a >= b] on numbers. *)
Definition geb (a b : float) : bool := PrimFloat.leb b a.

(** An integer of either sign as a binary64 float (exact up to 2^53 in
    size). *)
Definition ofInt (n : Z) : float :=
  if n <? 0 then (- of_Z (- n))%float else of_Z n.

(** The integer a number is, when it is one: [NaN], the infinities and
    the numbers with a fractional part are none, and both zeros are 0.  A
    finite number is [m * 2^e], negated when the sign is set. *)
Definition integerValue (x : float) : option Z :=
  match Prim2SF x with
  | S754_zero _ => Some 0
  | S754_finite sign m e =>
      let n := if sign then Z.neg m else Z.pos m in
      if 0 <=? e then Some (n * 2 ^ e)
      else if Z.pos m mod 2 ^ (- e) =? 0 then Some (n / 2 ^ (- e))
           else None
  | _ => None
  end.

End JsNumber.

(** ** Results of methods that may throw *)

Inductive Exception : Type :=
| TypeError (message : string)
| Error (message : string).

Inductive outcome (A : Type) : Type :=
| Returned (value : A)
| Thrown (e : Exception).

Arguments Returned {A} value.
Arguments Thrown {A} e.

(** [xs[i]] for a number [i] that is an integer: [undefined] (here [None])
    below zero and from the length on. *)
Definition index {A : Type} (xs : list A) (i : Z) : option A :=
  if i <? 0 then None else nth_error xs (Z.to_nat i).

(** [xs[i]] for any number [i].  The property read is the one named by the
    string of the number, and that string names an element only when the
    number is an integer from 0 on ([-0] is one: its string is "0"); a
    number with a fractional part, a negative one, [NaN] and the infinities
    name no element of an array. *)
Definition indexNumber {A : Type} (xs : list A) (i : float) : option A :=
  match JsNumber.integerValue i with
  | Some n => index xs n
  | None => None
  end.

(** ** The question engine *)

Module QuestionEngine.
Import JsString.

Inductive Difficulty : Type := easy | medium | hard.

Record QuestionResult : Type := mkResult {
  isCorrect : bool;
  feedback : string;
  points : Z;
  correctAnswer : option string
}.

(** The abstract class [Question]. *)
Record Question : Type := mkQuestion {
  text : string;
  difficulty : Difficulty
}.

Definition getBasePoints (q : Question) : Z :=
  match difficulty q with
  | easy => 5
  | medium => 10
  | hard => 15
  end.

Definition calculatePoints (q : Question) (isCorrect isFirstTry : bool) : Z :=
  if negb isCorrect then 0
  else
    let basePoints := getBasePoints q in
    let bonus := if isFirstTry then 5 else 0 in
    basePoints + bonus.

(** *** MultipleChoiceQuestion *)

Module MultipleChoiceQuestion.

Record t : Type := mk {
  base : Question;
  choices : list string;
  correctIndex : float
}.

(** Reading [toLowerCase] off [undefined] throws a [TypeError]. *)
Definition checkAnswer (q : t) (answer : string) (isFirstTry : bool)
  : outcome QuestionResult :=
  let normalizedAnswer := toLowerCase (trim answer) in
  match indexNumber (choices q) (correctIndex q) with
  | None =>
      Thrown (TypeError
        "Cannot read properties of undefined (reading 'toLowerCase')")
  | Some correctAnswer =>
      let normalizedCorrect := toLowerCase correctAnswer in
      let isCorrect := String.eqb normalizedAnswer normalizedCorrect in
      let points := calculatePoints (base q) isCorrect isFirstTry in
      if isCorrect then
        Returned (mkResult true "Correct!" points None)
      else
        Returned (mkResult false
                    ("Incorrect. The correct answer is: " ++ correctAnswer)
                    0 (Some correctAnswer))
  end.

End MultipleChoiceQuestion.

(** *** TranslationQuestion *)

Module TranslationQuestion.

Record t : Type := mk {
  base : Question;
  sourceText : string;
  acceptedTranslations : list string
}.

Definition normalizeText (text : string) : string :=
  toLowerCase (trim text).

(** One pass of the inner loop of [levenshteinDistance]: the cells
    [matrix[i][j ..]] of row [i], from the code unit [c2 = str2.charAt(i-1)]
    the row belongs to, the rest [str1] of the first string from
    [str1.charAt(j-1)] on, the cells [above = matrix[i-1][j-1 ..]] and the
    cell [left = matrix[i][j-1]].  Inside the strings [charAt] gives
    one-unit strings, equal when the code units are. *)
Fixpoint fillRow (c2 : ascii) (str1 : string) (above : list Z) (left : Z)
  : list Z :=
  match str1, above with
  | String c1 rest, diag :: ((up :: _) as above') =>
      let cell :=
        if Ascii.eqb c2 c1 then diag
        else Z.min (Z.min (diag + 1) (left + 1)) (up + 1) in
      cell :: fillRow c2 rest above' cell
  | _, _ => []
  end.

(** The outer loop: the rows [matrix[i ..]] for the rest [str2] of the
    second string, [above] being row [i-1].  Each row starts with the
    [matrix[i] = [i]] of the first loop. *)
Fixpoint fillRows (str1 str2 : string) (i : Z) (above : list Z)
  : list (list Z) :=
  match str2 with
  | EmptyString => []
  | String c2 rest =>
      let row := i :: fillRow c2 str1 above i in
      row :: fillRows str1 rest (i + 1) row
  end.

(** Row 0 after the second loop: [matrix[0][j] = j] for [j <= len]. *)
Definition firstRow (len : nat) : list Z :=
  map Z.of_nat (seq 0 (S len)).

Definition buildMatrix (str1 str2 : string) : list (list Z) :=
  let row0 := firstRow (String.length str1) in
  row0 :: fillRows str1 str2 1 row0.

Definition levenshteinDistance (str1 str2 : string) : Z :=
  let matrix := buildMatrix str1 str2 in
  nth (String.length str1) (nth (String.length str2) matrix []) 0.

Definition calculateSimilarity (str1 str2 : string) : float :=
  if String.eqb str1 str2 then 1%float
  else
    let len1 := Z.of_nat (String.length str1) in
    let len2 := Z.of_nat (String.length str2) in
    if (len1 =? 0) || (len2 =? 0) then 0%float
    else
      let maxLen := Z.max len1 len2 in
      let distance := levenshteinDistance str1 str2 in
      (1 - JsNumber.of_Z distance / JsNumber.of_Z maxLen)%float.

Definition isFuzzyMatch (str1 str2 : string) : bool :=
  let similarity := calculateSimilarity str1 str2 in
  JsNumber.geb similarity JsNumber.lit_0_85.

Definition exactResult (q : t) (isFirstTry : bool) : QuestionResult :=
  mkResult true "Correct!" (calculatePoints (base q) true isFirstTry) None.

Definition fuzzyResult (q : t) (isFirstTry : bool) : QuestionResult :=
  mkResult true "Correct! (Note: minor typo detected)"
           (calculatePoints (base q) true isFirstTry) None.

Definition failureResult (q : t) : QuestionResult :=
  let first := index (acceptedTranslations q) 0 in
  mkResult false ("Not quite. Expected: " ++ interpolate first) 0 first.

(** The [for ... of] loop: [Some] result when an iteration returns. *)
Fixpoint scan (q : t) (normalized : string) (isFirstTry : bool)
         (accepted : list string) : option QuestionResult :=
  match accepted with
  | [] => None
  | accepted1 :: rest =>
      let normalizedAccepted := normalizeText accepted1 in
      if String.eqb normalized normalizedAccepted then
        Some (exactResult q isFirstTry)
      else if isFuzzyMatch normalized normalizedAccepted then
        Some (fuzzyResult q isFirstTry)
      else scan q normalized isFirstTry rest
  end.

Definition checkAnswer (q : t) (answer : string) (isFirstTry : bool)
  : QuestionResult :=
  let normalized := normalizeText answer in
  match scan q normalized isFirstTry (acceptedTranslations q) with
  | Some result => result
  | None => failureResult q
  end.

End TranslationQuestion.

(** *** FillInBlankQuestion *)

Module FillInBlankQuestion.

Record t : Type := mk {
  base : Question;
  correctAnswer : string;
  acceptedAnswers : list string
}.

Definition generateHint (q : t) : string :=
  if includes (text (base q)) "yesterday" || includes (text (base q)) "ago"
  then "Hint: Check the past tense form."
  else "Incorrect. The correct answer is: " ++ correctAnswer q.

Fixpoint scan (q : t) (normalized : string) (isFirstTry : bool)
         (accepted : list string) : option QuestionResult :=
  match accepted with
  | [] => None
  | accepted1 :: rest =>
      if String.eqb normalized (toLowerCase accepted1) then
        Some (mkResult true "Correct!"
                       (calculatePoints (base q) true isFirstTry) None)
      else scan q normalized isFirstTry rest
  end.

Definition checkAnswer (q : t) (answer : string) (isFirstTry : bool)
  : QuestionResult :=
  let normalized := toLowerCase (trim answer) in
  match scan q normalized isFirstTry (acceptedAnswers q) with
  | Some result => result
  | None =>
      mkResult false (generateHint q) 0 (Some (correctAnswer q))
  end.

End FillInBlankQuestion.

(** The union [MultipleChoiceQuestion | TranslationQuestion |
    FillInBlankQuestion] and the dynamic dispatch of [checkAnswer]. *)
Inductive AnyQuestion : Type :=
| MultipleChoice (q : MultipleChoiceQuestion.t)
| Translation (q : TranslationQuestion.t)
| FillInBlank (q : FillInBlankQuestion.t).

Definition getDifficulty (q : AnyQuestion) : Difficulty :=
  match q with
  | MultipleChoice q => difficulty (MultipleChoiceQuestion.base q)
  | Translation q => difficulty (TranslationQuestion.base q)
  | FillInBlank q => difficulty (FillInBlankQuestion.base q)
  end.

Definition checkAnswer (q : AnyQuestion) (answer : string) (isFirstTry : bool)
  : outcome QuestionResult :=
  match q with
  | MultipleChoice q => MultipleChoiceQuestion.checkAnswer q answer isFirstTry
  | Translation q =>
      Returned (TranslationQuestion.checkAnswer q answer isFirstTry)
  | FillInBlank q =>
      Returned (FillInBlankQuestion.checkAnswer q answer isFirstTry)
  end.

(** [basePoints] of the specification, by difficulty. *)
Definition basePoints (d : Difficulty) : Z :=
  getBasePoints (mkQuestion EmptyString d).

End QuestionEngine.

(** ** The ambient clock *)

Module Clock.

(** A computation that may call [Date.now()]: from the readings the clock
    will give and the number already consumed, a value and the number
    consumed afterwards. *)
Definition Clk (A : Type) : Type := (nat -> Z) -> nat -> A * nat.

Definition ret {A : Type} (a : A) : Clk A := fun _ k => (a, k).

Definition bind {A B : Type} (m : Clk A) (f : A -> Clk B) : Clk B :=
  fun clock k => let (a, k') := m clock k in f a clock k'.

(** [Date.now()]. *)
Definition Date_now : Clk Z := fun clock k => (clock k, S k).

(** A parameter with the default value [Date.now()]: the default is
    evaluated on entry, and only when the argument is absent. *)
Definition orNow (arg : option Z) : Clk Z :=
  match arg with
  | Some t => ret t
  | None => Date_now
  end.

End Clock.

Notation "x <- m ;; k" := (Clock.bind m (fun x => k))
  (at level 61, m at next level, right associativity).

(** ** Gamification *)

Module Gamification.
Import Clock.

Inductive AchievementTier : Type := bronze | silver | gold | platinum.

Record AchievementData : Type := mkData {
  data_id : string;
  data_name : string;
  data_description : string;
  data_tier : AchievementTier;
  data_unlockedAt : option Z
}.

(** [n || undefined] and [n || 0] on [number | null]: zero is falsy. *)
Definition truthy (n : option Z) : option Z :=
  match n with
  | Some v => if v =? 0 then None else Some v
  | None => None
  end.

Module Achievement.

Record t : Type := mk {
  id : string;
  name : string;
  description : string;
  tier : AchievementTier;
  unlocked : bool;
  unlockedAt : option Z
}.

Definition new (id name description : string) (tier : AchievementTier) : t :=
  mk id name description tier false None.

Definition isUnlocked (a : t) : bool := unlocked a.

Definition unlock (a : t) : Clk t :=
  if negb (unlocked a) then
    now <- Date_now ;;
    ret (mk (id a) (name a) (description a) (tier a) true (Some now))
  else ret a.

Definition getUnlockedAt (a : t) : Z :=
  match truthy (unlockedAt a) with
  | Some v => v
  | None => 0
  end.

Definition toData (a : t) : AchievementData :=
  mkData (id a) (name a) (description a) (tier a) (truthy (unlockedAt a)).

End Achievement.

(** A [Map<string, Achievement>]: the entries in insertion order. *)
Module AMap.

Definition t : Type := list (string * Achievement.t).

Fixpoint get (key : string) (m : t) : option Achievement.t :=
  match m with
  | [] => None
  | (k, a) :: rest => if String.eqb key k then Some a else get key rest
  end.

(** [set]: an existing key keeps its place, a new one goes last. *)
Fixpoint set (key : string) (a : Achievement.t) (m : t) : t :=
  match m with
  | [] => [(key, a)]
  | (k, b) :: rest =>
      if String.eqb key k then (k, a) :: rest
      else (k, b) :: set key a rest
  end.

Definition values (m : t) : list Achievement.t := map snd m.

End AMap.

Module AchievementTracker.

Record t : Type := mk {
  userId : string;
  achievements : AMap.t
}.

Definition achievementConfigs
  : list (string * string * string * AchievementTier) :=
  [ ("first-lesson", "First Steps", "Complete your first lesson", bronze);
    ("ten-lessons", "Getting Started", "Complete 10 lessons", silver);
    ("week-streak", "Week Warrior", "Maintain a 7-day streak", gold);
    ("month-streak", "Dedication Master", "Maintain a 30-day streak",
     platinum) ].

Definition initializeAchievements (m : AMap.t) : AMap.t :=
  fold_left
    (fun m '(id, name, description, tier) =>
       AMap.set id (Achievement.new id name description tier) m)
    achievementConfigs m.

Definition new (userId : string) : t :=
  mk userId (initializeAchievements []).

(** [this.achievements.get(key)?.unlock()]: the achievement object the
    map holds under [key] is mutated in place. *)
Definition unlockAt (key : string) (tr : t) : Clk t :=
  match AMap.get key (achievements tr) with
  | Some a =>
      a' <- Achievement.unlock a ;;
      ret (mk (userId tr) (AMap.set key a' (achievements tr)))
  | None => ret tr
  end.

Definition checkLessonCompletion (lessonCount : Z) (tr : t) : Clk t :=
  tr1 <- (if lessonCount >=? 1 then unlockAt "first-lesson" tr
          else ret tr) ;;
  if lessonCount >=? 10 then unlockAt "ten-lessons" tr1 else ret tr1.

Definition checkStreak (streakDays : Z) (tr : t) : Clk t :=
  tr1 <- (if streakDays >=? 7 then unlockAt "week-streak" tr
          else ret tr) ;;
  if streakDays >=? 30 then unlockAt "month-streak" tr1 else ret tr1.

Definition getUnlockedAchievements (tr : t) : list AchievementData :=
  map Achievement.toData
      (filter Achievement.isUnlocked (AMap.values (achievements tr))).

(** The calls that change a tracker, and their runs. *)
Inductive call : Type :=
| CheckLessonCompletion (lessonCount : Z)
| CheckStreak (streakDays : Z).

Definition exec (c : call) (tr : t) : Clk t :=
  match c with
  | CheckLessonCompletion n => checkLessonCompletion n tr
  | CheckStreak n => checkStreak n tr
  end.

Fixpoint execAll (cs : list call) (tr : t) : Clk t :=
  match cs with
  | [] => ret tr
  | c :: rest => tr' <- exec c tr ;; execAll rest tr'
  end.

End AchievementTracker.

Module ComboSystem.

Record t : Type := mk {
  currentCombo : Z;
  highestCombo : Z
}.

Definition new : t := mk 0 0.

Definition recordAnswer (isCorrect : bool) (s : t) : t :=
  if isCorrect then
    let currentCombo' := currentCombo s + 1 in
    if currentCombo' >? highestCombo s
    then mk currentCombo' currentCombo'
    else mk currentCombo' (highestCombo s)
  else mk 0 (highestCombo s).

Fixpoint recordAnswers (answers : list bool) (s : t) : t :=
  match answers with
  | [] => s
  | a :: rest => recordAnswers rest (recordAnswer a s)
  end.

Definition getCurrentCombo (s : t) : Z := currentCombo s.

Definition getHighestCombo (s : t) : Z := highestCombo s.

(** The multipliers 2.0, 1.5 and 1.0 as exact rationals. *)
Definition getMultiplier (s : t) : Q :=
  if currentCombo s >=? 5 then 2%Q
  else if currentCombo s >=? 3 then (3 # 2)%Q
  else 1%Q.

(** [Math.floor(basePoints * this.getMultiplier())] for a whole
    [basePoints] with [0 <= basePoints] and [3 * basePoints < 2^53]: there
    the binary64 product by 1, 1.5 or 2 is exact and no rounding precedes
    the floor ([calculatePoints_agrees] below).  Beyond that range the
    code rounds first: see [Binary64.ComboSystem]. *)
Definition calculatePoints (basePoints : Z) (s : t) : Z :=
  Qfloor (inject_Z basePoints * getMultiplier s)%Q.

End ComboSystem.

Module EnergySystem.

Record t : Type := mk {
  maxEnergy : Z;
  currentEnergy : Z;
  lastUpdate : Z
}.

Definition new (maxEnergy : Z) : Clk t :=
  now <- Date_now ;;
  ret (mk maxEnergy maxEnergy now).

Definition getCurrentEnergy (s : t) : Z := currentEnergy s.

Definition hasEnergy (s : t) : bool := currentEnergy s >? 0.

Definition recordAnswer (isCorrect : bool) (s : t) : Clk t :=
  if negb isCorrect && (currentEnergy s >? 0) then
    now <- Date_now ;;
    ret (mk (maxEnergy s) (currentEnergy s - 1) now)
  else ret s.

(** [Math.floor(x / y)] for integers [x] and [y > 0] of the size of time
    stamps is [Z.div]. *)
Definition regenerate (currentTime : option Z) (s : t) : Clk t :=
  currentTime <- orNow currentTime ;;
  if currentEnergy s >=? maxEnergy s then ret s
  else
    let energyToRegenerate :=
      (currentTime - lastUpdate s) / (60 * 60 * 1000) in
    if energyToRegenerate >? 0 then
      ret (mk (maxEnergy s)
              (Z.min (maxEnergy s) (currentEnergy s + energyToRegenerate))
              currentTime)
    else ret s.

Definition refill (s : t) : Clk t :=
  now <- Date_now ;;
  ret (mk (maxEnergy s) (maxEnergy s) now).

Inductive call : Type :=
| RecordAnswer (isCorrect : bool)
| Regenerate (currentTime : option Z)
| Refill.

Definition exec (c : call) (s : t) : Clk t :=
  match c with
  | RecordAnswer b => recordAnswer b s
  | Regenerate time => regenerate time s
  | Refill => refill s
  end.

Fixpoint execAll (cs : list call) (s : t) : Clk t :=
  match cs with
  | [] => ret s
  | c :: rest => s' <- exec c s ;; execAll rest s'
  end.

End EnergySystem.

End Gamification.

(** ** Dates *)

Module JsDate.

(** A valid [Date] is its time value: milliseconds since the epoch, UTC. *)
Definition Date : Type := Z.

Definition msPerDay : Z := 24 * 60 * 60 * 1000.
Definition msPerHour : Z := 60 * 60 * 1000.

(** The time zone of the host: the offset of local time from UTC, in
    milliseconds, at a UTC instant and at a local time value (ECMAScript's
    [LocalTZA(t, true)] and [LocalTZA(t, false)]). *)
Record TimeZone : Type := mkZone {
  offsetAtUtc : Z -> Z;
  offsetAtLocal : Z -> Z
}.

Definition LocalTime (tz : TimeZone) (t : Z) : Z := t + offsetAtUtc tz t.

Definition UTC (tz : TimeZone) (local : Z) : Z := local - offsetAtLocal tz local.

(** ECMAScript's [Day]: the day number of a time value. *)
Definition Day (t : Z) : Z := t / msPerDay.

(** The calendar day, in the host's zone, a date falls on. *)
Definition localDay (tz : TimeZone) (d : Date) : Z := Day (LocalTime tz d).

(** [new Date(d.getFullYear(), d.getMonth(), d.getDate())]: the three
    getters read year, month and day of month off [LocalTime d], and the
    constructor takes the local midnight of that day back to UTC.  Year,
    month and day of month determine the day number and are determined
    by it, so the round trip is the day number itself (for years from 100
    on: the constructor reads a year below 100 as 1900 + year). *)
Definition localMidnight (tz : TimeZone) (d : Date) : Date :=
  UTC tz (localDay tz d * msPerDay).

(** A zone whose offset never changes, such as UTC. *)
Definition fixedZone (offset : Z) : TimeZone :=
  mkZone (fun _ => offset) (fun _ => offset).

Definition utc : TimeZone := fixedZone 0.

(** America/New_York around the start of daylight saving time in 2024:
    at 2024-03-10T07:00:00Z local clocks go from 02:00 (UTC-5) to 03:00
    (UTC-4).  A local time in the hour skipped is read with the offset
    before the change. *)
Definition march10_2024 : Z := 19792 * msPerDay.

Definition newYork2024 : TimeZone :=
  mkZone
    (fun t => if t <? march10_2024 + 7 * msPerHour
              then - (5 * msPerHour) else - (4 * msPerHour))
    (fun local => if local <? march10_2024 + 3 * msPerHour
                  then - (5 * msPerHour) else - (4 * msPerHour)).

End JsDate.

(** ** User progress *)

Module UserProgress.
Import Clock JsDate.

Record t : Type := mk {
  userId : string;
  xp : Z;
  level : Z;
  streak : Z;
  lastActivityDate : option Date;
  completedLessons : list string
}.

Definition XP_THRESHOLDS : list Z := [0; 100; 250; 500; 1000; 2000; 4000; 8000].

Definition new (userId : string) : t := mk userId 0 1 0 None [].

Definition getXP (s : t) : Z := xp s.
Definition getLevel (s : t) : Z := level s.
Definition getStreak (s : t) : Z := streak s.

Definition setLevel (s : t) (level : Z) : t :=
  mk (userId s) (xp s) level (streak s) (lastActivityDate s)
     (completedLessons s).

(** The loop of [updateLevel] with [i = n - 1] next; it stops at the
    first threshold that [xp] reaches, and at [i < 0]. *)
Fixpoint updateLevelFrom (n : nat) (s : t) : t :=
  match n with
  | O => s
  | S i =>
      match nth_error XP_THRESHOLDS i with
      | Some threshold =>
          if xp s >=? threshold then setLevel s (Z.of_nat i + 1)
          else updateLevelFrom i s
      | None => updateLevelFrom i s
      end
  end.

Definition updateLevel (s : t) : t :=
  updateLevelFrom (List.length XP_THRESHOLDS) s.

(** [addXP]: what the call returns or throws, and the state it leaves. *)
Definition addXP (amount : Z) (s : t) : outcome bool * t :=
  if amount <? 0 then (Thrown (Error "XP must be positive"), s)
  else
    let oldLevel := level s in
    let s1 := mk (userId s) (xp s + amount) (level s) (streak s)
                 (lastActivityDate s) (completedLessons s) in
    let s2 := updateLevel s1 in
    (Returned (level s2 >? oldLevel), s2).

Section InZone.

(** The time zone of the host. *)
Variable tz : TimeZone.

Definition stripTime (date : Date) : Date := localMidnight tz date.

Definition getDaysDifference (date1 date2 : Date) : Z :=
  let diff := date2 - date1 in
  diff / msPerDay.

Definition touch (s : t) (streak : Z) (today : Date) : t :=
  mk (userId s) (xp s) (level s) streak (Some today) (completedLessons s).

(** The default of [date] is [new Date()], a reading of the clock. *)
Definition recordActivity (date : option Date) (s : t) : Clk t :=
  date <- orNow date ;;
  let today := stripTime date in
  match lastActivityDate s with
  | None => ret (touch s 1 today)
  | Some last =>
      let lastActivity := stripTime last in
      let daysDiff := getDaysDifference lastActivity today in
      if daysDiff =? 0 then ret s
      else if daysDiff =? 1 then ret (touch s (streak s + 1) today)
      else ret (touch s 1 today)
  end.

End InZone.

Definition isLessonCompleted (lessonId : string) (s : t) : bool :=
  existsb (String.eqb lessonId) (completedLessons s).

(** [Set.prototype.add]: a new element goes last. *)
Definition completeLesson (lessonId : string) (s : t) : t :=
  if isLessonCompleted lessonId s then s
  else mk (userId s) (xp s) (level s) (streak s) (lastActivityDate s)
          (completedLessons s ++ [lessonId]).

Definition getCompletedLessons (s : t) : list string := completedLessons s.

(** The states a [UserProgress] object can be in: those its constructor
    and its methods produce, whatever the zone and the clock. *)
Inductive reachable : t -> Prop :=
| reach_new : forall userId, reachable (new userId)
| reach_addXP : forall amount s, reachable s -> reachable (snd (addXP amount s))
| reach_recordActivity : forall tz date clock k s,
    reachable s -> reachable (fst (recordActivity tz date s clock k))
| reach_completeLesson : forall lessonId s,
    reachable s -> reachable (completeLesson lessonId s).

End UserProgress.


(** ** More of the JavaScript library *)

Module JsMath.

(** [Math.floor] of a finite binary64 number, as an integer.  The number
    is [m * 2^e], negated when the sign is set. *)
Definition floor (x : float) : Z :=
  match Prim2SF x with
  | S754_finite sign m e =>
      let n := if sign then Z.neg m else Z.pos m in
      if 0 <=? e then n * 2 ^ e else n / 2 ^ (- e)
  | _ => 0
  end.

End JsMath.

(** [Array.prototype] functions on lists. *)
Module JsArray.

(** [xs.findIndex(p)]: the first index whose element satisfies [p], or
    [-1]. *)
Fixpoint findIndexFrom {A : Type} (p : A -> bool) (xs : list A) (i : Z) : Z :=
  match xs with
  | [] => -1
  | x :: rest => if p x then i else findIndexFrom p rest (i + 1)
  end.

Definition findIndex {A : Type} (p : A -> bool) (xs : list A) : Z :=
  findIndexFrom p xs 0.

(** [xs.includes(s)] on an array of strings. *)
Definition includes (xs : list string) (s : string) : bool :=
  existsb (String.eqb s) xs.

(** [xs[i] = v] for an integer [i] within the array. *)
Fixpoint update {A : Type} (xs : list A) (i : nat) (v : A) : list A :=
  match xs, i with
  | [], _ => []
  | _ :: rest, O => v :: rest
  | x :: rest, S i' => x :: update rest i' v
  end.

End JsArray.

(** A [Map] with string keys: the entries in insertion order. *)
Module JsMap.

Definition t (V : Type) : Type := list (string * V).

Fixpoint get {V : Type} (key : string) (m : t V) : option V :=
  match m with
  | [] => None
  | (k, v) :: rest => if String.eqb key k then Some v else get key rest
  end.

(** [set]: an existing key keeps its place, a new one goes last. *)
Fixpoint set {V : Type} (key : string) (v : V) (m : t V) : t V :=
  match m with
  | [] => [(key, v)]
  | (k, w) :: rest =>
      if String.eqb key k then (k, v) :: rest else (k, w) :: set key v rest
  end.

Definition values {V : Type} (m : t V) : list V := map snd m.

End JsMap.

(** ** Lessons, skill paths and the lesson manager *)

(** The classes of the lesson content.  The source holds lessons and paths
    by reference; the model holds their states.  A lesson's id never
    changes, and a skill path reads nothing but the ids of its lessons. *)
Module LessonContent.
Import QuestionEngine.

Record Vocabulary : Type := mkVocabulary {
  word : string;
  category : string;
  translations : list string;
  vocabularyDescription : string;
  example : option string;
  vocabularyDifficulty : Difficulty
}.

Module Lesson.

Record t : Type := mk {
  id : string;
  title : string;
  description : string;
  difficulty : Difficulty;
  questions : list AnyQuestion;
  vocabulary : list Vocabulary;
  completed : bool;
  questionResults : list bool
}.

Definition new (id title description : string) (difficulty : Difficulty) : t :=
  mk id title description difficulty [] [] false [].

Definition getId (l : t) : string := id l.

Definition addQuestion (question : AnyQuestion) (l : t) : t :=
  mk (id l) (title l) (description l) (difficulty l)
     (questions l ++ [question]) (vocabulary l) (completed l)
     (questionResults l ++ [false]).

Definition addVocabulary (vocab : Vocabulary) (l : t) : t :=
  mk (id l) (title l) (description l) (difficulty l)
     (questions l) (vocabulary l ++ [vocab]) (completed l)
     (questionResults l).

Definition markCompleted (l : t) : t :=
  mk (id l) (title l) (description l) (difficulty l)
     (questions l) (vocabulary l) true (questionResults l).

Definition recordQuestionAnswer (questionIndex : Z) (isCorrect : bool) (l : t)
  : t :=
  if (questionIndex >=? 0)
     && (questionIndex <? Z.of_nat (List.length (questionResults l)))
  then mk (id l) (title l) (description l) (difficulty l)
          (questions l) (vocabulary l) (completed l)
          (JsArray.update (questionResults l) (Z.to_nat questionIndex) isCorrect)
  else l.

(** [Math.floor((correctAnswers / this.questions.length) * 100)], in
    binary64. *)
Definition getProgress (l : t) : Z :=
  if Z.of_nat (List.length (questions l)) =? 0 then 0
  else
    let correctAnswers :=
      Z.of_nat (List.length (filter (fun result => result) (questionResults l))) in
    JsMath.floor
      (JsNumber.of_Z correctAnswers
       / JsNumber.of_Z (Z.of_nat (List.length (questions l))) * 100)%float.

End Lesson.

Module SkillPath.

Record t : Type := mk {
  id : string;
  name : string;
  description : string;
  lessons : list Lesson.t
}.

Definition new (id name description : string) : t := mk id name description [].

Definition getId (p : t) : string := id p.

Definition addLesson (lesson : Lesson.t) (p : t) : t :=
  mk (id p) (name p) (description p) (lessons p ++ [lesson]).

(** Reading [getId] off a missing element would throw a [TypeError]. *)
Definition isLessonUnlocked (lessonId : string) (completedLessons : list string)
           (p : t) : outcome bool :=
  let lessonIndex :=
    JsArray.findIndex (fun l => String.eqb (Lesson.getId l) lessonId) (lessons p) in
  if lessonIndex =? -1 then Returned false
  else if lessonIndex =? 0 then Returned true
  else
    match index (lessons p) (lessonIndex - 1) with
    | Some previousLesson =>
        Returned (JsArray.includes completedLessons (Lesson.getId previousLesson))
    | None =>
        Thrown (TypeError
          "Cannot read properties of undefined (reading 'getId')")
    end.

(** [Math.floor((completed / this.lessons.length) * 100)], in binary64. *)
Definition getProgress (completedLessons : list string) (p : t) : Z :=
  if Z.of_nat (List.length (lessons p)) =? 0 then 0
  else
    let completed :=
      Z.of_nat
        (List.length
           (filter (fun lesson =>
                      JsArray.includes completedLessons (Lesson.getId lesson))
                   (lessons p))) in
    JsMath.floor
      (JsNumber.of_Z completed
       / JsNumber.of_Z (Z.of_nat (List.length (lessons p))) * 100)%float.

End SkillPath.

Module LessonManager.

Record t : Type := mk {
  lessons : JsMap.t Lesson.t;
  skillPaths : JsMap.t SkillPath.t
}.

Definition new : t := mk [] [].

Definition addLesson (lesson : Lesson.t) (m : t) : t :=
  mk (JsMap.set (Lesson.getId lesson) lesson (lessons m)) (skillPaths m).

Definition getAllLessons (m : t) : list Lesson.t := JsMap.values (lessons m).

Definition getLessonById (id : string) (m : t) : option Lesson.t :=
  JsMap.get id (lessons m).

Definition difficultyEqb (d1 d2 : Difficulty) : bool :=
  match d1, d2 with
  | easy, easy | medium, medium | hard, hard => true
  | _, _ => false
  end.

Definition getLessonsByDifficulty (difficulty : Difficulty) (m : t)
  : list Lesson.t :=
  filter (fun lesson => difficultyEqb (Lesson.difficulty lesson) difficulty)
         (getAllLessons m).

Definition addSkillPath (path : SkillPath.t) (m : t) : t :=
  let m1 := mk (lessons m) (JsMap.set (SkillPath.getId path) path (skillPaths m)) in
  fold_left (fun m lesson => addLesson lesson m) (SkillPath.lessons path) m1.

Definition getAllSkillPaths (m : t) : list SkillPath.t :=
  JsMap.values (skillPaths m).

Definition getSkillPathById (id : string) (m : t) : option SkillPath.t :=
  JsMap.get id (skillPaths m).

(** The inner loop of [getNextLesson] over the lessons of one path: the
    lesson returned, [None] when the loop runs out, or what
    [isLessonUnlocked] throws. *)
Fixpoint nextIn (path : SkillPath.t) (completedLessons : list string)
         (ls : list Lesson.t) : outcome (option Lesson.t) :=
  match ls with
  | [] => Returned None
  | lesson :: rest =>
      if negb (JsArray.includes completedLessons (Lesson.getId lesson)) then
        match SkillPath.isLessonUnlocked (Lesson.getId lesson)
                                         completedLessons path with
        | Returned true => Returned (Some lesson)
        | Returned false => nextIn path completedLessons rest
        | Thrown e => Thrown e
        end
      else nextIn path completedLessons rest
  end.

(** The outer loop, over the paths. *)
Fixpoint nextAmong (completedLessons : list string) (paths : list SkillPath.t)
  : outcome (option Lesson.t) :=
  match paths with
  | [] => Returned None
  | path :: rest =>
      match nextIn path completedLessons (SkillPath.lessons path) with
      | Returned (Some lesson) => Returned (Some lesson)
      | Returned None => nextAmong completedLessons rest
      | Thrown e => Thrown e
      end
  end.

Definition getNextLesson (completedLessons : list string) (m : t)
  : outcome (option Lesson.t) :=
  nextAmong completedLessons (JsMap.values (skillPaths m)).

End LessonManager.

End LessonContent.

(** ** The game *)

(** The methods of [LanguageLearningGame], on any state of its five
    parts.  The content its constructor builds is left out: it holds
    Japanese text, outside the strings of this model.  A lesson object is
    reached through the manager's map, and it is there that the model
    updates it. *)
Module LanguageLearningGame.
Import Clock QuestionEngine Gamification LessonContent.

Record t : Type := mk {
  userProgress : UserProgress.t;
  achievementTracker : AchievementTracker.t;
  comboSystem : ComboSystem.t;
  energySystem : EnergySystem.t;
  lessonManager : LessonManager.t
}.

Record Answer : Type := mkAnswer {
  isCorrect : bool;
  feedback : string;
  points : Z
}.

Record Reply : Type := mkReply {
  result : Answer;
  leveledUp : bool;
  newAchievements : list string;
  combo : Z;
  energy : Z
}.

Record UserState : Type := mkUserState {
  state_xp : Z;
  state_level : Z;
  state_streak : Z;
  state_completedLessons : Z
}.

Record GameState : Type := mkGameState {
  user : UserState;
  current_combo : Z;
  current_energy : Z;
  nextLesson : option string
}.

(** The lesson filed under [lessonId], replaced by its state after a
    method call on it.  In the source the map and the skill path hold the
    same [Lesson] object, so the call shows through the path as well; here
    the path keeps the lesson as it was added.  The two differ in the
    results recorded and the completed flag only, never in the id, and the
    game reads nothing but ids off the lessons of a path. *)
Definition withLesson (lessonId : string) (lesson : Lesson.t)
           (m : LessonManager.t) : LessonManager.t :=
  LessonManager.mk (JsMap.set lessonId lesson (LessonManager.lessons m))
                   (LessonManager.skillPaths m).

Section OnHost.

(** The time zone of the host. *)
Variable tz : JsDate.TimeZone.

Definition completeLesson (lessonId : string) (g : t) : Clk t :=
  let progress1 := UserProgress.completeLesson lessonId (userProgress g) in
  progress2 <- UserProgress.recordActivity tz None progress1 ;;
  let manager :=
    match LessonManager.getLessonById lessonId (lessonManager g) with
    | Some lesson =>
        withLesson lessonId (Lesson.markCompleted lesson) (lessonManager g)
    | None => lessonManager g
    end in
  tracker <- AchievementTracker.checkLessonCompletion
               (Z.of_nat (List.length (UserProgress.getCompletedLessons progress2)))
               (achievementTracker g) ;;
  ret (mk progress2 tracker (comboSystem g) (energySystem g) manager).

(** The end of [answerQuestion], from the two achievement checks on. *)
Definition conclude (previousAchievements : list AchievementData)
           (result : QuestionResult) (pointsWithCombo : Z) (leveledUp : bool)
           (g : t) : Clk (outcome Reply * t) :=
  tracker1 <- AchievementTracker.checkLessonCompletion
                (Z.of_nat (List.length
                             (UserProgress.getCompletedLessons (userProgress g))))
                (achievementTracker g) ;;
  tracker2 <- AchievementTracker.checkStreak
                (UserProgress.getStreak (userProgress g)) tracker1 ;;
  let currentAchievements := AchievementTracker.getUnlockedAchievements tracker2 in
  let newAchievements :=
    map data_name
        (filter (fun a =>
                   negb (existsb (fun pa => String.eqb (data_id pa) (data_id a))
                                 previousAchievements))
                currentAchievements) in
  let g' := mk (userProgress g) tracker2 (comboSystem g) (energySystem g)
               (lessonManager g) in
  ret (Returned
         (mkReply (mkAnswer (QuestionEngine.isCorrect result)
                            (QuestionEngine.feedback result) pointsWithCombo)
                  leveledUp newAchievements
                  (ComboSystem.getCurrentCombo (comboSystem g))
                  (EnergySystem.getCurrentEnergy (energySystem g))),
       g').

(** [answerQuestion]: what the call returns or throws, and the state of
    the game it leaves. *)
Definition answerQuestion (lessonId : string) (questionIndex : Z)
           (answer : string) (g : t) : Clk (outcome Reply * t) :=
  if negb (EnergySystem.hasEnergy (energySystem g)) then
    ret (Thrown (Error "No energy remaining. Wait for regeneration or refill."),
         g)
  else
    match LessonManager.getLessonById lessonId (lessonManager g) with
    | None => ret (Thrown (Error "Lesson not found"), g)
    | Some lesson =>
        match index (Lesson.questions lesson) questionIndex with
        | None => ret (Thrown (Error "Question not found"), g)
        | Some question =>
            let isFirstTry := true in
            match QuestionEngine.checkAnswer question answer isFirstTry with
            | Thrown e => ret (Thrown e, g)
            | Returned result =>
                let previousAchievements :=
                  AchievementTracker.getUnlockedAchievements
                    (achievementTracker g) in
                let combo1 :=
                  ComboSystem.recordAnswer (QuestionEngine.isCorrect result)
                                           (comboSystem g) in
                let pointsWithCombo :=
                  ComboSystem.calculatePoints (QuestionEngine.points result)
                                              combo1 in
                if QuestionEngine.isCorrect result then
                  match UserProgress.addXP pointsWithCombo (userProgress g) with
                  | (Thrown e, progress1) =>
                      ret (Thrown e,
                           mk progress1 (achievementTracker g) combo1
                              (energySystem g) (lessonManager g))
                  | (Returned leveledUp, progress1) =>
                      let lesson1 :=
                        Lesson.recordQuestionAnswer questionIndex true lesson in
                      let g1 :=
                        mk progress1 (achievementTracker g) combo1
                           (energySystem g)
                           (withLesson lessonId lesson1 (lessonManager g)) in
                      g2 <- (if Lesson.getProgress lesson1 =? 100
                             then completeLesson lessonId g1 else ret g1) ;;
                      conclude previousAchievements result pointsWithCombo
                               leveledUp g2
                  end
                else
                  energy1 <- EnergySystem.recordAnswer false (energySystem g) ;;
                  conclude previousAchievements result pointsWithCombo false
                           (mk (userProgress g) (achievementTracker g) combo1
                               energy1 (lessonManager g))
            end
        end
    end.

End OnHost.

Definition getGameState (g : t) : outcome GameState :=
  match LessonManager.getNextLesson
          (UserProgress.getCompletedLessons (userProgress g))
          (lessonManager g) with
  | Thrown e => Thrown e
  | Returned nextLesson =>
      Returned
        (mkGameState
           (mkUserState
              (UserProgress.getXP (userProgress g))
              (UserProgress.getLevel (userProgress g))
              (UserProgress.getStreak (userProgress g))
              (Z.of_nat (List.length
                           (UserProgress.getCompletedLessons (userProgress g)))))
           (ComboSystem.getCurrentCombo (comboSystem g))
           (EnergySystem.getCurrentEnergy (energySystem g))
           (match nextLesson with
            | Some lesson => Some (Lesson.getId lesson)
            | None => None
            end))
  end.

Definition getLessonManager (g : t) : LessonManager.t := lessonManager g.

End LanguageLearningGame.

(** ** The classes on binary64 numbers *)

(** The classes above hold their numbers as integers, which is what they
    are as long as the game drives them: small counters and points.  As
    exported, the classes take any [number], and their arithmetic is that
    of binary64: the classes whose statements depend on it are embedded
    once more here, every [number] a caller can choose or a sum can leave
    the integers through being a [float].  ([level] and [streak] stay
    integers: [level] only ever holds 1 or a loop index plus one, and
    [streak] counts days that differ, of which a [Date] has fewer than
    2^53.) *)
Module Binary64.

Module Math.

(** [Math.floor]: a finite number with a negative exponent becomes the
    integer below it; the others (integers already, zeros, infinities and
    [NaN]) are returned as they are. *)
Definition floor (x : float) : float :=
  match Prim2SF x with
  | S754_finite sign m e =>
      if 0 <=? e then x
      else JsNumber.ofInt ((if sign then Z.neg m else Z.pos m) / 2 ^ (- e))
  | _ => x
  end.

(** [Math.min] of two numbers: [NaN] if either is, and [-0] before
    [+0]. *)
Definition min (a b : float) : float :=
  if is_nan a || is_nan b then nan
  else if (b <? a)%float then b
  else if (a <? b)%float then a
  else if is_zero a then (if get_sign a then a else b)
  else a.

End Math.

(** The clock once more, [Date.now()] being the number it returns. *)
Module NumberClock.

Definition Clk (A : Type) : Type := (nat -> float) -> nat -> A * nat.

Definition ret {A : Type} (a : A) : Clk A := fun _ k => (a, k).

Definition bind {A B : Type} (m : Clk A) (f : A -> Clk B) : Clk B :=
  fun clock k => let (a, k') := m clock k in f a clock k'.

Definition Date_now : Clk float := fun clock k => (clock k, S k).

Definition orNow (arg : option float) : Clk float :=
  match arg with
  | Some t => ret t
  | None => Date_now
  end.

End NumberClock.

Module ComboSystem.

Record t : Type := mk {
  currentCombo : float;
  highestCombo : float
}.

Definition new : t := mk 0 0.

Definition recordAnswer (isCorrect : bool) (s : t) : t :=
  if isCorrect then
    let currentCombo' := (currentCombo s + 1)%float in
    if (highestCombo s <? currentCombo')%float
    then mk currentCombo' currentCombo'
    else mk currentCombo' (highestCombo s)
  else mk 0 (highestCombo s).

Fixpoint recordAnswers (answers : list bool) (s : t) : t :=
  match answers with
  | [] => s
  | a :: rest => recordAnswers rest (recordAnswer a s)
  end.

Definition getCurrentCombo (s : t) : float := currentCombo s.

Definition getHighestCombo (s : t) : float := highestCombo s.

Definition getMultiplier (s : t) : float :=
  if (5 <=? currentCombo s)%float then 2.0%float
  else if (3 <=? currentCombo s)%float then 1.5%float
  else 1.0%float.

Definition calculatePoints (basePoints : float) (s : t) : float :=
  Math.floor (basePoints * getMultiplier s)%float.

End ComboSystem.

Module EnergySystem.
Import NumberClock.

Record t : Type := mk {
  maxEnergy : float;
  currentEnergy : float;
  lastUpdate : float
}.

Definition new (maxEnergy : float) : Clk t :=
  bind Date_now (fun now => ret (mk maxEnergy maxEnergy now)).

Definition getCurrentEnergy (s : t) : float := currentEnergy s.

Definition hasEnergy (s : t) : bool := (0 <? currentEnergy s)%float.

Definition recordAnswer (isCorrect : bool) (s : t) : Clk t :=
  if negb isCorrect && (0 <? currentEnergy s)%float then
    bind Date_now
         (fun now => ret (mk (maxEnergy s) (currentEnergy s - 1)%float now))
  else ret s.

Definition regenerate (currentTime : option float) (s : t) : Clk t :=
  bind (orNow currentTime) (fun currentTime =>
    if (maxEnergy s <=? currentEnergy s)%float then ret s
    else
      let hoursPassed :=
        ((currentTime - lastUpdate s) / (60 * 60 * 1000))%float in
      let energyToRegenerate := Math.floor hoursPassed in
      if (0 <? energyToRegenerate)%float then
        ret (mk (maxEnergy s)
                (Math.min (maxEnergy s)
                          (currentEnergy s + energyToRegenerate)%float)
                currentTime)
      else ret s).

Definition refill (s : t) : Clk t :=
  bind Date_now (fun now => ret (mk (maxEnergy s) (maxEnergy s) now)).

Inductive call : Type :=
| RecordAnswer (isCorrect : bool)
| Regenerate (currentTime : option float)
| Refill.

Definition exec (c : call) (s : t) : Clk t :=
  match c with
  | RecordAnswer b => recordAnswer b s
  | Regenerate time => regenerate time s
  | Refill => refill s
  end.

Fixpoint execAll (cs : list call) (s : t) : Clk t :=
  match cs with
  | [] => ret s
  | c :: rest => bind (exec c s) (fun s' => execAll rest s')
  end.

End EnergySystem.

Module UserProgress.

Record t : Type := mk {
  userId : string;
  xp : float;
  level : Z;
  streak : Z;
  lastActivityDate : option JsDate.Date;
  completedLessons : list string
}.

Definition XP_THRESHOLDS : list float :=
  [0; 100; 250; 500; 1000; 2000; 4000; 8000]%float.

Definition new (userId : string) : t := mk userId 0 1 0 None [].

Definition getXP (s : t) : float := xp s.
Definition getLevel (s : t) : Z := level s.

Definition setLevel (s : t) (level : Z) : t :=
  mk (userId s) (xp s) level (streak s) (lastActivityDate s)
     (completedLessons s).

(** The loop of [updateLevel] with [i = n - 1] next. *)
Fixpoint updateLevelFrom (n : nat) (s : t) : t :=
  match n with
  | O => s
  | S i =>
      match nth_error XP_THRESHOLDS i with
      | Some threshold =>
          if (threshold <=? xp s)%float then setLevel s (Z.of_nat i + 1)
          else updateLevelFrom i s
      | None => updateLevelFrom i s
      end
  end.

Definition updateLevel (s : t) : t :=
  updateLevelFrom (List.length XP_THRESHOLDS) s.

(** [addXP]: what the call returns or throws, and the state it leaves.
    [NaN] is not below 0 and passes the test. *)
Definition addXP (amount : float) (s : t) : outcome bool * t :=
  if (amount <? 0)%float then (Thrown (Error "XP must be positive"), s)
  else
    let oldLevel := level s in
    let s1 := mk (userId s) (xp s + amount)%float (level s) (streak s)
                 (lastActivityDate s) (completedLessons s) in
    let s2 := updateLevel s1 in
    (Returned (level s2 >? oldLevel), s2).

Definition touch (s : t) (streak : Z) (today : JsDate.Date) : t :=
  mk (userId s) (xp s) (level s) streak (Some today) (completedLessons s).

Definition recordActivity (tz : JsDate.TimeZone) (date : option JsDate.Date)
           (s : t) : Clock.Clk t :=
  date <- Clock.orNow date ;;
  let today := UserProgress.stripTime tz date in
  match lastActivityDate s with
  | None => Clock.ret (touch s 1 today)
  | Some last =>
      let lastActivity := UserProgress.stripTime tz last in
      let daysDiff := UserProgress.getDaysDifference lastActivity today in
      if daysDiff =? 0 then Clock.ret s
      else if daysDiff =? 1
           then Clock.ret (touch s (streak s + 1) today)
      else Clock.ret (touch s 1 today)
  end.

Definition isLessonCompleted (lessonId : string) (s : t) : bool :=
  existsb (String.eqb lessonId) (completedLessons s).

Definition completeLesson (lessonId : string) (s : t) : t :=
  if isLessonCompleted lessonId s then s
  else mk (userId s) (xp s) (level s) (streak s) (lastActivityDate s)
          (completedLessons s ++ [lessonId]).

(** The states a [UserProgress] object can be in. *)
Inductive reachable : t -> Prop :=
| reach_new : forall userId, reachable (new userId)
| reach_addXP : forall amount s, reachable s -> reachable (snd (addXP amount s))
| reach_recordActivity : forall tz date clock k s,
    reachable s -> reachable (fst (recordActivity tz date s clock k))
| reach_completeLesson : forall lessonId s,
    reachable s -> reachable (completeLesson lessonId s).

End UserProgress.

End Binary64.

(** ** Vocabulary of the statements *)

Module Vocabulary.
Import JsString QuestionEngine.

(** An accepted translation matches a normalized answer exactly, or
    within the similarity threshold. *)
Definition exactly (normalized accepted : string) : bool :=
  String.eqb normalized (TranslationQuestion.normalizeText accepted).

Definition fuzzily (normalized accepted : string) : bool :=
  JsNumber.geb
    (TranslationQuestion.calculateSimilarity
       normalized (TranslationQuestion.normalizeText accepted))
    JsNumber.lit_0_85.

Definition matches (normalized accepted : string) : bool :=
  exactly normalized accepted || fuzzily normalized accepted.

(** The bonus of a first try. *)
Definition bonus (isFirstTry : bool) : Z := if isFirstTry then 5 else 0.

(** The precondition of [MultipleChoiceQuestion.checkAnswer]: the correct
    index is an integer within the choices. *)
Definition validIndex (q : MultipleChoiceQuestion.t) : Prop :=
  exists n,
    JsNumber.integerValue (MultipleChoiceQuestion.correctIndex q) = Some n
    /\ 0 <= n < Z.of_nat (List.length (MultipleChoiceQuestion.choices q)).

(** The correct index lies within the choices as a number: it is at least
    0 and below their length, integer or not. *)
Definition inRange (q : MultipleChoiceQuestion.t) : Prop :=
  PrimFloat.leb 0 (MultipleChoiceQuestion.correctIndex q) = true
  /\ PrimFloat.ltb
       (MultipleChoiceQuestion.correctIndex q)
       (JsNumber.of_Z (Z.of_nat (List.length (MultipleChoiceQuestion.choices q))))
     = true.

(** The invariant of the combo system. *)
Definition comboInv (s : Gamification.ComboSystem.t) : Prop :=
  0 <= Gamification.ComboSystem.currentCombo s
    <= Gamification.ComboSystem.highestCombo s.

(** The invariant of the energy system. *)
Definition energyInv (s : Gamification.EnergySystem.t) : Prop :=
  0 <= Gamification.EnergySystem.currentEnergy s
    <= Gamification.EnergySystem.maxEnergy s.

(** Whole hours from the last update to [time]. *)
Definition hoursSince (s : Gamification.EnergySystem.t) (time : Z) : Z :=
  (time - Gamification.EnergySystem.lastUpdate s) / (60 * 60 * 1000).

(** Every entry of an achievement map is filed under its own id, and no
    key occurs twice. *)
Definition keyed (m : Gamification.AMap.t) : Prop :=
  Forall (fun p => Gamification.Achievement.id (snd p) = fst p) m
  /\ NoDup (map fst m).

(** The entries of a listing that carry a given id. *)
Definition entriesFor (key : string) (l : list Gamification.AchievementData)
  : list Gamification.AchievementData :=
  filter (fun d => String.eqb (Gamification.data_id d) key) l.

(** A computation whose value does not depend on what the clock reads. *)
Definition clockFree {A : Type} (m : Clock.Clk A) : Prop :=
  forall clock1 clock2 k1 k2, fst (m clock1 k1) = fst (m clock2 k2).

(** Index [i] is the highest threshold index not exceeding [xp]. *)
Definition highestThreshold (xp : Z) (i : nat) : Prop :=
  (exists threshold,
      nth_error UserProgress.XP_THRESHOLDS i = Some threshold
      /\ threshold <= xp)
  /\ forall j threshold,
      nth_error UserProgress.XP_THRESHOLDS j = Some threshold ->
      threshold <= xp -> (j <= i)%nat.

(** Noon, New York time, on 10 and on 11 March 2024. *)
Definition noonMarch10 : JsDate.Date :=
  JsDate.march10_2024 + 16 * JsDate.msPerHour.

Definition noonMarch11 : JsDate.Date :=
  JsDate.march10_2024 + JsDate.msPerDay + 16 * JsDate.msPerHour.

End Vocabulary.

(** ** Further vocabulary *)

Module Notions.
Import QuestionEngine.

(** The cell [matrix[i][j]] of the matrix [levenshteinDistance] fills for
    [str1] and [str2]. *)
Definition cell (str1 str2 : string) (i j : nat) : Z :=
  nth j (nth i (TranslationQuestion.buildMatrix str1 str2) []) 0.

(** The ids of the achievement catalog, in catalog order. *)
Definition catalogIds : list string :=
  ["first-lesson"; "ten-lessons"; "week-streak"; "month-streak"].

(** The achievement filed under [key] exists and is unlocked. *)
Definition isUnlockedAt (key : string) (tr : Gamification.AchievementTracker.t)
  : bool :=
  match Gamification.AMap.get key (Gamification.AchievementTracker.achievements tr) with
  | Some a => Gamification.Achievement.unlocked a
  | None => false
  end.

(** A call meets the threshold of the achievement [key]. *)
Definition triggers (c : Gamification.AchievementTracker.call) (key : string)
  : bool :=
  match c with
  | Gamification.AchievementTracker.CheckLessonCompletion n =>
      (String.eqb key "first-lesson" && (n >=? 1))
      || (String.eqb key "ten-lessons" && (n >=? 10))
  | Gamification.AchievementTracker.CheckStreak n =>
      (String.eqb key "week-streak" && (n >=? 7))
      || (String.eqb key "month-streak" && (n >=? 30))
  end.

(** The map of a tracker holds the catalog ids as its keys, in order. *)
Definition hasCatalogKeys (tr : Gamification.AchievementTracker.t) : Prop :=
  map fst (Gamification.AchievementTracker.achievements tr) = catalogIds.

(** The lessons the constructor and the methods of [Lesson] produce. *)
Inductive builtLesson : LessonContent.Lesson.t -> Prop :=
| built_new : forall id title description difficulty,
    builtLesson (LessonContent.Lesson.new id title description difficulty)
| built_addQuestion : forall question l,
    builtLesson l -> builtLesson (LessonContent.Lesson.addQuestion question l)
| built_addVocabulary : forall vocab l,
    builtLesson l -> builtLesson (LessonContent.Lesson.addVocabulary vocab l)
| built_markCompleted : forall l,
    builtLesson l -> builtLesson (LessonContent.Lesson.markCompleted l)
| built_recordQuestionAnswer : forall questionIndex isCorrect l,
    builtLesson l ->
    builtLesson
      (LessonContent.Lesson.recordQuestionAnswer questionIndex isCorrect l).

(** The progress formula of [Lesson.getProgress] and
    [SkillPath.getProgress] for [count] out of [total]. *)
Definition progressOf (count total : Z) : Z :=
  JsMath.floor (JsNumber.of_Z count / JsNumber.of_Z total * 100)%float.

(** The formula yields a percentage, and 100 for all out of all only:
    checked for [count <= total]. *)
Definition progressOk (total count : nat) : bool :=
  let p := progressOf (Z.of_nat count) (Z.of_nat total) in
  (0 <=? p) && (p <=? 100) && Bool.eqb (p =? 100) (Nat.eqb count total).

(** A lesson is not among the completed ones. *)
Definition uncompleted (completedLessons : list string)
           (l : LessonContent.Lesson.t) : bool :=
  negb (JsArray.includes completedLessons (LessonContent.Lesson.getId l)).

(** The first lesson not completed of the first path that has one. *)
Fixpoint firstUncompleted (completedLessons : list string)
         (paths : list LessonContent.SkillPath.t)
  : option LessonContent.Lesson.t :=
  match paths with
  | [] => None
  | path :: rest =>
      match find (uncompleted completedLessons)
                 (LessonContent.SkillPath.lessons path) with
      | Some l => Some l
      | None => firstUncompleted completedLessons rest
      end
  end.

(** A small game to run the statements on: a fresh user with full energy
    and one lesson of two questions. *)
Definition demoLesson : LessonContent.Lesson.t :=
  LessonContent.Lesson.addQuestion
    (QuestionEngine.FillInBlank
       (QuestionEngine.FillInBlankQuestion.mk
          (QuestionEngine.mkQuestion "_____, how are you today?"
                                     QuestionEngine.easy)
          "Hello" ["Hello"; "Hi"]))
    (LessonContent.Lesson.addQuestion
       (QuestionEngine.MultipleChoice
          (QuestionEngine.MultipleChoiceQuestion.mk
             (QuestionEngine.mkQuestion
                "What is a common way to greet someone in English?"
                QuestionEngine.easy)
             ["Hello"; "Goodbye"; "Thank you"; "Sorry"] 0%float))
       (LessonContent.Lesson.new "greetings-1" "Basic Greetings"
          "Learn how to greet people in English" QuestionEngine.easy)).

Definition demoGame : LanguageLearningGame.t :=
  LanguageLearningGame.mk
    (UserProgress.new "user-1")
    (Gamification.AchievementTracker.new "user-1")
    Gamification.ComboSystem.new
    (Gamification.EnergySystem.mk 5 5 0)
    (LessonContent.LessonManager.addLesson
       demoLesson LessonContent.LessonManager.new).

(** The names [answerQuestion] reports: those of the achievements unlocked
    in [tr] whose id is not among the [previous] ones. *)
Definition newlyUnlocked (previous : list Gamification.AchievementData)
           (tr : Gamification.AchievementTracker.t) : list string :=
  map Gamification.data_name
      (filter (fun a =>
                 negb (existsb (fun pa =>
                                  String.eqb (Gamification.data_id pa)
                                             (Gamification.data_id a))
                               previous))
              (Gamification.AchievementTracker.getUnlockedAchievements tr)).

(** The two achievement checks at the end of [answerQuestion]. *)
Definition achievementChecks (progress : UserProgress.t)
  : list Gamification.AchievementTracker.call :=
  [Gamification.AchievementTracker.CheckLessonCompletion
     (Z.of_nat (List.length (UserProgress.getCompletedLessons progress)));
   Gamification.AchievementTracker.CheckStreak
     (UserProgress.getStreak progress)].

(** A clock whose first two readings fall on one day and each later one
    a day after the one before. *)
Definition dailyClock (n : nat) : Z :=
  Z.max 0 (Z.of_nat n - 1) * (24 * 60 * 60 * 1000).

(** [completeLesson] of the game, called [days] times in a row. *)
Fixpoint completeDaily (days : nat) (lessonId : string)
         (g : LanguageLearningGame.t) : Clock.Clk LanguageLearningGame.t :=
  match days with
  | O => Clock.ret g
  | S days' =>
      Clock.bind (LanguageLearningGame.completeLesson JsDate.utc lessonId g)
                 (completeDaily days' lessonId)
  end.

End Notions.

(** ** The similarity of the specification *)

Module EditDistance.
Import QuestionEngine.

(** One single-character edit of a string: a character is inserted,
    deleted, or substituted by another one, at the head of the string or
    further on. *)
Inductive edit : string -> string -> Prop :=
| edit_insert : forall c s, edit s (String c s)
| edit_delete : forall c s, edit (String c s) s
| edit_substitute : forall c c' s, c <> c' -> edit (String c s) (String c' s)
| edit_further : forall c s s', edit s s' -> edit (String c s) (String c s').

(** [n] single-character edits in a row. *)
Inductive edits : nat -> string -> string -> Prop :=
| edits_none : forall s, edits 0 s s
| edits_more : forall n a b c, edits n a b -> edit b c -> edits (S n) a c.

(** The edit distance of the specification: the least number of
    single-character edits that turn [a] into [b]. *)
Definition editDistance (a b : string) (d : nat) : Prop :=
  edits d a b /\ forall n, edits n a b -> (d <= n)%nat.

(** An alignment of two strings read from their ends: the last characters
    are kept, substituted, deleted or inserted, at the cost of [n] edits in
    all. *)
Inductive aligned : nat -> string -> string -> Prop :=
| aligned_done : aligned 0 EmptyString EmptyString
| aligned_keep : forall c a b n,
    aligned n a b -> aligned n (a ++ String c EmptyString) (b ++ String c EmptyString)
| aligned_substitute : forall c c' a b n,
    c <> c' -> aligned n a b ->
    aligned (S n) (a ++ String c EmptyString) (b ++ String c' EmptyString)
| aligned_delete : forall c a b n,
    aligned n a b -> aligned (S n) (a ++ String c EmptyString) b
| aligned_insert : forall c a b n,
    aligned n a b -> aligned (S n) a (b ++ String c EmptyString).

(** The similarity of the specification for two strings at edit distance
    [d]: 0 when either string is empty, and otherwise 1 less the distance
    divided by the greater of the two lengths. *)
Definition similarity (a b : string) (d : nat) : float :=
  if (String.length a =? 0)%nat || (String.length b =? 0)%nat then 0%float
  else
    (1 - JsNumber.of_Z (Z.of_nat d)
         / JsNumber.of_Z (Z.of_nat (Nat.max (String.length a)
                                            (String.length b))))%float.

(** The similarity of two strings is at least 0.85. *)
Definition similar (a b : string) : Prop :=
  exists d, editDistance a b d
            /\ JsNumber.geb (similarity a b d) JsNumber.lit_0_85 = true.

(** An accepted translation agrees with a normalized answer: normalized,
    it equals the answer or is similar to it. *)
Definition agrees (normalized accepted : string) : Prop :=
  normalized = TranslationQuestion.normalizeText accepted
  \/ similar normalized (TranslationQuestion.normalizeText accepted).

(** The binary64 comparison of the similarity with 0.85 agrees with the
    exact one, [1 - d / len >= 85 / 100], for the distance [d] and the
    greater length [len]. *)
Definition thresholdOk (len d : nat) : bool :=
  Bool.eqb
    (JsNumber.geb
       (1 - JsNumber.of_Z (Z.of_nat d) / JsNumber.of_Z (Z.of_nat len))%float
       JsNumber.lit_0_85)
    (20 * Z.of_nat d <=? 3 * Z.of_nat len).

End EditDistance.

(** ** Vocabulary of binary64 arithmetic *)

Module Floats.

(** The value of a mantissa and an exponent, in units of [2^-1074]. *)
Definition val (m : positive) (e : Z) : Z := Z.pos m * 2 ^ (e + 1074).

(** The integer [n] is the value of the canonical mantissa [m] and
    exponent [e]: [n = m * 2^e] with [m] of 53 bits. *)
Definition Repr (n : Z) (m : positive) (e : Z) : Prop :=
  -52 <= e <= 1
  /\ Z.pos (digits2_pos m) = 53
  /\ Z.pos m * 2 ^ (e + 52) = n * 2 ^ 52.

(** A number that is not [NaN] and not below zero. *)
Definition SFnonneg (x : spec_float) : Prop :=
  match x with
  | S754_zero _ => True
  | S754_finite s _ _ => s = false
  | S754_infinity s => s = false
  | S754_nan => False
  end.

(** The energy system holds the integers [n] and [maxE], with the energy
    between 0 and the maximum. *)
Definition energyInv64 (maxE n : Z) (s : Binary64.EnergySystem.t) : Prop :=
  0 <= n <= maxE
  /\ Binary64.EnergySystem.currentEnergy s = JsNumber.of_Z n
  /\ Binary64.EnergySystem.maxEnergy s = JsNumber.of_Z maxE.

(** The whole hours [regenerate] counts between the last update and
    [time]. *)
Definition hoursSince64 (s : Binary64.EnergySystem.t) (time : float) : float :=
  Binary64.Math.floor
    ((time - Binary64.EnergySystem.lastUpdate s) / (60 * 60 * 1000))%float.

(** Index [i] is the highest threshold index not exceeding the number
    [xp]. *)
Definition highestThreshold64 (xp : float) (i : nat) : Prop :=
  (exists threshold,
      nth_error Binary64.UserProgress.XP_THRESHOLDS i = Some threshold
      /\ (threshold <=? xp)%float = true)
  /\ forall j threshold,
      nth_error Binary64.UserProgress.XP_THRESHOLDS j = Some threshold ->
      (threshold <=? xp)%float = true -> (j <= i)%nat.

End Floats.

(** ** The integer embedding inside the binary64 one *)

Module IntegerView.

(** A combo system of whole counters, as the numbers the code holds. *)
Definition comboView (s : Gamification.ComboSystem.t) : Binary64.ComboSystem.t :=
  Binary64.ComboSystem.mk
    (JsNumber.of_Z (Gamification.ComboSystem.currentCombo s))
    (JsNumber.of_Z (Gamification.ComboSystem.highestCombo s)).

(** A user progress with whole experience, as the numbers the code
    holds. *)
Definition progressView (s : UserProgress.t) : Binary64.UserProgress.t :=
  Binary64.UserProgress.mk
    (UserProgress.userId s) (JsNumber.of_Z (UserProgress.xp s))
    (UserProgress.level s) (UserProgress.streak s)
    (UserProgress.lastActivityDate s) (UserProgress.completedLessons s).

End IntegerView.

(** * Theorems *)

Section QuestionEngineFacts.
Import JsString QuestionEngine Vocabulary.

Lemma float_neq_by_sign (x : float) :
  PrimFloat.ltb 0 x = true -> x <> 0%float.
Proof.
  intros H E. rewrite E in H. vm_compute in H. discriminate.
Qed.

Lemma calculateSimilarity_same (s : string) :
  TranslationQuestion.calculateSimilarity s s = 1%float.
Proof.
  unfold TranslationQuestion.calculateSimilarity.
  now rewrite String.eqb_refl.
Qed.

(** C1, as the specification states it, fails: the similarity of the two
    empty strings is not 0. *)
Lemma calculateSimilarity_empty_empty_not_zero :
  TranslationQuestion.calculateSimilarity EmptyString EmptyString <> 0%float.
Proof.
  apply float_neq_by_sign. vm_compute. reflexivity.
Qed.

(** C1 (amended): the similarity of the two empty strings is 1, by the
    equal-strings short cut that comes first; it is 0 when exactly one of
    the two strings is empty. *)
Theorem calculateSimilarity_empty (s : string) :
  TranslationQuestion.calculateSimilarity EmptyString EmptyString = 1%float
  /\ (s <> EmptyString ->
      TranslationQuestion.calculateSimilarity s EmptyString = 0%float
      /\ TranslationQuestion.calculateSimilarity EmptyString s = 0%float).
Proof.
  split; [apply calculateSimilarity_same | intros Hs].
  unfold TranslationQuestion.calculateSimilarity.
  destruct s as [| c s]; [congruence |].
  split; simpl; reflexivity.
Qed.

Lemma calculateSimilarity_empty_witness :
  TranslationQuestion.calculateSimilarity EmptyString EmptyString = 1%float
  /\ TranslationQuestion.calculateSimilarity "a" EmptyString = 0%float
  /\ TranslationQuestion.calculateSimilarity EmptyString "a" = 0%float.
Proof.
  destruct (calculateSimilarity_empty "a") as [H1 H2].
  split; [exact H1 | apply H2; discriminate].
Defined.

(** *** Points (C6) and totality of the multiple-choice check (C10) *)

Lemma index_Some_iff {A : Type} (xs : list A) (i : Z) :
  (exists x, index xs i = Some x) <-> 0 <= i < Z.of_nat (List.length xs).
Proof.
  unfold index. destruct (Z.ltb_spec i 0) as [Hneg | Hpos].
  - split; [intros [x Hx]; discriminate | lia].
  - split.
    + intros [x Hx].
      assert (Hlt : (Z.to_nat i < List.length xs)%nat)
        by (apply nth_error_Some; congruence).
      lia.
    + intros [_ Hlt].
      destruct (nth_error xs (Z.to_nat i)) eqn:E; [eauto |].
      apply nth_error_None in E. lia.
Qed.

Lemma indexNumber_Some_iff (q : MultipleChoiceQuestion.t) :
  (exists x, indexNumber (MultipleChoiceQuestion.choices q)
                         (MultipleChoiceQuestion.correctIndex q) = Some x)
  <-> validIndex q.
Proof.
  unfold indexNumber, validIndex.
  destruct (JsNumber.integerValue (MultipleChoiceQuestion.correctIndex q))
    as [n |].
  - rewrite index_Some_iff. split.
    + intros H. exists n. split; [reflexivity | exact H].
    + intros [n' [[= <-] H]]. exact H.
  - split; [intros [x Hx]; discriminate | intros [n [Hn _]]; discriminate].
Qed.

Lemma calculatePoints_spec (q : Question) (isCorrect isFirstTry : bool) :
  calculatePoints q isCorrect isFirstTry
  = if isCorrect then basePoints (difficulty q) + bonus isFirstTry else 0.
Proof.
  unfold calculatePoints, basePoints, getBasePoints, bonus.
  destruct isCorrect; reflexivity.
Qed.

Lemma translation_scan_points q normalized isFirstTry accepted r :
  TranslationQuestion.scan q normalized isFirstTry accepted = Some r ->
  isCorrect r = true
  /\ points r
     = basePoints (difficulty (TranslationQuestion.base q)) + bonus isFirstTry.
Proof.
  induction accepted as [| a rest IH]; simpl; [discriminate |].
  destruct (String.eqb _ _).
  - intros [= <-]. simpl. split; [reflexivity | apply calculatePoints_spec].
  - destruct (TranslationQuestion.isFuzzyMatch _ _); [| exact IH].
    intros [= <-]. simpl. split; [reflexivity | apply calculatePoints_spec].
Qed.

Lemma fillInBlank_scan_points q normalized isFirstTry accepted r :
  FillInBlankQuestion.scan q normalized isFirstTry accepted = Some r ->
  isCorrect r = true
  /\ points r
     = basePoints (difficulty (FillInBlankQuestion.base q)) + bonus isFirstTry.
Proof.
  induction accepted as [| a rest IH]; simpl; [discriminate |].
  destruct (String.eqb _ _); [| exact IH].
  intros [= <-]. simpl. split; [reflexivity | apply calculatePoints_spec].
Qed.

(** C6: base points are 5, 10 and 15 for easy, medium and hard; whatever
    the variant, the difficulty and the answer, a result judged incorrect
    carries 0 points and a result judged correct carries the base points of
    the difficulty, plus 5 on a first try.  The call returns such a result
    unless it is a multiple-choice question whose correct index is out of
    range. *)
Theorem checkAnswer_points (q : AnyQuestion) (answer : string) (isFirstTry : bool) :
  (basePoints easy = 5 /\ basePoints medium = 10 /\ basePoints hard = 15)
  /\ match checkAnswer q answer isFirstTry with
     | Returned r =>
         points r
         = if isCorrect r
           then basePoints (getDifficulty q) + (if isFirstTry then 5 else 0)
           else 0
     | Thrown _ => exists mc, q = MultipleChoice mc /\ ~ validIndex mc
     end.
Proof.
  split; [repeat split |].
  destruct q as [mc | tq | fq]; simpl.
  - unfold MultipleChoiceQuestion.checkAnswer.
    destruct (indexNumber _ _) as [correct |] eqn:E.
    + destruct (String.eqb _ _); simpl; [| reflexivity].
      apply calculatePoints_spec.
    + exists mc. split; [reflexivity |].
      intros Hv. apply indexNumber_Some_iff in Hv. destruct Hv as [x Hx].
      congruence.
  - unfold TranslationQuestion.checkAnswer.
    destruct (TranslationQuestion.scan _ _ _ _) as [r |] eqn:E.
    + apply translation_scan_points in E. destruct E as [-> ->]. reflexivity.
    + reflexivity.
  - unfold FillInBlankQuestion.checkAnswer.
    destruct (FillInBlankQuestion.scan _ _ _ _) as [r |] eqn:E.
    + apply fillInBlank_scan_points in E. destruct E as [-> ->]. reflexivity.
    + reflexivity.
Qed.

(** C10, as the specification states it, fails: 0.5 is at least 0 and
    below the number of choices, yet no choice is filed under it and the
    call throws. *)
Lemma multipleChoice_fractional_index_throws :
  ~ (forall (q : MultipleChoiceQuestion.t) (answer : string) (isFirstTry : bool),
        inRange q ->
        exists r,
          MultipleChoiceQuestion.checkAnswer q answer isFirstTry = Returned r).
Proof.
  intros H.
  destruct (H (MultipleChoiceQuestion.mk (mkQuestion "Hello?" easy)
                 ["Konnichiwa"; "Sayonara"] 0.5%float)
              "Konnichiwa" false) as [r Hr].
  - split; reflexivity.
  - discriminate Hr.
Qed.

(** C10 (amended): the multiple-choice check returns a result exactly when
    the correct index is an integer within the choices; with any other
    number (out of range, or in range with a fractional part) the lookup
    yields no string and the call throws a [TypeError]. *)
Theorem multipleChoice_checkAnswer_total
  (q : MultipleChoiceQuestion.t) (answer : string) (isFirstTry : bool) :
  (validIndex q ->
   exists r, MultipleChoiceQuestion.checkAnswer q answer isFirstTry = Returned r)
  /\ (~ validIndex q ->
      exists message,
        MultipleChoiceQuestion.checkAnswer q answer isFirstTry
        = Thrown (TypeError message)).
Proof.
  unfold MultipleChoiceQuestion.checkAnswer. split; intros Hv.
  - apply indexNumber_Some_iff in Hv. destruct Hv as [correct ->].
    destruct (String.eqb _ _); eauto.
  - destruct (indexNumber _ _) as [correct |] eqn:E; [| eauto].
    exfalso. apply Hv. apply indexNumber_Some_iff. eauto.
Qed.

Lemma multipleChoice_checkAnswer_total_witness :
  MultipleChoiceQuestion.checkAnswer
    (MultipleChoiceQuestion.mk (mkQuestion "Hello?" easy)
                               ["Konnichiwa"; "Sayonara"] 0%float)
    " KONNICHIWA " true
  = Returned (mkResult true "Correct!" 10 None)
  /\ (exists message,
        MultipleChoiceQuestion.checkAnswer
          (MultipleChoiceQuestion.mk (mkQuestion "Hello?" easy)
                                     ["Konnichiwa"; "Sayonara"] 2%float)
          "Sayonara" false
        = Thrown (TypeError message))
  /\ exists message,
      MultipleChoiceQuestion.checkAnswer
        (MultipleChoiceQuestion.mk (mkQuestion "Hello?" easy)
                                   ["Konnichiwa"; "Sayonara"] 0.5%float)
        "Konnichiwa" false
      = Thrown (TypeError message).
Proof.
  split; [| split].
  - destruct (proj1 (multipleChoice_checkAnswer_total
                       (MultipleChoiceQuestion.mk (mkQuestion "Hello?" easy)
                          ["Konnichiwa"; "Sayonara"] 0%float)
                       " KONNICHIWA " true)) as [r Hr].
    + exists 0. split; [reflexivity | simpl; lia].
    + reflexivity.
  - apply (proj2 (multipleChoice_checkAnswer_total
                    (MultipleChoiceQuestion.mk (mkQuestion "Hello?" easy)
                       ["Konnichiwa"; "Sayonara"] 2%float)
                    "Sayonara" false)).
    intros [n [Hn Hr]]. vm_compute in Hn. injection Hn as <-. simpl in Hr. lia.
  - apply (proj2 (multipleChoice_checkAnswer_total
                    (MultipleChoiceQuestion.mk (mkQuestion "Hello?" easy)
                       ["Konnichiwa"; "Sayonara"] 0.5%float)
                    "Konnichiwa" false)).
    intros [n [Hn _]]. vm_compute in Hn. discriminate Hn.
Defined.

(** *** The scan of the accepted translations *)

Lemma translation_scan_first q normalized isFirstTry pre a post :
  (forall b, In b pre -> matches normalized b = false) ->
  matches normalized a = true ->
  TranslationQuestion.scan q normalized isFirstTry (pre ++ a :: post)
  = Some (if exactly normalized a
          then TranslationQuestion.exactResult q isFirstTry
          else TranslationQuestion.fuzzyResult q isFirstTry).
Proof.
  unfold matches, exactly, fuzzily, TranslationQuestion.isFuzzyMatch.
  intros Hpre Ha. induction pre as [| b pre IH]; simpl.
  - destruct (String.eqb _ _); [reflexivity |].
    simpl in Ha. unfold TranslationQuestion.isFuzzyMatch. now rewrite Ha.
  - assert (Hb := Hpre b (or_introl eq_refl)).
    apply orb_false_iff in Hb. destruct Hb as [-> Hb].
    unfold TranslationQuestion.isFuzzyMatch at 1. rewrite Hb.
    apply IH. intros c Hc. apply Hpre. now right.
Qed.

Lemma translation_scan_none q normalized isFirstTry accepted :
  TranslationQuestion.scan q normalized isFirstTry accepted = None
  <-> forall b, In b accepted -> matches normalized b = false.
Proof.
  unfold matches, exactly, fuzzily.
  induction accepted as [| a rest IH]; simpl.
  - split; [intros _ b [] | reflexivity].
  - unfold TranslationQuestion.isFuzzyMatch at 1.
    destruct (String.eqb _ _) eqn:Ee.
    + split; [discriminate | intros H].
      specialize (H a (or_introl eq_refl)). now rewrite Ee in H.
    + destruct (JsNumber.geb _ _) eqn:Ef.
      * split; [discriminate | intros H].
        specialize (H a (or_introl eq_refl)). now rewrite Ee, Ef in H.
      * rewrite IH. split.
        -- intros H b [<- | Hb]; [now rewrite Ee, Ef | now apply H].
        -- intros H b Hb. apply H. now right.
Qed.

Lemma translation_scan_some q normalized isFirstTry accepted r :
  TranslationQuestion.scan q normalized isFirstTry accepted = Some r ->
  exists a, In a accepted /\ matches normalized a = true.
Proof.
  unfold matches, exactly, fuzzily.
  induction accepted as [| a rest IH]; simpl; [discriminate |].
  unfold TranslationQuestion.isFuzzyMatch at 1.
  destruct (String.eqb _ _) eqn:Ee.
  - intros _. exists a. rewrite Ee. auto.
  - destruct (JsNumber.geb _ _) eqn:Ef.
    + intros _. exists a. rewrite Ee, Ef. auto.
    + intros H. destruct (IH H) as [b [Hb Hm]]. exists b. auto.
Qed.

(** The similarity examples of the specification, in binary64. *)
Example similarity_examples :
  TranslationQuestion.calculateSimilarity "abc" "abc" = 1%float
  /\ TranslationQuestion.calculateSimilarity "abc" "abd" = (1 - 1 / 3)%float
  /\ TranslationQuestion.levenshteinDistance "kitten" "sitting" = 3.
Proof. vm_compute. repeat split. Qed.

(** The acceptance examples of the specification: one missing accent is a
    minor typo, another sentence is rejected, and an earlier fuzzy entry
    wins over a later exact one. *)
Example translation_minor_typo :
  TranslationQuestion.checkAnswer
    (TranslationQuestion.mk (mkQuestion "Translate" medium) "The cat is sleeping"
       ["El gato est" ++ String (of_code 225) " durmiendo"])
    "El gato esta durmiendo" false
  = mkResult true "Correct! (Note: minor typo detected)" 10 None.
Proof. vm_compute. reflexivity. Qed.

Example translation_rejected :
  TranslationQuestion.checkAnswer
    (TranslationQuestion.mk (mkQuestion "Translate" medium) "The cat is sleeping"
       ["El gato est" ++ String (of_code 225) " durmiendo"])
    ("El perro est" ++ String (of_code 225) " corriendo") true
  = mkResult false
      ("Not quite. Expected: El gato est" ++ String (of_code 225) " durmiendo")
      0 (Some ("El gato est" ++ String (of_code 225) " durmiendo")).
Proof. vm_compute. reflexivity. Qed.

Example translation_first_match_wins :
  TranslationQuestion.checkAnswer
    (TranslationQuestion.mk (mkQuestion "Translate" hard) "Good morning"
       ["buenos dias"; "buenas dias"])
    " Buenas Dias " true
  = mkResult true "Correct! (Note: minor typo detected)" 20 None.
Proof. vm_compute. reflexivity. Qed.

End QuestionEngineFacts.

(** ** The combo system (C9) *)

Section ComboFacts.
Import Gamification Gamification.ComboSystem Vocabulary.

Lemma recordAnswer_keeps_comboInv (b : bool) (s : ComboSystem.t) :
  comboInv s -> comboInv (recordAnswer b s).
Proof.
  unfold comboInv, recordAnswer. intros H.
  destruct b; simpl; [| lia].
  destruct (Z.gtb_spec (currentCombo s + 1) (highestCombo s)); simpl; lia.
Qed.

Lemma recordAnswer_highest_mono (b : bool) (s : ComboSystem.t) :
  highestCombo s <= highestCombo (recordAnswer b s).
Proof.
  unfold recordAnswer. destruct b; simpl; [| lia].
  destruct (Z.gtb_spec (currentCombo s + 1) (highestCombo s)); simpl; lia.
Qed.

Lemma recordAnswers_keeps_comboInv (answers : list bool) :
  forall s, comboInv s -> comboInv (recordAnswers answers s).
Proof.
  induction answers as [| b rest IH]; simpl; intros s H; [exact H |].
  apply IH. now apply recordAnswer_keeps_comboInv.
Qed.

Lemma recordAnswers_highest_mono (answers : list bool) :
  forall s, highestCombo s <= highestCombo (recordAnswers answers s).
Proof.
  induction answers as [| b rest IH]; simpl; intros s; [lia |].
  specialize (IH (recordAnswer b s)).
  pose proof (recordAnswer_highest_mono b s). lia.
Qed.

(** C9: in every state a fresh combo system reaches by [recordAnswer]
    calls the current combo is at most the highest combo; and from any
    state, one call or any run of calls never lowers the highest combo. *)
Theorem comboSystem_invariant (answers more : list bool) (b : bool) (s : ComboSystem.t) :
  currentCombo (recordAnswers answers ComboSystem.new)
    <= highestCombo (recordAnswers answers ComboSystem.new)
  /\ highestCombo s <= highestCombo (recordAnswer b s)
  /\ highestCombo s <= highestCombo (recordAnswers more s).
Proof.
  split; [| split].
  - apply (recordAnswers_keeps_comboInv answers). unfold comboInv. simpl. lia.
  - apply recordAnswer_highest_mono.
  - apply recordAnswers_highest_mono.
Qed.

Example combo_reset_keeps_highest :
  recordAnswers [true; true; true; false] ComboSystem.new = ComboSystem.mk 0 3.
Proof. reflexivity. Qed.

End ComboFacts.

(** ** The energy system (C5) *)

Section EnergyFacts.
Import Clock Gamification Gamification.EnergySystem Vocabulary.

Lemma recordAnswer_energy b s clock k :
  currentEnergy (fst (EnergySystem.recordAnswer b s clock k))
  = (if negb b && (currentEnergy s >? 0)
     then currentEnergy s - 1 else currentEnergy s)
  /\ maxEnergy (fst (EnergySystem.recordAnswer b s clock k)) = maxEnergy s.
Proof.
  unfold EnergySystem.recordAnswer.
  destruct (negb b && (currentEnergy s >? 0)); split; reflexivity.
Qed.

Lemma regenerate_energy time s clock k :
  energyInv s ->
  currentEnergy (fst (regenerate time s clock k))
  = Z.min (maxEnergy s)
          (currentEnergy s
           + Z.max 0 (hoursSince s (fst (orNow time clock k))))
  /\ maxEnergy (fst (regenerate time s clock k)) = maxEnergy s.
Proof.
  unfold energyInv, regenerate, hoursSince, bind. intros H.
  change (60 * 60 * 1000) with 3600000.
  destruct (orNow time clock k) as [t k']. cbv beta zeta. simpl fst.
  set (hours := (t - lastUpdate s) / 3600000).
  destruct (Z.geb_spec (currentEnergy s) (maxEnergy s)).
  - simpl. split; lia.
  - destruct (Z.gtb_spec hours 0); simpl; split; lia.
Qed.

Lemma exec_keeps_energyInv c s clock k :
  energyInv s ->
  energyInv (fst (exec c s clock k))
  /\ maxEnergy (fst (exec c s clock k)) = maxEnergy s.
Proof.
  intros H. destruct c as [b | time |]; simpl.
  - destruct (recordAnswer_energy b s clock k) as [Hc Hm].
    unfold energyInv in *. rewrite Hc, Hm. split; [| reflexivity].
    destruct (negb b); simpl; [| lia].
    destruct (Z.gtb_spec (currentEnergy s) 0); lia.
  - destruct (regenerate_energy time clock k H) as [Hc Hm].
    unfold energyInv in *. rewrite Hc, Hm. split; [lia | reflexivity].
  - unfold energyInv in *. simpl. split; lia.
Qed.

Lemma execAll_keeps_energyInv cs :
  forall s clock k,
    energyInv s ->
    energyInv (fst (execAll cs s clock k))
    /\ maxEnergy (fst (execAll cs s clock k)) = maxEnergy s.
Proof.
  induction cs as [| c rest IH]; simpl; intros s clock k H.
  - split; [exact H | reflexivity].
  - unfold bind. destruct (exec c s clock k) as [s' k'] eqn:E.
    destruct (exec_keeps_energyInv c clock k H) as [H' Hm].
    rewrite E in H', Hm. simpl in H', Hm.
    destruct (IH s' clock k' H') as [H'' Hm'']. split; [exact H'' | congruence].
Qed.

Example energy_two_wrong_then_one_hour :
  currentEnergy
    (fst (execAll [RecordAnswer false; RecordAnswer false;
                   Regenerate (Some 3600000)]
                  (EnergySystem.mk 5 5 0) (fun _ => 0) 0%nat)) = 4.
Proof. reflexivity. Qed.

Example energy_ten_hours_caps :
  currentEnergy
    (fst (execAll [RecordAnswer false; Regenerate (Some 36000000)]
                  (EnergySystem.mk 5 5 0) (fun _ => 0) 0%nat)) = 5.
Proof. reflexivity. Qed.

End EnergyFacts.

(** ** The achievement tracker (C7) *)

Section AchievementFacts.
Import Clock Gamification Gamification.AchievementTracker Vocabulary.

Lemma get_set_same key a m : AMap.get key (AMap.set key a m) = Some a.
Proof.
  induction m as [| [k b] rest IH]; simpl.
  - now rewrite String.eqb_refl.
  - destruct (String.eqb key k) eqn:E; simpl; rewrite E; [reflexivity | exact IH].
Qed.

Lemma get_set_other key key' a m :
  key' <> key -> AMap.get key' (AMap.set key a m) = AMap.get key' m.
Proof.
  intros Hne. induction m as [| [k b] rest IH]; simpl.
  - apply String.eqb_neq in Hne. now rewrite Hne.
  - destruct (String.eqb key k) eqn:E; simpl.
    + apply String.eqb_eq in E. subst k.
      apply String.eqb_neq in Hne. now rewrite Hne.
    + now rewrite IH.
Qed.

Lemma keys_set_present key a b m :
  AMap.get key m = Some b -> map fst (AMap.set key a m) = map fst m.
Proof.
  induction m as [| [k c] rest IH]; simpl; [discriminate |].
  destruct (String.eqb key k) eqn:E; simpl; [reflexivity |].
  intros H. now rewrite IH.
Qed.

Lemma get_absent key m : ~ In key (map fst m) -> AMap.get key m = None.
Proof.
  induction m as [| [k c] rest IH]; simpl; [reflexivity |].
  intros H. destruct (String.eqb_spec key k) as [-> | Hne].
  - exfalso. apply H. now left.
  - apply IH. intros Hin. apply H. now right.
Qed.

(** A second [unlock] is the identity and reads no clock. *)
Lemma unlock_unlocked a clock k :
  Achievement.unlocked a = true -> Achievement.unlock a clock k = (a, k).
Proof.
  unfold Achievement.unlock. now intros ->.
Qed.

Lemma unlock_id a clock k :
  Achievement.id (fst (Achievement.unlock a clock k)) = Achievement.id a.
Proof.
  unfold Achievement.unlock. now destruct (Achievement.unlocked a).
Qed.

Lemma unlockAt_keeps key tr clock k key' a :
  AMap.get key' (achievements tr) = Some a ->
  Achievement.unlocked a = true ->
  AMap.get key' (achievements (fst (unlockAt key tr clock k))) = Some a.
Proof.
  intros Hget Hun. unfold unlockAt.
  destruct (AMap.get key (achievements tr)) as [b |] eqn:E; [| exact Hget].
  unfold bind. destruct (Achievement.unlock b clock k) as [b' k'] eqn:Eb.
  simpl. destruct (String.eqb_spec key' key) as [-> | Hne].
  - rewrite get_set_same. rewrite E in Hget. injection Hget as ->.
    rewrite unlock_unlocked in Eb by exact Hun. congruence.
  - now rewrite get_set_other.
Qed.

Lemma unlockAt_keyed key tr clock k :
  keyed (achievements tr) ->
  keyed (achievements (fst (unlockAt key tr clock k))).
Proof.
  unfold unlockAt. intros Hk.
  destruct (AMap.get key (achievements tr)) as [b |] eqn:E; [| exact Hk].
  unfold bind. pose proof (unlock_id b clock k) as Hid.
  destruct (Achievement.unlock b clock k) as [b' k']. simpl in *.
  destruct Hk as [Hids Hnd]. split.
  - clear Hnd. revert E Hids.
    induction (achievements tr) as [| [k0 c] rest IH]; simpl; [discriminate |].
    intros E Hids. inversion Hids as [| p l Hp Hrest]; subst.
    destruct (String.eqb_spec key k0) as [-> | Hne].
    + injection E as ->. constructor; [simpl in *; congruence | exact Hrest].
    + constructor; [exact Hp | now apply IH].
  - now rewrite (keys_set_present _ b' _ E).
Qed.

Lemma exec_keeps c tr clock k key a :
  AMap.get key (achievements tr) = Some a ->
  Achievement.unlocked a = true ->
  AMap.get key (achievements (fst (exec c tr clock k))) = Some a.
Proof.
  intros Hget Hun.
  assert (Hstep : forall key1 key2 (go1 go2 : bool),
             AMap.get key
               (achievements
                  (fst ((tr1 <- (if go1 then unlockAt key1 tr else ret tr) ;;
                         if go2 then unlockAt key2 tr1 else ret tr1) clock k)))
             = Some a).
  { intros key1 key2 go1 go2. unfold bind.
    destruct ((if go1 then unlockAt key1 tr else ret tr) clock k)
      as [tr1 k1] eqn:E1.
    assert (H1 : AMap.get key (achievements tr1) = Some a).
    { destruct go1.
      - pose proof (unlockAt_keeps key1 tr clock k key Hget Hun) as H.
        now rewrite E1 in H.
      - injection E1 as <- _. exact Hget. }
    destruct go2; [now apply unlockAt_keeps | exact H1]. }
  destruct c as [n | n]; simpl; apply Hstep.
Qed.

Lemma exec_keyed c tr clock k :
  keyed (achievements tr) -> keyed (achievements (fst (exec c tr clock k))).
Proof.
  intros Hk.
  assert (Hstep : forall key1 key2 (go1 go2 : bool),
             keyed
               (achievements
                  (fst ((tr1 <- (if go1 then unlockAt key1 tr else ret tr) ;;
                         if go2 then unlockAt key2 tr1 else ret tr1) clock k)))).
  { intros key1 key2 go1 go2. unfold bind.
    destruct ((if go1 then unlockAt key1 tr else ret tr) clock k)
      as [tr1 k1] eqn:E1.
    assert (H1 : keyed (achievements tr1)).
    { destruct go1.
      - pose proof (unlockAt_keyed key1 tr clock k Hk) as H.
        now rewrite E1 in H.
      - injection E1 as <- _. exact Hk. }
    destruct go2; [now apply unlockAt_keyed | exact H1]. }
  destruct c as [n | n]; simpl; apply Hstep.
Qed.

Lemma execAll_keeps cs :
  forall tr clock k key a,
    AMap.get key (achievements tr) = Some a ->
    Achievement.unlocked a = true ->
    AMap.get key (achievements (fst (execAll cs tr clock k))) = Some a.
Proof.
  induction cs as [| c rest IH]; simpl; intros tr clock k key a Hget Hun;
    [exact Hget |].
  unfold bind. destruct (exec c tr clock k) as [tr' k'] eqn:E.
  apply IH; [| exact Hun].
  pose proof (exec_keeps c tr clock k key Hget Hun) as H. now rewrite E in H.
Qed.

Lemma execAll_keyed cs :
  forall tr clock k,
    keyed (achievements tr) ->
    keyed (achievements (fst (execAll cs tr clock k))).
Proof.
  induction cs as [| c rest IH]; simpl; intros tr clock k Hk; [exact Hk |].
  unfold bind. destruct (exec c tr clock k) as [tr' k'] eqn:E.
  apply IH. pose proof (exec_keyed c tr clock k Hk) as H. now rewrite E in H.
Qed.

Lemma new_keyed userId : keyed (achievements (AchievementTracker.new userId)).
Proof.
  split.
  - repeat constructor.
  - simpl. repeat constructor; simpl; intuition discriminate.
Qed.

Lemma entriesFor_keyed key m :
  keyed m ->
  entriesFor key (map Achievement.toData
                      (filter Achievement.isUnlocked (AMap.values m)))
  = match AMap.get key m with
    | Some a => if Achievement.unlocked a then [Achievement.toData a] else []
    | None => []
    end.
Proof.
  unfold keyed, entriesFor, AMap.values.
  induction m as [| [k a] rest IH]; simpl; intros [Hids Hnd]; [reflexivity |].
  inversion Hids as [| p l Hp Hrest]; subst. simpl in Hp.
  inversion Hnd as [| k' l' Hnotin Hnd']; subst.
  specialize (IH (conj Hrest Hnd')).
  unfold Achievement.isUnlocked at 1.
  destruct (String.eqb_spec key (Achievement.id a)) as [-> | Hne].
  - rewrite (get_absent _ _ Hnotin) in IH.
    destruct (Achievement.unlocked a); simpl; [| exact IH].
    now rewrite String.eqb_refl, IH.
  - destruct (Achievement.unlocked a); simpl; [| exact IH].
    assert (E : String.eqb (Achievement.id a) key = false)
      by (apply String.eqb_neq; congruence).
    now rewrite E.
Qed.

(** C7: through any run of [checkLessonCompletion] and [checkStreak] calls
    an unlocked achievement stays exactly as it is, its time stamp being
    the one of its first unlock: it is never locked again and never
    unlocked a second time.  Unlocking a locked achievement stamps the
    clock's reading; a further [unlock] changes nothing and reads no clock.
    The listing of a tracker holds, for every key, exactly the data of the
    achievement filed under it when that one is unlocked, and nothing
    otherwise. *)
Theorem achievements_unlock_once
  (userId : string) (calls more : list call) (clock : nat -> Z) (k : nat)
  (tr0 : AchievementTracker.t) :
  let tr := fst (execAll calls (AchievementTracker.new userId) clock k) in
  (forall key a clock' k',
      AMap.get key (achievements tr0) = Some a ->
      Achievement.unlocked a = true ->
      AMap.get key (achievements (fst (execAll more tr0 clock' k'))) = Some a)
  /\ (forall a clock' k',
        (Achievement.unlocked a = true ->
         Achievement.unlock a clock' k' = (a, k'))
        /\ (Achievement.unlocked a = false ->
            Achievement.unlocked (fst (Achievement.unlock a clock' k')) = true
            /\ Achievement.unlockedAt (fst (Achievement.unlock a clock' k'))
               = Some (clock' k')))
  /\ (forall key,
        entriesFor key (getUnlockedAchievements tr)
        = match AMap.get key (achievements tr) with
          | Some a =>
              if Achievement.unlocked a then [Achievement.toData a] else []
          | None => []
          end).
Proof.
  intros tr. split; [| split].
  - intros key a clock' k' Hget Hun. now apply execAll_keeps.
  - intros a clock' k'. split.
    + apply unlock_unlocked.
    + unfold Achievement.unlock. intros ->. simpl. split; reflexivity.
  - intros key. unfold getUnlockedAchievements. apply entriesFor_keyed.
    subst tr. apply execAll_keyed. apply new_keyed.
Qed.

Lemma achievements_unlock_once_witness :
  let tr0 := fst (execAll [CheckLessonCompletion 1]
                          (AchievementTracker.new "u")
                          (fun n => 1000 + Z.of_nat n) 0%nat) in
  AMap.get "first-lesson"
    (achievements
       (fst (execAll [CheckLessonCompletion 12; CheckStreak 40] tr0
                     (fun n => 2000 + Z.of_nat n) 0%nat)))
  = Some (Achievement.mk "first-lesson" "First Steps"
                         "Complete your first lesson" bronze true (Some 1000)).
Proof.
  intros tr0.
  apply (proj1 (achievements_unlock_once
                  "u" [] [CheckLessonCompletion 12; CheckStreak 40]
                  (fun _ => 0) 0%nat tr0)); reflexivity.
Defined.

(** Two qualifying calls, the clock advancing in between: one entry, with
    the time stamp of the first unlock. *)
Example first_lesson_unlocked_once :
  getUnlockedAchievements
    (fst (execAll [CheckLessonCompletion 1; CheckLessonCompletion 3]
                  (AchievementTracker.new "u")
                  (fun n => 1000 + Z.of_nat n) 0%nat))
  = [mkData "first-lesson" "First Steps" "Complete your first lesson"
            bronze (Some 1000)].
Proof. reflexivity. Qed.

End AchievementFacts.

(** ** The clock and its overrides (C8) *)

Section ClockFacts.
Import Clock Gamification JsDate Vocabulary.

(** C8, as the specification states it, fails: [unlock], the energy
    system's [recordAnswer] and [refill] take no time stamp, and from the
    same state two clocks give two results. *)
Lemma clock_readings_leak :
  fst (Achievement.unlock
         (Achievement.new "first-lesson" "First Steps"
                          "Complete your first lesson" bronze)
         (fun _ => 1) 0%nat)
  <> fst (Achievement.unlock
            (Achievement.new "first-lesson" "First Steps"
                             "Complete your first lesson" bronze)
            (fun _ => 2) 0%nat)
  /\ fst (EnergySystem.recordAnswer false (EnergySystem.mk 5 5 0)
                                    (fun _ => 1) 0%nat)
     <> fst (EnergySystem.recordAnswer false (EnergySystem.mk 5 5 0)
                                       (fun _ => 2) 0%nat)
  /\ fst (EnergySystem.refill (EnergySystem.mk 5 3 0) (fun _ => 1) 0%nat)
     <> fst (EnergySystem.refill (EnergySystem.mk 5 3 0) (fun _ => 2) 0%nat).
Proof.
  repeat split; simpl; intros H; discriminate H.
Qed.

(** C8 (amended): [regenerate] and [recordActivity] accept an explicit
    time, and given one their result does not depend on the clock.
    [unlock] and the energy system's constructor, [recordAnswer] and
    [refill] accept none: each is a function of its state, its arguments
    and the one reading of the clock it may take, as are [regenerate] and
    [recordActivity] without the override.  Two runs with the same inputs
    and the same reading end in the same state. *)
Theorem timestamp_overrides :
  (forall time s, clockFree (EnergySystem.regenerate (Some time) s))
  /\ (forall tz date s, clockFree (UserProgress.recordActivity tz (Some date) s))
  /\ (forall clock1 clock2 k1 k2,
        clock1 k1 = clock2 k2 ->
        (forall a,
            fst (Achievement.unlock a clock1 k1)
            = fst (Achievement.unlock a clock2 k2))
        /\ (forall maxEnergy,
              fst (EnergySystem.new maxEnergy clock1 k1)
              = fst (EnergySystem.new maxEnergy clock2 k2))
        /\ (forall isCorrect s,
              fst (EnergySystem.recordAnswer isCorrect s clock1 k1)
              = fst (EnergySystem.recordAnswer isCorrect s clock2 k2))
        /\ (forall s,
              fst (EnergySystem.refill s clock1 k1)
              = fst (EnergySystem.refill s clock2 k2))
        /\ (forall s,
              fst (EnergySystem.regenerate None s clock1 k1)
              = fst (EnergySystem.regenerate None s clock2 k2))
        /\ (forall tz s,
              fst (UserProgress.recordActivity tz None s clock1 k1)
              = fst (UserProgress.recordActivity tz None s clock2 k2))).
Proof.
  split; [| split].
  - intros time s clock1 clock2 k1 k2.
    unfold EnergySystem.regenerate, bind, orNow, ret.
    destruct (_ >=? _); [reflexivity |]. now destruct (_ >? _).
  - intros tz date s clock1 clock2 k1 k2.
    unfold UserProgress.recordActivity, bind, orNow, ret.
    destruct (UserProgress.lastActivityDate s); [| reflexivity].
    destruct (_ =? 0); [reflexivity |]. now destruct (_ =? 1).
  - intros clock1 clock2 k1 k2 E. repeat split.
    + intros a. unfold Achievement.unlock, bind, Date_now, ret.
      destruct (negb _); simpl; [now rewrite E | reflexivity].
    + intros maxEnergy. unfold EnergySystem.new, bind, Date_now, ret.
      simpl. now rewrite E.
    + intros isCorrect s. unfold EnergySystem.recordAnswer, bind, Date_now, ret.
      destruct (_ && _); simpl; [now rewrite E | reflexivity].
    + intros s. unfold EnergySystem.refill, bind, Date_now, ret.
      simpl. now rewrite E.
    + intros s. unfold EnergySystem.regenerate, bind, orNow, Date_now, ret.
      rewrite E. destruct (_ >=? _); [reflexivity |]. now destruct (_ >? _).
    + intros tz s. unfold UserProgress.recordActivity, bind, orNow, Date_now, ret.
      rewrite E. destruct (UserProgress.lastActivityDate s); [| reflexivity].
      destruct (_ =? 0); [reflexivity |]. now destruct (_ =? 1).
Qed.

End ClockFacts.

(** ** User progress: experience and levels (C3) *)

Section ProgressFacts.
Import Clock JsDate UserProgress Vocabulary.

Lemma updateLevel_fields s :
  userId (updateLevel s) = userId s
  /\ xp (updateLevel s) = xp s
  /\ streak (updateLevel s) = streak s
  /\ lastActivityDate (updateLevel s) = lastActivityDate s
  /\ completedLessons (updateLevel s) = completedLessons s.
Proof.
  unfold updateLevel. simpl.
  repeat (destruct (_ >=? _); [repeat split |]). repeat split.
Qed.

(** The loop of [updateLevel], run over the indices below [n]: it stops
    at the highest one whose threshold [xp] reaches, or finds none. *)
Lemma updateLevelFrom_spec n s :
  (exists i threshold,
      (i < n)%nat
      /\ nth_error XP_THRESHOLDS i = Some threshold
      /\ threshold <= xp s
      /\ (forall j th, (j < n)%nat -> nth_error XP_THRESHOLDS j = Some th ->
                       th <= xp s -> (j <= i)%nat)
      /\ level (updateLevelFrom n s) = Z.of_nat i + 1)
  \/ ((forall j th, (j < n)%nat -> nth_error XP_THRESHOLDS j = Some th ->
                    xp s < th)
      /\ updateLevelFrom n s = s).
Proof.
  induction n as [| n IH].
  - right. split; [intros j th Hj; lia | reflexivity].
  - cbn [updateLevelFrom].
    destruct (nth_error XP_THRESHOLDS n) as [threshold |] eqn:En.
    + destruct (Z.geb_spec (xp s) threshold) as [Hge | Hlt].
      * left. exists n, threshold.
        split; [lia |]. split; [exact En |]. split; [lia |].
        split; [intros j th Hj _ _; lia | reflexivity].
      * destruct IH as [[i [th [Hi [Hnth [Hle [Hmax Hlevel]]]]]] | [Hnone Hsame]].
        -- left. exists i, th.
           split; [lia |]. split; [exact Hnth |]. split; [exact Hle |].
           split; [| exact Hlevel].
           intros j th' Hj Hnth' Hle'.
           destruct (Nat.eq_dec j n) as [-> | Hne].
           ++ rewrite En in Hnth'. injection Hnth' as <-. lia.
           ++ apply (Hmax j th'); [lia | assumption | assumption].
        -- right. split; [| exact Hsame].
           intros j th' Hj Hnth'.
           destruct (Nat.eq_dec j n) as [-> | Hne].
           ++ rewrite En in Hnth'. injection Hnth' as <-. exact Hlt.
           ++ apply (Hnone j th'); [lia | assumption].
    + destruct IH as [[i [th [Hi [Hnth [Hle [Hmax Hlevel]]]]]] | [Hnone Hsame]].
      * left. exists i, th.
        split; [lia |]. split; [exact Hnth |]. split; [exact Hle |].
        split; [| exact Hlevel].
        intros j th' Hj Hnth' Hle'.
        destruct (Nat.eq_dec j n) as [-> | Hne]; [congruence |].
        apply (Hmax j th'); [lia | assumption | assumption].
      * right. split; [| exact Hsame].
        intros j th' Hj Hnth'.
        destruct (Nat.eq_dec j n) as [-> | Hne]; [congruence |].
        apply (Hnone j th'); [lia | assumption].
Qed.

Lemma updateLevel_highest s :
  0 <= xp s ->
  exists i, highestThreshold (xp s) i /\ level (updateLevel s) = Z.of_nat i + 1.
Proof.
  intros Hxp. unfold updateLevel, highestThreshold.
  destruct (updateLevelFrom_spec (List.length XP_THRESHOLDS) s)
    as [[i [th [Hi [Hnth [Hle [Hmax Hlevel]]]]]] | [Hnone _]].
  - exists i. split; [split |]; [eauto | | exact Hlevel].
    intros j th' Hnth' Hle'. apply (Hmax j th'); try assumption.
    apply nth_error_Some. congruence.
  - exfalso. specialize (Hnone 0%nat 0 ltac:(simpl; lia) eq_refl). lia.
Qed.

Lemma reachable_xp_nonneg s : reachable s -> 0 <= xp s.
Proof.
  induction 1 as [u | amount s Hs IH | tz date clock k s Hs IH | l s Hs IH].
  - simpl. lia.
  - unfold addXP. destruct (Z.ltb_spec amount 0); simpl; [exact IH |].
    destruct (updateLevel_fields
                (mk (userId s) (xp s + amount) (level s) (streak s)
                    (lastActivityDate s) (completedLessons s)))
      as [_ [-> _]].
    simpl. lia.
  - unfold recordActivity, bind. destruct (orNow date clock k) as [d k'].
    destruct (lastActivityDate s); [| exact IH].
    destruct (_ =? 0); [exact IH |]. destruct (_ =? 1); exact IH.
  - unfold completeLesson. destruct (isLessonCompleted l s); exact IH.
Qed.

Example addXP_levels :
  level (snd (addXP 100 (UserProgress.new "u"))) = 2
  /\ level (snd (addXP 250 (UserProgress.new "u"))) = 3
  /\ fst (addXP 50 (UserProgress.new "u")) = Returned false
  /\ fst (addXP 50 (snd (addXP 50 (UserProgress.new "u")))) = Returned true
  /\ level (snd (addXP 1000000 (UserProgress.new "u"))) = 8.
Proof. repeat split. Qed.

(** ** User progress: streaks (C2) *)

Lemma msPerDay_pos : 0 < msPerDay.
Proof. reflexivity. Qed.

Lemma localMidnight_fixedZone offset d :
  localMidnight (fixedZone offset) d
  = localDay (fixedZone offset) d * msPerDay - offset.
Proof. reflexivity. Qed.

(** In a zone of fixed offset the day difference the code computes is the
    difference of the calendar days. *)
Lemma getDaysDifference_fixedZone offset last date :
  getDaysDifference (stripTime (fixedZone offset) last)
                    (stripTime (fixedZone offset) date)
  = localDay (fixedZone offset) date - localDay (fixedZone offset) last.
Proof.
  unfold getDaysDifference, stripTime.
  rewrite !localMidnight_fixedZone.
  set (a := localDay (fixedZone offset) last).
  set (b := localDay (fixedZone offset) date).
  replace (b * msPerDay - offset - (a * msPerDay - offset))
    with ((b - a) * msPerDay) by lia.
  apply Z.div_mul. pose proof msPerDay_pos. lia.
Qed.

(** The streak rule holds on a host whose zone has a fixed offset: the
    first call sets the streak to 1; a call on the calendar day last
    recorded leaves it; a call on the next calendar day adds 1; any other
    call resets it to 1. *)
Theorem recordActivity_fixedZone
  (offset : Z) (date : option Date) (s : UserProgress.t)
  (clock : nat -> Z) (k : nat) :
  let tz := fixedZone offset in
  let day := localDay tz (fst (orNow date clock k)) in
  let s' := fst (recordActivity tz date s clock k) in
  match lastActivityDate s with
  | None => streak s' = 1
  | Some last =>
      let lastDay := localDay tz last in
      (day = lastDay -> streak s' = streak s)
      /\ (day = lastDay + 1 -> streak s' = streak s + 1)
      /\ (day <> lastDay -> day <> lastDay + 1 -> streak s' = 1)
  end.
Proof.
  intros tz day s'. subst s' day. unfold recordActivity, bind.
  destruct (orNow date clock k) as [d k']. simpl fst.
  destruct (lastActivityDate s) as [last |]; [| reflexivity].
  cbv zeta. subst tz. rewrite getDaysDifference_fixedZone.
  set (diff := localDay (fixedZone offset) d - localDay (fixedZone offset) last).
  destruct (Z.eqb_spec diff 0) as [H0 | H0].
  - simpl. repeat split; intros; try reflexivity; lia.
  - destruct (Z.eqb_spec diff 1) as [H1 | H1]; simpl.
    + repeat split; intros; try reflexivity; lia.
    + repeat split; intros; try reflexivity; lia.
Qed.

Example streak_examples_utc :
  let run dates :=
    fold_left (fun s d => fst (recordActivity utc (Some d) s (fun _ => 0) 0%nat))
              dates (UserProgress.new "u") in
  let day1 := 19723 * msPerDay in
  streak (run [day1; day1 + 5 * msPerHour]) = 1
  /\ streak (run [day1; day1 + msPerDay]) = 2
  /\ streak (run [day1; day1 + msPerDay; day1 + 4 * msPerDay]) = 1
  /\ streak (run [day1 + msPerDay; day1]) = 1.
Proof. vm_compute. repeat split. Qed.

(** C2 fails on the code where a calendar day is not 24 hours long.  On a
    host in New York an activity on 10 March 2024, the day daylight saving
    time starts, and one on 11 March are one calendar day apart, yet the
    two local midnights are 23 hours apart, the code counts 0 days, and
    the second call is taken for a same-day call: the streak stays 1 and
    the recorded date stays 10 March. *)
Theorem recordActivity_short_day :
  let s1 := fst (recordActivity newYork2024 (Some noonMarch10)
                                (UserProgress.new "u") (fun _ => 0) 0%nat) in
  let s2 := fst (recordActivity newYork2024 (Some noonMarch11) s1
                                (fun _ => 0) 0%nat) in
  localDay newYork2024 noonMarch11 = localDay newYork2024 noonMarch10 + 1
  /\ stripTime newYork2024 noonMarch11 - stripTime newYork2024 noonMarch10
     = 23 * msPerHour
  /\ streak s1 = 1
  /\ streak s2 = 1
  /\ lastActivityDate s2 = Some (stripTime newYork2024 noonMarch10).
Proof. vm_compute. repeat split. Qed.

End ProgressFacts.

(** ** The edit distance *)

Section LevenshteinFacts.
Import QuestionEngine QuestionEngine.TranslationQuestion Notions.

Lemma fillRow_length c2 str1 :
  forall above left,
    List.length above = S (String.length str1) ->
    List.length (fillRow c2 str1 above left) = String.length str1.
Proof.
  induction str1 as [| c1 rest IH]; intros above left Hlen.
  - reflexivity.
  - destruct above as [| diag [| up above']]; simpl in Hlen; try lia.
    simpl. f_equal. apply IH. simpl. lia.
Qed.

(** A cell past the first column, from the cells around it. *)
Lemma fillRow_nth c2 str1 :
  forall above left j c1,
    String.get j str1 = Some c1 ->
    List.length above = S (String.length str1) ->
    nth (S j) (left :: fillRow c2 str1 above left) 0
    = if Ascii.eqb c2 c1 then nth j above 0
      else Z.min (Z.min (nth j above 0 + 1)
                        (nth j (left :: fillRow c2 str1 above left) 0 + 1))
                 (nth (S j) above 0 + 1).
Proof.
  induction str1 as [| c1' rest IH]; intros above left j c1 Hget Hlen.
  - destruct j; discriminate Hget.
  - destruct above as [| diag [| up above']]; simpl in Hlen; try lia.
    destruct j as [| j].
    + simpl in Hget. injection Hget as ->. reflexivity.
    + simpl in Hget.
      change (fillRow c2 (String c1' rest) (diag :: up :: above') left)
        with (let cell0 := if Ascii.eqb c2 c1' then diag
                           else Z.min (Z.min (diag + 1) (left + 1)) (up + 1) in
              cell0 :: fillRow c2 rest (up :: above') cell0).
      cbv zeta.
      set (cell0 := if Ascii.eqb c2 c1' then diag
                    else Z.min (Z.min (diag + 1) (left + 1)) (up + 1)).
      change (nth (S (S j)) (left :: cell0 :: fillRow c2 rest (up :: above') cell0) 0)
        with (nth (S j) (cell0 :: fillRow c2 rest (up :: above') cell0) 0).
      change (nth (S j) (left :: cell0 :: fillRow c2 rest (up :: above') cell0) 0)
        with (nth j (cell0 :: fillRow c2 rest (up :: above') cell0) 0).
      change (nth (S j) (diag :: up :: above') 0) with (nth j (up :: above') 0).
      change (nth (S (S j)) (diag :: up :: above') 0)
        with (nth (S j) (up :: above') 0).
      apply IH; [exact Hget | simpl; lia].
Qed.

(** Row [i + 1], from row [i] and the code unit [str2.charAt(i)]. *)
Lemma fillRows_nth str1 str2 :
  forall k above i c2,
    String.get i str2 = Some c2 ->
    nth (S i) (above :: fillRows str1 str2 k above) []
    = (k + Z.of_nat i)
        :: fillRow c2 str1 (nth i (above :: fillRows str1 str2 k above) [])
                   (k + Z.of_nat i).
Proof.
  induction str2 as [| c rest IH]; intros k above i c2 Hget.
  - destruct i; discriminate Hget.
  - destruct i as [| i].
    + simpl in Hget. injection Hget as ->. simpl. now rewrite Z.add_0_r.
    + simpl in Hget. cbn [fillRows].
      set (row := k :: fillRow c str1 above k).
      change (nth (S (S i)) (above :: row :: fillRows str1 rest (k + 1) row) [])
        with (nth (S i) (row :: fillRows str1 rest (k + 1) row) []).
      change (nth (S i) (above :: row :: fillRows str1 rest (k + 1) row) [])
        with (nth i (row :: fillRows str1 rest (k + 1) row) []).
      rewrite (IH (k + 1) row i c2 Hget).
      replace (k + 1 + Z.of_nat i) with (k + Z.of_nat (S i)) by lia.
      reflexivity.
Qed.

Lemma firstRow_length len : List.length (firstRow len) = S len.
Proof. unfold firstRow. now rewrite length_map, length_seq. Qed.

Lemma firstRow_nth len j : (j <= len)%nat -> nth j (firstRow len) 0 = Z.of_nat j.
Proof.
  intros Hj. unfold firstRow.
  change 0 with (Z.of_nat 0). rewrite map_nth.
  rewrite seq_nth by lia. reflexivity.
Qed.

Lemma get_Some_lt s : forall i, (i < String.length s)%nat ->
  exists c, String.get i s = Some c.
Proof.
  induction s as [| c rest IH]; intros i Hi; simpl in Hi; [lia |].
  destruct i as [| i]; simpl; [eauto | apply IH; lia].
Qed.

Lemma row_length str1 str2 i :
  (i <= String.length str2)%nat ->
  List.length (nth i (buildMatrix str1 str2) []) = S (String.length str1).
Proof.
  unfold buildMatrix. induction i as [| i IH]; intros Hi.
  - simpl. apply firstRow_length.
  - destruct (@get_Some_lt str2 i ltac:(lia)) as [c2 Hc2].
    rewrite (@fillRows_nth str1 str2 1 _ i c2 Hc2).
    simpl. f_equal. apply fillRow_length. apply IH. lia.
Qed.

(** The three equations that define the matrix. *)
Lemma cell_row0 str1 str2 j :
  (j <= String.length str1)%nat -> cell str1 str2 0 j = Z.of_nat j.
Proof. intros Hj. unfold cell, buildMatrix. simpl. now apply firstRow_nth. Qed.

Lemma cell_col0 str1 str2 i :
  (i <= String.length str2)%nat -> cell str1 str2 i 0 = Z.of_nat i.
Proof.
  intros Hi. destruct i as [| i].
  - apply cell_row0. lia.
  - unfold cell, buildMatrix.
    destruct (@get_Some_lt str2 i ltac:(lia)) as [c2 Hc2].
    rewrite (@fillRows_nth str1 str2 1 _ i c2 Hc2). cbn [nth]. lia.
Qed.

Lemma cell_step str1 str2 i j c1 c2 :
  String.get i str2 = Some c2 ->
  String.get j str1 = Some c1 ->
  cell str1 str2 (S i) (S j)
  = if Ascii.eqb c2 c1 then cell str1 str2 i j
    else Z.min (Z.min (cell str1 str2 i j + 1) (cell str1 str2 (S i) j + 1))
               (cell str1 str2 i (S j) + 1).
Proof.
  intros Hc2 Hc1. unfold cell, buildMatrix.
  rewrite (@fillRows_nth str1 str2 1 _ i c2 Hc2).
  apply fillRow_nth; [exact Hc1 |].
  apply (@row_length str1 str2 i).
  assert (i < String.length str2)%nat; [| lia].
  clear - Hc2. revert i Hc2.
  induction str2 as [| c rest IH]; intros i Hget; destruct i; simpl in *;
    try discriminate; try lia.
  specialize (IH i Hget). lia.
Qed.

Lemma levenshteinDistance_cell str1 str2 :
  levenshteinDistance str1 str2
  = cell str1 str2 (String.length str2) (String.length str1).
Proof. reflexivity. Qed.

End LevenshteinFacts.

Section LevenshteinProperties.
Import QuestionEngine QuestionEngine.TranslationQuestion Notions.

(** Induction over the cells in the order the two loops fill them. *)
Lemma cell_induction (len1 len2 : nat) (P : nat -> nat -> Prop) :
  (forall j, (j <= len1)%nat -> P 0%nat j) ->
  (forall i, (i <= len2)%nat -> P i 0%nat) ->
  (forall i j, (i < len2)%nat -> (j < len1)%nat ->
               P i j -> P (S i) j -> P i (S j) -> P (S i) (S j)) ->
  forall i j, (i <= len2)%nat -> (j <= len1)%nat -> P i j.
Proof.
  intros Hrow Hcol Hstep. induction i as [| i IHi]; intros j Hi Hj.
  - now apply Hrow.
  - induction j as [| j IHj].
    + now apply Hcol.
    + apply Hstep; try lia.
      * apply IHi; lia.
      * apply IHj; lia.
      * apply IHi; lia.
Qed.

Lemma cell_bounds str1 str2 i j :
  (i <= String.length str2)%nat -> (j <= String.length str1)%nat ->
  Z.abs (Z.of_nat i - Z.of_nat j) <= cell str1 str2 i j
    <= Z.max (Z.of_nat i) (Z.of_nat j).
Proof.
  revert i j.
  apply (@cell_induction (String.length str1) (String.length str2)).
  - intros j Hj. rewrite cell_row0 by exact Hj. lia.
  - intros i Hi. rewrite cell_col0 by exact Hi. lia.
  - intros i j Hi Hj Hd Hl Hu.
    destruct (@get_Some_lt str2 i Hi) as [c2 Hc2].
    destruct (@get_Some_lt str1 j Hj) as [c1 Hc1].
    rewrite (@cell_step str1 str2 i j c1 c2 Hc2 Hc1). destruct (Ascii.eqb c2 c1); lia.
Qed.

(** Empty input: the distance to or from the empty string is the length
    of the other string. *)
Theorem levenshteinDistance_empty (s : string) :
  levenshteinDistance s EmptyString = Z.of_nat (String.length s)
  /\ levenshteinDistance EmptyString s = Z.of_nat (String.length s).
Proof.
  rewrite !levenshteinDistance_cell. split.
  - apply cell_row0. simpl. lia.
  - apply cell_col0. simpl. lia.
Qed.

(** The distance lies between the difference of the two lengths and the
    greater of them. *)
Theorem levenshteinDistance_bounds (str1 str2 : string) :
  Z.abs (Z.of_nat (String.length str1) - Z.of_nat (String.length str2))
    <= levenshteinDistance str1 str2
    <= Z.max (Z.of_nat (String.length str1)) (Z.of_nat (String.length str2)).
Proof.
  rewrite levenshteinDistance_cell.
  pose proof (@cell_bounds str1 str2 (String.length str2) (String.length str1)
                           ltac:(lia) ltac:(lia)).
  lia.
Qed.

Lemma cell_symmetric str1 str2 i j :
  (i <= String.length str2)%nat -> (j <= String.length str1)%nat ->
  cell str1 str2 i j = cell str2 str1 j i.
Proof.
  revert i j.
  apply (@cell_induction (String.length str1) (String.length str2)).
  - intros j Hj. rewrite cell_row0, cell_col0 by exact Hj. reflexivity.
  - intros i Hi. rewrite cell_row0, cell_col0 by exact Hi. reflexivity.
  - intros i j Hi Hj Hd Hl Hu.
    destruct (@get_Some_lt str2 i Hi) as [c2 Hc2].
    destruct (@get_Some_lt str1 j Hj) as [c1 Hc1].
    rewrite (@cell_step str1 str2 i j c1 c2 Hc2 Hc1),
      (@cell_step str2 str1 j i c2 c1 Hc1 Hc2).
    rewrite Hd, Hl, Hu.
    destruct (Ascii.eqb_spec c2 c1) as [-> | Hne].
    + now rewrite Ascii.eqb_refl.
    + destruct (Ascii.eqb_spec c1 c2) as [-> | _]; [congruence | lia].
Qed.

(** The distance does not depend on the order of its arguments. *)
Theorem levenshteinDistance_symmetric (str1 str2 : string) :
  levenshteinDistance str1 str2 = levenshteinDistance str2 str1.
Proof.
  rewrite !levenshteinDistance_cell. apply cell_symmetric; lia.
Qed.

Lemma cell_zero str1 str2 i j :
  (i <= String.length str2)%nat -> (j <= String.length str1)%nat ->
  cell str1 str2 i j = 0 ->
  i = j /\ forall k, (k < i)%nat -> String.get k str2 = String.get k str1.
Proof.
  revert i j.
  apply (@cell_induction (String.length str1) (String.length str2)
           (fun i j => cell str1 str2 i j = 0 ->
                       i = j /\ forall k, (k < i)%nat ->
                                          String.get k str2 = String.get k str1)).
  - intros j Hj. rewrite cell_row0 by exact Hj. intros H0.
    split; [lia | intros k Hk; lia].
  - intros i Hi. rewrite cell_col0 by exact Hi. intros H0.
    split; [lia | intros k Hk; lia].
  - intros i j Hi Hj Hd Hl Hu.
    destruct (@get_Some_lt str2 i Hi) as [c2 Hc2].
    destruct (@get_Some_lt str1 j Hj) as [c1 Hc1].
    rewrite (@cell_step str1 str2 i j c1 c2 Hc2 Hc1).
    pose proof (@cell_bounds str1 str2 i j ltac:(lia) ltac:(lia)).
    pose proof (@cell_bounds str1 str2 (S i) j ltac:(lia) ltac:(lia)).
    pose proof (@cell_bounds str1 str2 i (S j) ltac:(lia) ltac:(lia)).
    destruct (Ascii.eqb_spec c2 c1) as [-> | Hne]; [| lia].
    intros Hzero. destruct (Hd Hzero) as [-> Hprefix]. split; [reflexivity |].
    intros k Hk. destruct (Nat.eq_dec k j) as [-> | Hkj].
    + congruence.
    + apply Hprefix. lia.
Qed.

Lemma string_ext : forall s1 s2,
  String.length s1 = String.length s2 ->
  (forall k, (k < String.length s1)%nat -> String.get k s1 = String.get k s2) ->
  s1 = s2.
Proof.
  induction s1 as [| c1 r1 IH]; intros [| c2 r2] Hlen Hget;
    simpl in Hlen; try lia; [reflexivity |].
  f_equal.
  - specialize (Hget 0%nat ltac:(simpl; lia)). simpl in Hget. congruence.
  - apply IH; [lia |]. intros k Hk.
    apply (Hget (S k)). simpl. lia.
Qed.

Lemma cell_diagonal s i :
  (i <= String.length s)%nat -> cell s s i i = 0.
Proof.
  induction i as [| i IH]; intros Hi.
  - now rewrite cell_row0 by lia.
  - destruct (@get_Some_lt s i Hi) as [c Hc].
    rewrite (@cell_step s s i i c c Hc Hc), Ascii.eqb_refl. apply IH. lia.
Qed.

(** The distance is 0 for equal strings and for no others. *)
Theorem levenshteinDistance_zero_iff (str1 str2 : string) :
  levenshteinDistance str1 str2 = 0 <-> str1 = str2.
Proof.
  rewrite levenshteinDistance_cell. split.
  - intros H0. apply cell_zero in H0; try lia.
    destruct H0 as [Hlen Hget]. apply string_ext; [congruence |].
    intros k Hk. symmetry. apply Hget. lia.
  - intros ->. apply cell_diagonal. lia.
Qed.

End LevenshteinProperties.

(** ** The edit distance of the specification *)

Section EditDistanceFacts.
Import EditDistance.

Lemma append_nil_r (s : string) : s ++ EmptyString = s.
Proof. induction s as [| c s IH]; simpl; [reflexivity | now rewrite IH]. Qed.

Lemma append_assoc (a b c : string) : (a ++ b) ++ c = a ++ (b ++ c).
Proof. induction a as [| x a IH]; simpl; [reflexivity | now rewrite IH]. Qed.

Lemma length_snoc (s : string) c :
  String.length (s ++ String c EmptyString) = S (String.length s).
Proof. induction s as [| x s IH]; simpl; [reflexivity | now rewrite IH]. Qed.

Lemma snoc_inj (a b : string) c d :
  a ++ String c EmptyString = b ++ String d EmptyString -> a = b /\ c = d.
Proof.
  revert b. induction a as [| x a IH]; intros [| y b]; simpl; intros H.
  - injection H as ->. split; reflexivity.
  - injection H as -> H. destruct b; discriminate.
  - injection H as -> H. destruct a; discriminate.
  - injection H as -> H. destruct (IH b H) as [-> ->]. split; reflexivity.
Qed.

Lemma snoc_not_empty (a : string) c : a ++ String c EmptyString <> EmptyString.
Proof. destruct a; discriminate. Qed.

(** *** Edits at the end of a string *)

Lemma edit_append a b s : edit a b -> edit (a ++ s) (b ++ s).
Proof.
  induction 1 as [c a | c a | c c' a Hc | c a b H IH]; simpl.
  - apply edit_insert.
  - apply edit_delete.
  - now apply edit_substitute.
  - now apply edit_further.
Qed.

Lemma edit_insert_last s c : edit s (s ++ String c EmptyString).
Proof.
  induction s as [| x s IH]; simpl; [apply edit_insert | now apply edit_further].
Qed.

Lemma edit_delete_last s c : edit (s ++ String c EmptyString) s.
Proof.
  induction s as [| x s IH]; simpl; [apply edit_delete | now apply edit_further].
Qed.

Lemma edit_substitute_last s c c' :
  c <> c' -> edit (s ++ String c EmptyString) (s ++ String c' EmptyString).
Proof.
  intros Hc. induction s as [| x s IH]; simpl;
    [now apply edit_substitute | now apply edit_further].
Qed.

Lemma edits_append n a b s : edits n a b -> edits n (a ++ s) (b ++ s).
Proof.
  induction 1 as [a | n a b c H IH He]; [apply edits_none |].
  apply edits_more with (b := b ++ s); [exact IH | now apply edit_append].
Qed.

Lemma edits_first n a b c : edit a b -> edits n b c -> edits (S n) a c.
Proof.
  intros Hab H. induction H as [b | n b c d H IH He].
  - apply edits_more with (b := a); [apply edits_none | exact Hab].
  - apply edits_more with (b := c); [now apply IH | exact He].
Qed.

(** An alignment is a run of edits. *)
Lemma aligned_edits n a b : aligned n a b -> edits n a b.
Proof.
  induction 1 as [| c a b n H IH | c c' a b n Hc H IH | c a b n H IH
                  | c a b n H IH].
  - apply edits_none.
  - now apply edits_append.
  - apply edits_more with (b := b ++ String c EmptyString).
    + now apply edits_append.
    + now apply edit_substitute_last.
  - apply edits_first with (b := a); [apply edit_delete_last | exact IH].
  - apply edits_more with (b := b); [exact IH | apply edit_insert_last].
Qed.

(** Where an edit of a string with a last character happens: after it, at
    it, or before it. *)
Lemma edit_empty_inv c : edit EmptyString c -> exists y, c = String y EmptyString.
Proof. intros H. inversion H; subst. eauto. Qed.

Lemma edit_snoc_inv b x c :
  edit (b ++ String x EmptyString) c ->
  (exists y, c = (b ++ String x EmptyString) ++ String y EmptyString)
  \/ c = b
  \/ (exists y, x <> y /\ c = b ++ String y EmptyString)
  \/ (exists c', c = c' ++ String x EmptyString /\ edit b c').
Proof.
  revert c. induction b as [| z b IH]; simpl; intros c H.
  - inversion H as [y s | y s | y y' s Hy | y s s' Hs]; subst.
    + right. right. right. exists (String y EmptyString).
      split; [reflexivity | apply edit_insert].
    + right. now left.
    + right. right. left. exists y'. split; [exact Hy | reflexivity].
    + destruct (edit_empty_inv Hs) as [y ->]. left. now exists y.
  - inversion H as [y s | y s | y y' s Hy | y s s' Hs]; subst.
    + right. right. right. exists (String y (String z b)).
      split; [reflexivity | apply edit_insert].
    + right. right. right. exists b. split; [reflexivity | apply edit_delete].
    + right. right. right. exists (String y' b).
      split; [reflexivity | now apply edit_substitute].
    + destruct (IH _ Hs) as [[y ->] | [-> | [[y [Hy ->]] | [c' [-> He]]]]].
      * left. now exists y.
      * right. now left.
      * right. right. left. exists y. split; [exact Hy | reflexivity].
      * right. right. right. exists (String z c').
        split; [reflexivity | now apply edit_further].
Qed.

(** One more edit after an alignment costs at most one more. *)
Lemma aligned_edit n a b :
  aligned n a b ->
  forall c, edit b c -> exists m, (m <= S n)%nat /\ aligned m a c.
Proof.
  induction 1 as [| x a b n H IH | x x' a b n Hx H IH | x a b n H IH
                  | x a b n H IH]; intros c He.
  - destruct (edit_empty_inv He) as [y ->]. exists 1%nat. split; [lia |].
    apply (@aligned_insert y EmptyString EmptyString 0). apply aligned_done.
  - destruct (edit_snoc_inv _ _ He)
      as [[y ->] | [-> | [[y [Hy ->]] | [c' [-> He']]]]].
    + exists (S n). split; [lia |]. apply aligned_insert. now apply aligned_keep.
    + exists (S n). split; [lia |]. now apply aligned_delete.
    + exists (S n). split; [lia |]. now apply aligned_substitute.
    + destruct (IH _ He') as [m [Hm Hal]]. exists m. split; [lia |].
      now apply aligned_keep.
  - destruct (edit_snoc_inv _ _ He)
      as [[y ->] | [-> | [[y [Hy ->]] | [c' [-> He']]]]].
    + exists (S (S n)). split; [lia |]. apply aligned_insert.
      now apply aligned_substitute.
    + exists (S n). split; [lia |]. now apply aligned_delete.
    + destruct (Ascii.eqb_spec x y) as [-> | Hxy].
      * exists n. split; [lia |]. now apply aligned_keep.
      * exists (S n). split; [lia |]. now apply aligned_substitute.
    + destruct (IH _ He') as [m [Hm Hal]]. exists (S m). split; [lia |].
      now apply aligned_substitute.
  - destruct (IH _ He) as [m [Hm Hal]]. exists (S m). split; [lia |].
    now apply aligned_delete.
  - destruct (edit_snoc_inv _ _ He)
      as [[y ->] | [-> | [[y [Hy ->]] | [c' [-> He']]]]].
    + exists (S (S n)). split; [lia |]. apply aligned_insert.
      now apply aligned_insert.
    + exists n. split; [lia | exact H].
    + exists (S n). split; [lia |]. now apply aligned_insert.
    + destruct (IH _ He') as [m [Hm Hal]]. exists (S m). split; [lia |].
      now apply aligned_insert.
Qed.

Lemma aligned_refl s : aligned 0 s s.
Proof.
  assert (H : forall n s, String.length s = n -> aligned 0 s s).
  { induction n as [| n IH]; intros t Ht.
    - destruct t; [apply aligned_done | discriminate].
    - assert (Hex : exists t' c, t = t' ++ String c EmptyString).
      { clear - Ht. revert n Ht. induction t as [| x t IHt]; intros n Ht;
          [discriminate |].
        destruct t as [| y t].
        - exists EmptyString, x. reflexivity.
        - destruct (IHt (String.length t) eq_refl) as [t' [c E]].
          exists (String x t'), c. simpl. now rewrite <- E. }
      destruct Hex as [t' [c ->]]. apply aligned_keep. apply IH.
      rewrite length_snoc in Ht. lia. }
  now apply (H (String.length s)).
Qed.

(** A run of edits is an alignment that costs no more. *)
Lemma edits_aligned n a b :
  edits n a b -> exists m, (m <= n)%nat /\ aligned m a b.
Proof.
  induction 1 as [a | n a b c H IH He].
  - exists 0%nat. split; [lia | apply aligned_refl].
  - destruct IH as [m [Hm Hal]].
    destruct (aligned_edit Hal He) as [m' [Hm' Hal']].
    exists m'. split; [lia | exact Hal'].
Qed.

Lemma aligned_sym n a b : aligned n a b -> aligned n b a.
Proof.
  induction 1 as [| x a b n H IH | x x' a b n Hx H IH | x a b n H IH
                  | x a b n H IH].
  - apply aligned_done.
  - now apply aligned_keep.
  - apply aligned_substitute; [congruence | exact IH].
  - now apply aligned_insert.
  - now apply aligned_delete.
Qed.

Lemma aligned_drop_r n a b c :
  aligned n a (b ++ String c EmptyString) ->
  exists m, (m <= S n)%nat /\ aligned m a b.
Proof. intros H. exact (aligned_edit H (edit_delete_last b c)). Qed.

Lemma aligned_drop_l n a b c :
  aligned n (a ++ String c EmptyString) b ->
  exists m, (m <= S n)%nat /\ aligned m a b.
Proof.
  intros H. apply aligned_sym in H.
  destruct (@aligned_drop_r _ _ _ _ H) as [m [Hm Hal]].
  exists m. split; [exact Hm | now apply aligned_sym].
Qed.

Lemma aligned_length n a b :
  aligned n a b ->
  (String.length a <= String.length b + n
   /\ String.length b <= String.length a + n)%nat.
Proof.
  induction 1 as [| x a b n H IH | x x' a b n Hx H IH | x a b n H IH
                  | x a b n H IH]; rewrite ?length_snoc; simpl; lia.
Qed.

End EditDistanceFacts.

(** ** The matrix computes the edit distance *)

Section MatrixRefinement.
Import EditDistance QuestionEngine QuestionEngine.TranslationQuestion Vocabulary Notions.

Lemma substring_0_0 s : substring 0 0 s = EmptyString.
Proof. now destruct s. Qed.

Lemma substring_snoc s : forall j c,
  String.get j s = Some c ->
  substring 0 (S j) s = substring 0 j s ++ String c EmptyString.
Proof.
  induction s as [| x s IH]; intros j c Hget; [destruct j; discriminate |].
  destruct j as [| j].
  - simpl in Hget. injection Hget as ->. simpl. now rewrite substring_0_0.
  - simpl in Hget. change (substring 0 (S (S j)) (String x s))
      with (String x (substring 0 (S j) s)).
    rewrite (IH j c Hget). reflexivity.
Qed.

Lemma substring_full s : substring 0 (String.length s) s = s.
Proof. induction s as [| x s IH]; simpl; [reflexivity | now rewrite IH]. Qed.

Lemma substring_length s : forall j,
  (j <= String.length s)%nat -> String.length (substring 0 j s) = j.
Proof.
  induction s as [| x s IH]; intros [| j] Hj; simpl in *;
    try reflexivity; try lia.
  now rewrite IH by lia.
Qed.

(** Each cell of the matrix is the cost of an alignment of the two
    prefixes it stands for, and no alignment of them costs less. *)
Lemma cell_aligned str1 str2 i j :
  (i <= String.length str2)%nat -> (j <= String.length str1)%nat ->
  aligned (Z.to_nat (cell str1 str2 i j))
          (substring 0 j str1) (substring 0 i str2)
  /\ forall n, aligned n (substring 0 j str1) (substring 0 i str2) ->
               cell str1 str2 i j <= Z.of_nat n.
Proof.
  revert i j.
  apply (@cell_induction (String.length str1) (String.length str2)
           (fun i j =>
              aligned (Z.to_nat (cell str1 str2 i j))
                      (substring 0 j str1) (substring 0 i str2)
              /\ forall n, aligned n (substring 0 j str1) (substring 0 i str2) ->
                           cell str1 str2 i j <= Z.of_nat n)).
  - intros j Hj. rewrite cell_row0 by exact Hj. rewrite Nat2Z.id.
    rewrite substring_0_0. split.
    + induction j as [| j IH].
      * rewrite substring_0_0. apply aligned_done.
      * destruct (@get_Some_lt str1 j Hj) as [c Hc].
        rewrite (substring_snoc _ _ Hc). apply aligned_delete. apply IH. lia.
    + intros n H. apply aligned_length in H.
      rewrite substring_length in H by exact Hj. simpl in H. lia.
  - intros i Hi. rewrite cell_col0 by exact Hi. rewrite Nat2Z.id.
    rewrite substring_0_0. split.
    + induction i as [| i IH].
      * rewrite substring_0_0. apply aligned_done.
      * destruct (@get_Some_lt str2 i Hi) as [c Hc].
        rewrite (substring_snoc _ _ Hc). apply aligned_insert. apply IH. lia.
    + intros n H. apply aligned_length in H.
      rewrite substring_length in H by exact Hi. simpl in H. lia.
  - intros i j Hi Hj [Hd Hdmin] [Hl Hlmin] [Hu Humin].
    destruct (@get_Some_lt str2 i Hi) as [c2 Hc2].
    destruct (@get_Some_lt str1 j Hj) as [c1 Hc1].
    rewrite (@cell_step str1 str2 i j c1 c2 Hc2 Hc1).
    pose proof (@cell_bounds str1 str2 i j ltac:(lia) ltac:(lia)) as Bd.
    pose proof (@cell_bounds str1 str2 (S i) j ltac:(lia) ltac:(lia)) as Bl.
    pose proof (@cell_bounds str1 str2 i (S j) ltac:(lia) ltac:(lia)) as Bu.
    rewrite (substring_snoc _ _ Hc1), (substring_snoc _ _ Hc2).
    rewrite (substring_snoc _ _ Hc2) in Hl, Hlmin.
    rewrite (substring_snoc _ _ Hc1) in Hu, Humin.
    set (a := substring 0 j str1) in *. set (b := substring 0 i str2) in *.
    set (d := cell str1 str2 i j) in *.
    set (l := cell str1 str2 (S i) j) in *.
    set (u := cell str1 str2 i (S j)) in *.
    clearbody a b d l u.
    split.
    + destruct (Ascii.eqb_spec c2 c1) as [-> | Hne].
      * now apply aligned_keep.
      * destruct (Z.min_spec (Z.min (d + 1) (l + 1)) (u + 1)) as [[_ ->] | [_ ->]].
        -- destruct (Z.min_spec (d + 1) (l + 1)) as [[_ ->] | [_ ->]].
           ++ replace (Z.to_nat (d + 1)) with (S (Z.to_nat d)) by lia.
              apply aligned_substitute; [congruence | exact Hd].
           ++ replace (Z.to_nat (l + 1)) with (S (Z.to_nat l)) by lia.
              now apply aligned_delete.
        -- replace (Z.to_nat (u + 1)) with (S (Z.to_nat u)) by lia.
           now apply aligned_insert.
    + intros n H.
      assert (Hcases :
                (c1 = c2 /\ aligned n a b)
                \/ (exists n', n = S n' /\ aligned n' a b)
                \/ (exists n', n = S n'
                               /\ aligned n' a (b ++ String c2 EmptyString))
                \/ (exists n', n = S n'
                               /\ aligned n' (a ++ String c1 EmptyString) b)).
      { inversion H as [| x a' b' n' H' | x x' a' b' n' Hx H'
                        | x a' b' n' H' | x a' b' n' H'];
          repeat match goal with
                 | E : _ ++ String _ EmptyString = _ ++ String _ EmptyString
                   |- _ => apply snoc_inj in E; destruct E as [? ?]
                 | E : EmptyString = _ ++ String _ EmptyString |- _ =>
                     symmetry in E; apply snoc_not_empty in E; destruct E
                 end; subst.
        - now left.
        - right. left. eauto.
        - right. right. left. eauto.
        - right. right. right. eauto. }
      destruct Hcases as [[-> Hk] | [[n' [-> Hs]] | [[n' [-> Hdel]] | [n' [-> Hins]]]]].
      * rewrite Ascii.eqb_refl. now apply Hdmin.
      * specialize (Hdmin _ Hs).
        destruct (Ascii.eqb c2 c1); lia.
      * specialize (Hlmin _ Hdel).
        destruct (Ascii.eqb c2 c1); [| lia].
        destruct (@aligned_drop_r _ _ _ _ Hdel) as [m [Hm Hal]].
        specialize (Hdmin _ Hal). lia.
      * specialize (Humin _ Hins).
        destruct (Ascii.eqb c2 c1); [| lia].
        destruct (@aligned_drop_l _ _ _ _ Hins) as [m [Hm Hal]].
        specialize (Hdmin _ Hal). lia.
Qed.

(** [levenshteinDistance] computes the edit distance of the
    specification. *)
Lemma levenshteinDistance_editDistance (str1 str2 : string) :
  0 <= levenshteinDistance str1 str2
  /\ editDistance str1 str2 (Z.to_nat (levenshteinDistance str1 str2)).
Proof.
  rewrite levenshteinDistance_cell.
  pose proof (@cell_bounds str1 str2 (String.length str2) (String.length str1)
                ltac:(lia) ltac:(lia)) as Hb.
  split; [lia |].
  destruct (@cell_aligned str1 str2 (String.length str2) (String.length str1)
              ltac:(lia) ltac:(lia)) as [Hal Hmin].
  rewrite !substring_full in Hal, Hmin.
  split.
  - now apply aligned_edits.
  - intros n Hn. destruct (edits_aligned Hn) as [m [Hm Hm']].
    specialize (Hmin _ Hm'). lia.
Qed.

Lemma editDistance_unique a b d d' :
  editDistance a b d -> editDistance a b d' -> d = d'.
Proof.
  intros [H1 M1] [H2 M2]. specialize (M1 _ H2). specialize (M2 _ H1). lia.
Qed.

End MatrixRefinement.

(** ** The translation check (C4) *)

Section TranslationRefinement.
Import EditDistance.
Import JsString QuestionEngine QuestionEngine.TranslationQuestion Vocabulary Notions.

(** On two different strings [calculateSimilarity] is the similarity of
    the specification. *)
Lemma calculateSimilarity_similarity (str1 str2 : string) (d : nat) :
  str1 <> str2 -> editDistance str1 str2 d ->
  calculateSimilarity str1 str2 = similarity str1 str2 d.
Proof.
  intros Hne Hd.
  destruct (levenshteinDistance_editDistance str1 str2) as [H0 Hlev].
  rewrite (editDistance_unique Hd Hlev).
  unfold calculateSimilarity, similarity.
  apply String.eqb_neq in Hne. rewrite Hne.
  rewrite Z2Nat.id by exact H0. rewrite Nat2Z.inj_max.
  replace (Z.of_nat (String.length str1) =? 0)
    with (String.length str1 =? 0)%nat
    by (destruct (String.length str1); reflexivity).
  replace (Z.of_nat (String.length str2) =? 0)
    with (String.length str2 =? 0)%nat
    by (destruct (String.length str2); reflexivity).
  reflexivity.
Qed.

Lemma isFuzzyMatch_similar (str1 str2 : string) :
  str1 <> str2 -> (isFuzzyMatch str1 str2 = true <-> similar str1 str2).
Proof.
  intros Hne. unfold isFuzzyMatch, similar.
  destruct (levenshteinDistance_editDistance str1 str2) as [_ Hlev].
  split.
  - intros H. exists (Z.to_nat (levenshteinDistance str1 str2)).
    split; [exact Hlev |].
    now rewrite <- (calculateSimilarity_similarity Hne Hlev).
  - intros [d [Hd H]]. now rewrite (calculateSimilarity_similarity Hne Hd).
Qed.

Lemma matches_agrees normalized accepted :
  matches normalized accepted = true <-> agrees normalized accepted.
Proof.
  unfold matches, exactly, fuzzily, agrees.
  fold (isFuzzyMatch normalized (normalizeText accepted)).
  destruct (String.eqb_spec normalized (normalizeText accepted)) as [E | Hne].
  - split; [now left | reflexivity].
  - cbn [orb]. rewrite (isFuzzyMatch_similar Hne). split; [now right |].
    intros [E | H]; [contradiction | exact H].
Qed.

Lemma matches_false_agrees normalized accepted :
  matches normalized accepted = false <-> ~ agrees normalized accepted.
Proof.
  rewrite <- matches_agrees. destruct (matches normalized accepted);
    split; congruence.
Qed.

Lemma threshold_table :
  forallb (fun len => forallb (thresholdOk len) (seq 0 (S len)))
          (seq 1 200) = true.
Proof. vm_compute. reflexivity. Qed.

(** For strings of up to 200 code units the binary64 test is the exact
    one: two strings, neither empty, are similar exactly when 20 times
    their edit distance is at most 3 times the greater length. *)
Lemma similar_exact (str1 str2 : string) :
  (String.length str1 <= 200)%nat -> (String.length str2 <= 200)%nat ->
  (similar str1 str2 <->
   str1 <> EmptyString /\ str2 <> EmptyString
   /\ exists d, editDistance str1 str2 d
                /\ (20 * d <= 3 * Nat.max (String.length str1)
                                          (String.length str2))%nat).
Proof.
  intros H1 H2.
  destruct (levenshteinDistance_editDistance str1 str2) as [H0 Hlev].
  pose proof (@cell_bounds str1 str2 (String.length str2) (String.length str1)
                ltac:(lia) ltac:(lia)) as Hb.
  rewrite <- levenshteinDistance_cell in Hb.
  set (d0 := Z.to_nat (levenshteinDistance str1 str2)) in *.
  set (len := Nat.max (String.length str1) (String.length str2)).
  assert (Hd0 : (d0 <= len)%nat) by (subst d0 len; lia).
  assert (Htest : (1 <= len)%nat ->
                  JsNumber.geb
                    (1 - JsNumber.of_Z (Z.of_nat d0)
                         / JsNumber.of_Z (Z.of_nat len))%float
                    JsNumber.lit_0_85 = true
                  <-> (20 * d0 <= 3 * len)%nat).
  { intros Hlen. pose proof threshold_table as H.
    rewrite forallb_forall in H.
    specialize (H len ltac:(apply in_seq; subst len; lia)).
    rewrite forallb_forall in H.
    specialize (H d0 ltac:(apply in_seq; lia)).
    unfold thresholdOk in H. apply Bool.eqb_prop in H. rewrite H.
    rewrite Z.leb_le. lia. }
  unfold similar, similarity. fold len.
  destruct str1 as [| c1 r1]; [| destruct str2 as [| c2 r2]].
  - cbn [String.length Nat.eqb orb]. split.
    + intros [d [_ H]]. vm_compute in H. discriminate H.
    + intros [H _]. congruence.
  - cbn [String.length Nat.eqb orb]. split.
    + intros [d [_ H]]. vm_compute in H. discriminate H.
    + intros [_ [H _]]. congruence.
  - cbn [String.length Nat.eqb orb].
    assert (Hlen : (1 <= len)%nat) by (subst len; simpl; lia).
    split.
    + intros [d [Hd H]]. split; [discriminate |]. split; [discriminate |].
      exists d. split; [exact Hd |].
      rewrite (editDistance_unique Hd Hlev). fold d0.
      rewrite (editDistance_unique Hd Hlev) in H. fold d0 in H.
      now apply Htest.
    + intros [_ [_ [d [Hd H]]]]. exists d. split; [exact Hd |].
      rewrite (editDistance_unique Hd Hlev). fold d0.
      rewrite (editDistance_unique Hd Hlev) in H. fold d0 in H.
      now apply Htest.
Qed.

Example editDistance_kitten_sitting : editDistance "kitten" "sitting" 3.
Proof. exact (proj2 (levenshteinDistance_editDistance "kitten" "sitting")). Qed.

(** C4: the translation check judges an answer correct exactly when some
    accepted translation agrees with it: both sides normalized, the two
    are equal, or their similarity (1 less the edit distance, the least
    number of single-character insertions, deletions and substitutions
    that turn one into the other, divided by the greater length) is at
    least 0.85.  The first accepted entry that agrees decides the result,
    exact when the two are equal and fuzzy otherwise; the fuzzy feedback
    contains "minor typo" and the exact one does not; when no entry
    agrees, the result carries 0 points and quotes the first accepted
    entry. *)
Theorem translation_checkAnswer_spec
  (q : TranslationQuestion.t) (answer : string) (isFirstTry : bool) :
  let accepted := TranslationQuestion.acceptedTranslations q in
  let normalized := TranslationQuestion.normalizeText answer in
  let r := TranslationQuestion.checkAnswer q answer isFirstTry in
  (isCorrect r = true <->
   exists a, In a accepted /\ agrees normalized a)
  /\ (forall pre a post,
        accepted = (pre ++ a :: post)%list ->
        (forall b, In b pre -> ~ agrees normalized b) ->
        agrees normalized a ->
        (normalized = TranslationQuestion.normalizeText a ->
         r = TranslationQuestion.exactResult q isFirstTry)
        /\ (normalized <> TranslationQuestion.normalizeText a ->
            r = TranslationQuestion.fuzzyResult q isFirstTry))
  /\ (includes (feedback (TranslationQuestion.fuzzyResult q isFirstTry))
               "minor typo" = true
      /\ includes (feedback (TranslationQuestion.exactResult q isFirstTry))
                  "minor typo" = false)
  /\ ((forall b, In b accepted -> ~ agrees normalized b) ->
      r = TranslationQuestion.failureResult q
      /\ isCorrect r = false
      /\ points r = 0
      /\ correctAnswer r = hd_error accepted
      /\ forall first rest,
          accepted = first :: rest ->
          feedback r = "Not quite. Expected: " ++ first).
Proof.
  intros accepted normalized r.
  assert (Hfail : (forall b, In b accepted -> ~ agrees normalized b) ->
                  r = TranslationQuestion.failureResult q).
  { intros H.
    assert (H' : forall b, In b accepted -> matches normalized b = false)
      by (intros b Hb; apply matches_false_agrees; now apply H).
    apply translation_scan_none with (q := q) (isFirstTry := isFirstTry) in H'.
    subst r. unfold TranslationQuestion.checkAnswer.
    fold normalized. fold accepted. now rewrite H'. }
  split; [split | split; [| split; [split |]]].
  - intros Hc. subst r. unfold TranslationQuestion.checkAnswer in Hc.
    fold normalized in Hc. fold accepted in Hc.
    destruct (TranslationQuestion.scan _ _ _ _) as [r |] eqn:E;
      [| discriminate].
    apply translation_scan_some in E. destruct E as [a [Ha Hm]].
    exists a. split; [exact Ha | now apply matches_agrees].
  - intros [a [Ha Hm]]. subst r. unfold TranslationQuestion.checkAnswer.
    fold normalized. fold accepted.
    destruct (TranslationQuestion.scan _ _ _ _) as [r |] eqn:E.
    + now apply translation_scan_points in E.
    + exfalso. rewrite translation_scan_none in E. specialize (E a Ha).
      apply matches_false_agrees in E. contradiction.
  - intros pre a post Hacc Hpre Ha.
    assert (Hr : r = if exactly normalized a
                     then TranslationQuestion.exactResult q isFirstTry
                     else TranslationQuestion.fuzzyResult q isFirstTry).
    { subst r. unfold TranslationQuestion.checkAnswer.
      fold normalized. fold accepted. rewrite Hacc.
      rewrite translation_scan_first; [reflexivity | | now apply matches_agrees].
      intros b Hb. apply matches_false_agrees. now apply Hpre. }
    unfold exactly in Hr.
    destruct (String.eqb_spec normalized (TranslationQuestion.normalizeText a));
      split; intros; congruence.
  - reflexivity.
  - reflexivity.
  - intros H. rewrite (Hfail H).
    unfold TranslationQuestion.failureResult. subst accepted.
    split; [reflexivity |]. split; [reflexivity |].
    split; [reflexivity |]. split; simpl.
    + now destruct (TranslationQuestion.acceptedTranslations q).
    + intros first rest Hacc. now rewrite Hacc.
Qed.

(** One substitution turns the answer into the first accepted entry: the
    answer is a fuzzy match of it. *)
Lemma translation_checkAnswer_spec_witness :
  TranslationQuestion.checkAnswer
    (TranslationQuestion.mk (mkQuestion "Translate" hard) "Good morning"
       ["buenos dias"; "buenas dias"])
    " Buenas Dias " true
  = TranslationQuestion.fuzzyResult
      (TranslationQuestion.mk (mkQuestion "Translate" hard) "Good morning"
         ["buenos dias"; "buenas dias"])
      true.
Proof.
  destruct (translation_checkAnswer_spec
              (TranslationQuestion.mk (mkQuestion "Translate" hard)
                 "Good morning" ["buenos dias"; "buenas dias"])
              " Buenas Dias " true) as [_ [Hfirst _]].
  apply (Hfirst [] "buenos dias" ["buenas dias"]).
  - reflexivity.
  - intros b [].
  - apply matches_agrees. vm_compute. reflexivity.
  - vm_compute. discriminate.
Defined.

End TranslationRefinement.

(** ** Normalization and the three checks *)

Section NormalizationFacts.
Import JsString QuestionEngine Vocabulary.

Lemma isWhite_lowerChar c : isWhite (lowerChar c) = isWhite c.
Proof.
  destruct c as [[] [] [] [] [] [] [] []]; vm_compute; reflexivity.
Qed.

Lemma toLowerCase_length s :
  String.length (toLowerCase s) = String.length s.
Proof. induction s as [| c r IH]; simpl; [reflexivity | now rewrite IH]. Qed.

Lemma trimStart_toLowerCase s :
  trimStart (toLowerCase s) = toLowerCase (trimStart s).
Proof.
  induction s as [| c r IH]; simpl; [reflexivity |].
  rewrite isWhite_lowerChar. now destruct (isWhite c).
Qed.

Lemma trimEnd_toLowerCase s :
  trimEnd (toLowerCase s) = toLowerCase (trimEnd s).
Proof.
  induction s as [| c r IH]; simpl; [reflexivity |].
  rewrite IH, isWhite_lowerChar.
  destruct (trimEnd r); simpl; [now destruct (isWhite c) | reflexivity].
Qed.

Lemma trim_toLowerCase s : trim (toLowerCase s) = toLowerCase (trim s).
Proof.
  unfold trim. now rewrite trimStart_toLowerCase, trimEnd_toLowerCase.
Qed.

Lemma trimEnd_cons c s :
  trimEnd (String c s)
  = match trimEnd s with
    | EmptyString => if isWhite c then EmptyString else String c EmptyString
    | t => String c t
    end.
Proof. reflexivity. Qed.

Lemma trimEnd_idempotent s : trimEnd (trimEnd s) = trimEnd s.
Proof.
  induction s as [| c r IH]; [reflexivity |].
  rewrite (trimEnd_cons c r).
  destruct (trimEnd r) as [| d t] eqn:E.
  - destruct (isWhite c) eqn:Ec; simpl; [reflexivity | now rewrite Ec].
  - rewrite (trimEnd_cons c (String d t)), IH. reflexivity.
Qed.

Lemma trimStart_clean s :
  match trimStart s with
  | EmptyString => True
  | String c _ => isWhite c = false
  end.
Proof.
  induction s as [| c r IH]; simpl; [exact I |].
  destruct (isWhite c) eqn:Ec; [exact IH | exact Ec].
Qed.

Lemma trimStart_trimEnd_clean s :
  match s with
  | EmptyString => True
  | String c _ => isWhite c = false
  end ->
  trimStart (trimEnd s) = trimEnd s.
Proof.
  destruct s as [| c r]; [reflexivity |]. intros Hc.
  rewrite trimEnd_cons.
  destruct (trimEnd r); rewrite ?Hc; simpl; rewrite Hc; reflexivity.
Qed.

Lemma trim_idempotent s : trim (trim s) = trim s.
Proof.
  unfold trim.
  rewrite (trimStart_trimEnd_clean (trimStart s) (trimStart_clean s)).
  apply trimEnd_idempotent.
Qed.

Lemma trimStart_length s :
  (String.length (trimStart s) <= String.length s)%nat
  /\ (String.length (trimStart s) = String.length s -> trimStart s = s).
Proof.
  induction s as [| c r [IHle IHeq]]; simpl; [split; [lia | reflexivity] |].
  destruct (isWhite c); simpl; split; try lia; try reflexivity.
Qed.

Lemma trimEnd_length s :
  (String.length (trimEnd s) <= String.length s)%nat
  /\ (String.length (trimEnd s) = String.length s -> trimEnd s = s).
Proof.
  induction s as [| c r [IHle IHeq]]; simpl; [split; [lia | reflexivity] |].
  destruct (trimEnd r) as [| d t] eqn:E.
  - destruct (isWhite c); simpl in *; split; try lia.
    intros Hlen. f_equal. apply IHeq. lia.
  - simpl in *. split; [lia |]. intros Hlen. f_equal. apply IHeq. lia.
Qed.

Lemma trim_same_length s :
  String.length (trim s) = String.length s -> trim s = s.
Proof.
  unfold trim. intros Hlen.
  destruct (trimStart_length s) as [Hs Hseq].
  destruct (trimEnd_length (trimStart s)) as [He Heeq].
  assert (Hstart : trimStart s = s) by (apply Hseq; lia).
  rewrite Heeq by lia. exact Hstart.
Qed.

(** A normalized answer can only equal the lower-cased form of a text
    without white space at either end. *)
Lemma normalized_eq_untrimmed answer accepted :
  toLowerCase (trim answer) = toLowerCase accepted -> trim accepted = accepted.
Proof.
  intros H. apply trim_same_length.
  rewrite <- (toLowerCase_length (trim accepted)), <- trim_toLowerCase, <- H.
  rewrite trim_toLowerCase, trim_idempotent.
  now rewrite H, toLowerCase_length.
Qed.

(** A multiple-choice question whose correct choice begins or ends with
    white space accepts no answer at all: the answer is trimmed and the
    choice is not. *)
Theorem multipleChoice_padded_choice_never_correct
  (q : MultipleChoiceQuestion.t) (correct answer : string) (isFirstTry : bool)
  (r : QuestionResult) :
  indexNumber (MultipleChoiceQuestion.choices q)
              (MultipleChoiceQuestion.correctIndex q)
    = Some correct ->
  trim correct <> correct ->
  MultipleChoiceQuestion.checkAnswer q answer isFirstTry = Returned r ->
  isCorrect r = false /\ points r = 0 /\ correctAnswer r = Some correct.
Proof.
  intros Hidx Hpad. unfold MultipleChoiceQuestion.checkAnswer. rewrite Hidx.
  destruct (String.eqb_spec (toLowerCase (trim answer)) (toLowerCase correct))
    as [Heq | Hne].
  - exfalso. apply Hpad. now apply (normalized_eq_untrimmed answer).
  - intros [= <-]. repeat split.
Qed.

Lemma multipleChoice_padded_choice_never_correct_witness :
  exists r,
    MultipleChoiceQuestion.checkAnswer
      (MultipleChoiceQuestion.mk (mkQuestion "Greeting?" easy)
                                 ["Hello "; "Goodbye"] 0%float)
      "Hello " true = Returned r
    /\ isCorrect r = false.
Proof.
  eexists. split; [reflexivity |].
  apply (@multipleChoice_padded_choice_never_correct
           (MultipleChoiceQuestion.mk (mkQuestion "Greeting?" easy)
                                      ["Hello "; "Goodbye"] 0%float)
           "Hello " "Hello " true _ eq_refl).
  - vm_compute. discriminate.
  - reflexivity.
Defined.

Lemma fillInBlank_scan_some q normalized isFirstTry accepted r :
  FillInBlankQuestion.scan q normalized isFirstTry accepted = Some r ->
  exists a, In a accepted /\ normalized = toLowerCase a.
Proof.
  induction accepted as [| a rest IH]; simpl; [discriminate |].
  destruct (String.eqb_spec normalized (toLowerCase a)) as [Heq | Hne].
  - intros _. exists a. auto.
  - intros H. destruct (IH H) as [b [Hb Hm]]. exists b. auto.
Qed.

Lemma fillInBlank_scan_none q normalized isFirstTry accepted :
  FillInBlankQuestion.scan q normalized isFirstTry accepted = None ->
  forall a, In a accepted -> normalized <> toLowerCase a.
Proof.
  induction accepted as [| a rest IH]; simpl; [intros _ b [] |].
  destruct (String.eqb_spec normalized (toLowerCase a)) as [Heq | Hne];
    [discriminate |].
  intros H b [<- | Hb]; [exact Hne | now apply IH].
Qed.

(** The fill-in-the-blank check accepts an answer exactly when its
    trimmed, lower-cased form is the lower-cased form of an accepted answer
    that has no white space at either end: a padded entry is never
    matched, and neither is the [correctAnswer] field unless it is listed.
    A rejected answer always gets [correctAnswer] back, and the feedback
    names it unless the prompt contains "yesterday" or "ago". *)
Theorem fillInBlank_checkAnswer_spec
  (q : FillInBlankQuestion.t) (answer : string) (isFirstTry : bool) :
  let normalized := toLowerCase (trim answer) in
  let r := FillInBlankQuestion.checkAnswer q answer isFirstTry in
  (isCorrect r = true <->
   exists a, In a (FillInBlankQuestion.acceptedAnswers q)
     /\ trim a = a /\ normalized = toLowerCase a)
  /\ (isCorrect r = true ->
      r = mkResult true "Correct!"
            (basePoints (difficulty (FillInBlankQuestion.base q))
             + bonus isFirstTry) None)
  /\ (isCorrect r = false ->
      points r = 0
      /\ correctAnswer r = Some (FillInBlankQuestion.correctAnswer q)
      /\ feedback r
         = if includes (text (FillInBlankQuestion.base q)) "yesterday"
              || includes (text (FillInBlankQuestion.base q)) "ago"
           then "Hint: Check the past tense form."
           else "Incorrect. The correct answer is: "
                ++ FillInBlankQuestion.correctAnswer q).
Proof.
  intros normalized r. subst r. unfold FillInBlankQuestion.checkAnswer.
  fold normalized.
  destruct (FillInBlankQuestion.scan q normalized isFirstTry
              (FillInBlankQuestion.acceptedAnswers q)) as [r |] eqn:E.
  - destruct (@fillInBlank_scan_points _ _ _ _ _ E) as [Hc Hp].
    destruct (@fillInBlank_scan_some _ _ _ _ _ E) as [a [Ha Hm]].
    split; [| split].
    + split; [intros _ | intros _; exact Hc].
      exists a. split; [exact Ha |]. split; [| exact Hm].
      now apply (normalized_eq_untrimmed answer).
    + intros _. clear - E. revert E.
      induction (FillInBlankQuestion.acceptedAnswers q) as [| b rest IH];
        simpl; [discriminate |].
      destruct (String.eqb _ _); [| exact IH].
      intros [= <-]. now rewrite calculatePoints_spec.
    + rewrite Hc. discriminate.
  - pose proof (@fillInBlank_scan_none _ _ _ _ E) as Hnone.
    split; [| split].
    + split; [discriminate |].
      intros [a [Ha [_ Hm]]]. exfalso. exact (Hnone a Ha Hm).
    + discriminate.
    + intros _. repeat split.
Qed.

Lemma isFuzzyMatch_same s : TranslationQuestion.isFuzzyMatch s s = true.
Proof.
  unfold TranslationQuestion.isFuzzyMatch.
  rewrite calculateSimilarity_same. reflexivity.
Qed.

Lemma isFuzzyMatch_blank s :
  s <> EmptyString ->
  TranslationQuestion.isFuzzyMatch EmptyString s = false
  /\ TranslationQuestion.isFuzzyMatch s EmptyString = false.
Proof.
  intros Hs. destruct s as [| c r]; [congruence |].
  unfold TranslationQuestion.isFuzzyMatch, TranslationQuestion.calculateSimilarity.
  split; reflexivity.
Qed.

Lemma translation_scan_existsb q normalized isFirstTry accepted :
  match TranslationQuestion.scan q normalized isFirstTry accepted with
  | Some _ => true
  | None => false
  end
  = existsb (fun a => TranslationQuestion.isFuzzyMatch
                        normalized (TranslationQuestion.normalizeText a))
            accepted.
Proof.
  induction accepted as [| a rest IH]; simpl; [reflexivity |].
  destruct (String.eqb_spec normalized (TranslationQuestion.normalizeText a))
    as [<- | Hne].
  - now rewrite isFuzzyMatch_same.
  - destruct (TranslationQuestion.isFuzzyMatch _ _); [reflexivity | exact IH].
Qed.

Lemma translation_correct_by_similarity_aux
  (q : TranslationQuestion.t) (answer : string) (isFirstTry : bool) :
  isCorrect (TranslationQuestion.checkAnswer q answer isFirstTry)
  = existsb (fun a => TranslationQuestion.isFuzzyMatch
                        (TranslationQuestion.normalizeText answer)
                        (TranslationQuestion.normalizeText a))
            (TranslationQuestion.acceptedTranslations q).
Proof.
  unfold TranslationQuestion.checkAnswer.
  rewrite <- (translation_scan_existsb q _ isFirstTry).
  destruct (TranslationQuestion.scan _ _ _ _) as [r |] eqn:E; [| reflexivity].
  now apply translation_scan_points in E.
Qed.

(** Whether a translation is accepted is decided by the similarity test
    alone: the exact comparison that precedes it only chooses the
    feedback. *)
Theorem translation_correct_by_similarity
  (q : TranslationQuestion.t) (answer : string) (isFirstTry : bool) :
  isCorrect (TranslationQuestion.checkAnswer q answer isFirstTry)
  = existsb (fun a => TranslationQuestion.isFuzzyMatch
                        (TranslationQuestion.normalizeText answer)
                        (TranslationQuestion.normalizeText a))
            (TranslationQuestion.acceptedTranslations q).
Proof. apply translation_correct_by_similarity_aux. Qed.

(** Empty input: an answer that is blank after trimming is accepted only
    when an accepted translation is itself blank after trimming, however
    short the accepted translations are. *)
Theorem translation_blank_answer
  (q : TranslationQuestion.t) (answer : string) (isFirstTry : bool) :
  trim answer = EmptyString ->
  (isCorrect (TranslationQuestion.checkAnswer q answer isFirstTry) = true <->
   exists a, In a (TranslationQuestion.acceptedTranslations q)
             /\ trim a = EmptyString).
Proof.
  intros Hblank. rewrite translation_correct_by_similarity_aux.
  unfold TranslationQuestion.normalizeText. rewrite Hblank. simpl toLowerCase.
  rewrite existsb_exists. split.
  - intros [a [Ha Hm]]. exists a. split; [exact Ha |].
    destruct (trim a) as [| c r] eqn:E; [reflexivity |].
    exfalso. simpl in Hm.
    destruct (@isFuzzyMatch_blank (String (lowerChar c) (toLowerCase r))
                ltac:(discriminate)) as [H1 _].
    congruence.
  - intros [a [Ha Hm]]. exists a. split; [exact Ha |]. now rewrite Hm.
Qed.

Lemma translation_blank_answer_witness :
  isCorrect
    (TranslationQuestion.checkAnswer
       (TranslationQuestion.mk (mkQuestion "Translate" easy) "x" ["a"; "I"])
       "   " true) = true
  <-> exists a, In a ["a"; "I"] /\ trim a = EmptyString.
Proof.
  apply (@translation_blank_answer
           (TranslationQuestion.mk (mkQuestion "Translate" easy) "x" ["a"; "I"])
           "   " true).
  reflexivity.
Defined.

End NormalizationFacts.

(** ** More on the combo and energy systems *)

Section ComboEnergyProperties.
Import Clock Gamification Vocabulary Notions.

Lemma calculatePoints_formula (basePoints : Z) (s : ComboSystem.t) :
  ComboSystem.calculatePoints basePoints s
  = if ComboSystem.currentCombo s >=? 5 then 2 * basePoints
    else if ComboSystem.currentCombo s >=? 3 then 3 * basePoints / 2
    else basePoints.
Proof.
  unfold ComboSystem.calculatePoints, ComboSystem.getMultiplier.
  destruct (ComboSystem.currentCombo s >=? 5);
    [| destruct (ComboSystem.currentCombo s >=? 3)];
    unfold Qfloor, Qmult, inject_Z; simpl Qnum; simpl Qden.
  - rewrite Z.div_1_r. lia.
  - change (Z.pos (1 * 2)) with 2. f_equal. lia.
  - rewrite Z.div_1_r. lia.
Qed.




End ComboEnergyProperties.

(** ** More on the achievement tracker *)

Section AchievementProperties.
Import Clock Gamification Gamification.AchievementTracker Vocabulary Notions.

Lemma unlock_result a clock k :
  Achievement.unlocked (fst (Achievement.unlock a clock k)) = true.
Proof.
  unfold Achievement.unlock.
  destruct (Achievement.unlocked a) eqn:E; simpl; [exact E | reflexivity].
Qed.

Lemma get_present key (m : AMap.t) :
  In key (map fst m) -> exists a, AMap.get key m = Some a.
Proof.
  induction m as [| [k b] rest IH]; simpl; [intros [] |].
  intros [-> | Hin].
  - rewrite String.eqb_refl. eauto.
  - destruct (String.eqb key k); [eauto | now apply IH].
Qed.

Lemma unlockAt_keys key tr clock k :
  map fst (achievements (fst (unlockAt key tr clock k)))
  = map fst (achievements tr).
Proof.
  unfold unlockAt.
  destruct (AMap.get key (achievements tr)) as [a |] eqn:E; [| reflexivity].
  unfold bind. destruct (Achievement.unlock a clock k) as [a' k']. simpl.
  now apply keys_set_present with (b := a).
Qed.

Lemma unlockAt_unlocked key0 key tr clock k :
  In key0 (map fst (achievements tr)) ->
  isUnlockedAt key (fst (unlockAt key0 tr clock k))
  = isUnlockedAt key tr || String.eqb key key0.
Proof.
  intros Hin. destruct (get_present _ _ Hin) as [a Ha].
  unfold isUnlockedAt, unlockAt. rewrite Ha. unfold bind.
  pose proof (unlock_result a clock k) as Hres.
  destruct (Achievement.unlock a clock k) as [a' k']. simpl in *.
  destruct (String.eqb_spec key key0) as [-> | Hne].
  - rewrite get_set_same, Hres. now rewrite orb_true_r.
  - rewrite get_set_other by exact Hne. now rewrite orb_false_r.
Qed.

(** One of the two check methods: two guarded unlocks in a row. *)
Lemma guarded_unlocks key1 key2 (go1 go2 : bool) key tr clock k :
  hasCatalogKeys tr -> In key1 catalogIds -> In key2 catalogIds ->
  let tr' :=
    fst ((tr1 <- (if go1 then unlockAt key1 tr else ret tr) ;;
          if go2 then unlockAt key2 tr1 else ret tr1) clock k) in
  hasCatalogKeys tr'
  /\ isUnlockedAt key tr'
     = isUnlockedAt key tr
       || (String.eqb key key1 && go1) || (String.eqb key key2 && go2).
Proof.
  intros Hkeys H1 H2 tr'. subst tr'. unfold hasCatalogKeys in *. unfold bind.
  destruct ((if go1 then unlockAt key1 tr else ret tr) clock k)
    as [tr1 k1] eqn:E1.
  assert (Hstep1 : map fst (achievements tr1) = catalogIds
                   /\ isUnlockedAt key tr1
                      = isUnlockedAt key tr || (String.eqb key key1 && go1)).
  { destruct go1.
    - pose proof (unlockAt_keys key1 tr clock k) as Hk.
      pose proof (@unlockAt_unlocked key1 key tr clock k) as Hu.
      rewrite E1 in Hk, Hu. simpl in Hk, Hu. split; [congruence |].
      rewrite Hu by (rewrite Hkeys; exact H1). now rewrite andb_true_r.
    - injection E1 as <- _. split; [exact Hkeys |].
      now rewrite andb_false_r, orb_false_r. }
  destruct Hstep1 as [Hkeys1 Hun1].
  destruct go2.
  - split; [rewrite unlockAt_keys; exact Hkeys1 |].
    rewrite unlockAt_unlocked by (rewrite Hkeys1; exact H2).
    now rewrite Hun1, andb_true_r.
  - simpl. split; [exact Hkeys1 |].
    now rewrite Hun1, andb_false_r, orb_false_r.
Qed.

Lemma exec_unlocked c key tr clock k :
  hasCatalogKeys tr ->
  hasCatalogKeys (fst (exec c tr clock k))
  /\ isUnlockedAt key (fst (exec c tr clock k))
     = isUnlockedAt key tr || triggers c key.
Proof.
  intros Hkeys.
  destruct c as [n | n]; cbn [exec triggers];
    unfold checkLessonCompletion, checkStreak.
  - destruct (@guarded_unlocks "first-lesson" "ten-lessons"
                (n >=? 1) (n >=? 10) key tr clock k Hkeys)
      as [Hk Hu]; [simpl; auto | simpl; auto |].
    split; [exact Hk |]. rewrite Hu. now rewrite <- orb_assoc.
  - destruct (@guarded_unlocks "week-streak" "month-streak"
                (n >=? 7) (n >=? 30) key tr clock k Hkeys)
      as [Hk Hu]; [simpl; auto | simpl; auto |].
    split; [exact Hk |]. rewrite Hu. now rewrite <- orb_assoc.
Qed.

Lemma execAll_unlocked cs key :
  forall tr clock k,
    hasCatalogKeys tr ->
    hasCatalogKeys (fst (execAll cs tr clock k))
    /\ isUnlockedAt key (fst (execAll cs tr clock k))
       = isUnlockedAt key tr || existsb (fun c => triggers c key) cs.
Proof.
  induction cs as [| c rest IH]; intros tr clock k Hkeys.
  - simpl. split; [exact Hkeys | now rewrite orb_false_r].
  - cbn [execAll existsb]. unfold bind.
    destruct (@exec_unlocked c key tr clock k Hkeys) as [Hk Hu].
    destruct (exec c tr clock k) as [tr1 k1]. simpl in Hk, Hu.
    destruct (IH tr1 clock k1 Hk) as [Hk' Hu'].
    split; [exact Hk' |]. rewrite Hu', Hu. now rewrite orb_assoc.
Qed.

Lemma new_locked userId key :
  isUnlockedAt key (AchievementTracker.new userId) = false.
Proof.
  unfold isUnlockedAt. simpl.
  repeat (destruct (String.eqb key _); [reflexivity |]). reflexivity.
Qed.

(** What is unlocked is decided by the calls made so far and by nothing
    else: after any run of check calls on a new tracker an achievement is
    unlocked exactly when some call of the run met its threshold (1 or 10
    lessons, 7 or 30 days), whatever came after that call; and the tracker
    still holds the four catalog entries. *)
Theorem achievements_unlocked_iff_triggered
  (userId : string) (calls : list call) (clock : nat -> Z) (k : nat)
  (key : string) :
  let tr := fst (execAll calls (AchievementTracker.new userId) clock k) in
  isUnlockedAt key tr = existsb (fun c => triggers c key) calls
  /\ map fst (achievements tr) = catalogIds.
Proof.
  intros tr. subst tr.
  destruct (@execAll_unlocked calls key (AchievementTracker.new userId) clock k
              eq_refl) as [Hk Hu].
  split; [| exact Hk]. now rewrite Hu, new_locked.
Qed.

Lemma listing_ids (m : AMap.t) :
  keyed m ->
  map data_id (map Achievement.toData
                   (filter Achievement.isUnlocked (AMap.values m)))
  = filter (fun key => match AMap.get key m with
                       | Some a => Achievement.unlocked a
                       | None => false
                       end)
           (map fst m).
Proof.
  unfold keyed, AMap.values.
  induction m as [| [k a] rest IH]; intros [Hids Hnd]; [reflexivity |].
  inversion Hids as [| p l Hp Hrest]; subst. simpl in Hp.
  inversion Hnd as [| k' l' Hnotin Hnd']; subst.
  specialize (IH (conj Hrest Hnd')).
  cbn [map fst snd filter AMap.get]. rewrite String.eqb_refl.
  assert (Htail :
            filter (fun key => match (if String.eqb key (Achievement.id a)
                                      then Some a else AMap.get key rest) with
                               | Some a0 => Achievement.unlocked a0
                               | None => false
                               end) (map fst rest)
            = filter (fun key => match AMap.get key rest with
                                 | Some a0 => Achievement.unlocked a0
                                 | None => false
                                 end) (map fst rest)).
  { apply filter_ext_in. intros key Hin.
    destruct (String.eqb_spec key (Achievement.id a)) as [-> | Hne];
      [contradiction | reflexivity]. }
  rewrite Htail, <- IH.
  unfold Achievement.isUnlocked at 1.
  destruct (Achievement.unlocked a); reflexivity.
Qed.

(** The listing follows the catalog: the ids of the unlocked achievements
    are the catalog ids, in catalog order, less the locked ones; so there
    are at most four entries and no id twice. *)
Theorem achievements_listing_in_catalog_order
  (userId : string) (calls : list call) (clock : nat -> Z) (k : nat) :
  let tr := fst (execAll calls (AchievementTracker.new userId) clock k) in
  map data_id (getUnlockedAchievements tr)
  = filter (fun key => isUnlockedAt key tr) catalogIds.
Proof.
  intros tr. unfold getUnlockedAchievements.
  rewrite listing_ids
    by (subst tr; apply execAll_keyed; apply new_keyed).
  destruct (@execAll_unlocked calls EmptyString
              (AchievementTracker.new userId) clock k eq_refl) as [Hk _].
  fold tr in Hk. unfold hasCatalogKeys in Hk. rewrite Hk. reflexivity.
Qed.

End AchievementProperties.

(** ** More on user progress *)

Section ProgressProperties.
Import Clock JsDate UserProgress Vocabulary Notions.

Lemma recordActivity_fields tz date s clock k :
  let s' := fst (recordActivity tz date s clock k) in
  userId s' = userId s /\ xp s' = xp s /\ level s' = level s
  /\ completedLessons s' = completedLessons s.
Proof.
  unfold recordActivity, bind. destruct (orNow date clock k) as [d k'].
  destruct (lastActivityDate s); [| repeat split].
  destruct (_ =? 0); [repeat split |]. destruct (_ =? 1); repeat split.
Qed.

Lemma completeLesson_fields lessonId s :
  let s' := completeLesson lessonId s in
  userId s' = userId s /\ xp s' = xp s /\ level s' = level s
  /\ streak s' = streak s /\ lastActivityDate s' = lastActivityDate s.
Proof.
  unfold completeLesson. destruct (isLessonCompleted lessonId s); repeat split.
Qed.

Lemma addXP_state amount s :
  snd (addXP amount s)
  = if amount <? 0 then s
    else updateLevel (mk (userId s) (xp s + amount) (level s) (streak s)
                         (lastActivityDate s) (completedLessons s)).
Proof. unfold addXP. now destruct (amount <? 0). Qed.

Lemma highestThreshold_mono xp1 xp2 i1 i2 :
  xp1 <= xp2 -> highestThreshold xp1 i1 -> highestThreshold xp2 i2 ->
  (i1 <= i2)%nat.
Proof.
  intros Hle [[t1 [Hn1 Ht1]] _] [_ Hmax2].
  apply (Hmax2 i1 t1 Hn1). lia.
Qed.

Lemma reachable_level s :
  reachable s ->
  exists i, highestThreshold (xp s) i /\ level s = Z.of_nat i + 1.
Proof.
  induction 1 as [u | amount s Hs IH | tz date clock k s Hs IH | l s Hs IH].
  - exists 0%nat. split; [| reflexivity]. split.
    + exists 0. split; [reflexivity | simpl; lia].
    + intros j threshold Hj Hle. simpl in Hle.
      destruct j as [| j]; [lia |].
      do 7 (destruct j as [| j]; [injection Hj as <-; lia |]).
      destruct j; discriminate Hj.
  - rewrite addXP_state. destruct (Z.ltb_spec amount 0); [exact IH |].
    pose proof (reachable_xp_nonneg Hs) as Hxp.
    set (s1 := mk (userId s) (xp s + amount) (level s) (streak s)
                  (lastActivityDate s) (completedLessons s)).
    destruct (@updateLevel_highest s1 ltac:(simpl; lia)) as [i [Hi Hl]].
    destruct (updateLevel_fields s1) as [_ [Hx _]].
    exists i. rewrite Hx. split; [exact Hi | exact Hl].
  - destruct (recordActivity_fields tz date s clock k) as [_ [-> [-> _]]].
    exact IH.
  - destruct (completeLesson_fields l s) as [_ [-> [-> _]]]. exact IH.
Qed.

Lemma isLessonCompleted_In lessonId s :
  isLessonCompleted lessonId s = true <-> In lessonId (completedLessons s).
Proof.
  unfold isLessonCompleted. rewrite existsb_exists. split.
  - intros [x [Hin Heq]]. apply String.eqb_eq in Heq. now subst x.
  - intros Hin. exists lessonId. split; [exact Hin | apply String.eqb_refl].
Qed.

Lemma reachable_NoDup s : reachable s -> NoDup (completedLessons s).
Proof.
  induction 1 as [u | amount s Hs IH | tz date clock k s Hs IH | l s Hs IH].
  - constructor.
  - rewrite addXP_state. destruct (amount <? 0); [exact IH |].
    destruct (updateLevel_fields
                (mk (userId s) (xp s + amount) (level s) (streak s)
                    (lastActivityDate s) (completedLessons s)))
      as [_ [_ [_ [_ ->]]]].
    exact IH.
  - destruct (recordActivity_fields tz date s clock k) as [_ [_ [_ ->]]].
    exact IH.
  - unfold completeLesson.
    destruct (isLessonCompleted l s) eqn:E; [exact IH |]. simpl.
    apply NoDup_app; [exact IH | repeat constructor; intros [] |].
    intros x Hx [<- | []].
    apply isLessonCompleted_In in Hx. congruence.
Qed.

(** The completed lessons form a set kept in order of first insertion:
    no reachable state lists an id twice; completing a lesson makes it
    completed, changes the status of no other lesson, keeps the earlier
    entries in place and in front, and is idempotent. *)
Theorem completeLesson_set (s : UserProgress.t) (lessonId other : string) :
  (reachable s -> NoDup (getCompletedLessons s))
  /\ isLessonCompleted lessonId (completeLesson lessonId s) = true
  /\ (other <> lessonId ->
      isLessonCompleted other (completeLesson lessonId s)
      = isLessonCompleted other s)
  /\ getCompletedLessons (completeLesson lessonId s)
     = (getCompletedLessons s
        ++ (if isLessonCompleted lessonId s then [] else [lessonId]))%list
  /\ completeLesson lessonId (completeLesson lessonId s)
     = completeLesson lessonId s.
Proof.
  assert (Hdone : isLessonCompleted lessonId (completeLesson lessonId s) = true).
  { unfold completeLesson. destruct (isLessonCompleted lessonId s) eqn:E;
      [exact E |].
    apply isLessonCompleted_In. simpl. apply in_or_app. right. now left. }
  split; [apply reachable_NoDup |]. split; [exact Hdone |].
  split; [| split].
  - intros Hne. unfold completeLesson.
    destruct (isLessonCompleted lessonId s); [reflexivity |].
    unfold isLessonCompleted. simpl. rewrite existsb_app. simpl.
    apply String.eqb_neq in Hne. now rewrite Hne, !orb_false_r.
  - unfold completeLesson, getCompletedLessons.
    destruct (isLessonCompleted lessonId s); simpl;
      [now rewrite app_nil_r | reflexivity].
  - unfold completeLesson at 1. now rewrite Hdone.
Qed.

Lemma reachable_streak s :
  reachable s ->
  match lastActivityDate s with
  | None => streak s = 0
  | Some _ => 1 <= streak s
  end.
Proof.
  induction 1 as [u | amount s Hs IH | tz date clock k s Hs IH | l s Hs IH].
  - reflexivity.
  - rewrite addXP_state. destruct (amount <? 0); [exact IH |].
    destruct (updateLevel_fields
                (mk (userId s) (xp s + amount) (level s) (streak s)
                    (lastActivityDate s) (completedLessons s)))
      as [_ [_ [-> [-> _]]]].
    exact IH.
  - unfold recordActivity, bind. destruct (orNow date clock k) as [d k'].
    destruct (lastActivityDate s) as [last |] eqn:E; simpl.
    + destruct (_ =? 0); simpl; [now rewrite E |].
      destruct (_ =? 1); simpl; lia.
    + lia.
  - destruct (completeLesson_fields l s) as [_ [_ [_ [-> ->]]]]. exact IH.
Qed.

(** The streak counts recorded days: it is 0 exactly as long as no
    activity has been recorded and at least 1 ever after, and one call of
    [recordActivity] raises it by at most 1. *)
Theorem userProgress_streak_invariant
  (s : UserProgress.t) (tz : TimeZone) (date : option Date)
  (clock : nat -> Z) (k : nat) :
  reachable s ->
  match lastActivityDate s with
  | None => streak s = 0
  | Some _ => 1 <= streak s
  end
  /\ 1 <= streak (fst (recordActivity tz date s clock k)) <= streak s + 1
  /\ lastActivityDate (fst (recordActivity tz date s clock k)) <> None.
Proof.
  intros Hs. pose proof (reachable_streak Hs) as Hinv.
  split; [exact Hinv |].
  unfold recordActivity, bind. destruct (orNow date clock k) as [d k'].
  destruct (lastActivityDate s) as [last |] eqn:E; simpl.
  - destruct (_ =? 0); simpl; [rewrite E; split; [lia | discriminate] |].
    destruct (_ =? 1); simpl; split; try lia; discriminate.
  - split; [lia | discriminate].
Qed.

Lemma userProgress_streak_invariant_witness :
  streak (UserProgress.new "u") = 0
  /\ 1 <= streak (fst (recordActivity utc (Some 0) (UserProgress.new "u")
                                      (fun _ => 0) 0%nat))
       <= streak (UserProgress.new "u") + 1
  /\ lastActivityDate (fst (recordActivity utc (Some 0) (UserProgress.new "u")
                                           (fun _ => 0) 0%nat)) <> None.
Proof.
  exact (@userProgress_streak_invariant (UserProgress.new "u") utc (Some 0)
           (fun _ => 0) 0%nat (reach_new "u")).
Defined.

End ProgressProperties.

(** ** Lessons *)

Section LessonProperties.
Import QuestionEngine LessonContent Notions.

Lemma update_length {A : Type} (xs : list A) :
  forall i v, List.length (JsArray.update xs i v) = List.length xs.
Proof.
  induction xs as [| x rest IH]; intros [| i] v; simpl; try reflexivity.
  now rewrite IH.
Qed.

Lemma update_nth_error {A : Type} (xs : list A) :
  forall i v j,
    (i < List.length xs)%nat ->
    nth_error (JsArray.update xs i v) j
    = if Nat.eqb j i then Some v else nth_error xs j.
Proof.
  induction xs as [| x rest IH]; intros i v j Hi; simpl in Hi; [lia |].
  destruct i as [| i]; destruct j as [| j]; simpl; try reflexivity.
  apply IH. lia.
Qed.

Lemma builtLesson_lengths l :
  builtLesson l ->
  List.length (Lesson.questionResults l) = List.length (Lesson.questions l).
Proof.
  induction 1 as [i t d df | q l Hl IH | v l Hl IH | l Hl IH | qi b l Hl IH];
    simpl; try exact IH; try reflexivity.
  - rewrite !length_app. simpl. lia.
  - unfold Lesson.recordQuestionAnswer.
    destruct (_ && _); simpl; [| exact IH]. now rewrite update_length.
Qed.

(** Recording an answer is guarded by the bounds of the results: with an
    index below 0 or from their length on the lesson is left as it is;
    within the bounds the one result at the index is replaced and nothing
    else changes.  A lesson always has one result for each question. *)
Theorem lesson_recordQuestionAnswer
  (l : Lesson.t) (questionIndex : Z) (isCorrect : bool) :
  let l' := Lesson.recordQuestionAnswer questionIndex isCorrect l in
  let inBounds :=
    0 <= questionIndex < Z.of_nat (List.length (Lesson.questionResults l)) in
  (~ inBounds -> l' = l)
  /\ (inBounds ->
      forall j,
        nth_error (Lesson.questionResults l') j
        = if Nat.eqb j (Z.to_nat questionIndex) then Some isCorrect
          else nth_error (Lesson.questionResults l) j)
  /\ List.length (Lesson.questionResults l')
     = List.length (Lesson.questionResults l)
  /\ Lesson.questions l' = Lesson.questions l
  /\ Lesson.id l' = Lesson.id l
  /\ Lesson.completed l' = Lesson.completed l
  /\ (builtLesson l ->
      List.length (Lesson.questionResults l') = List.length (Lesson.questions l')).
Proof.
  intros l' inBounds. subst l' inBounds. unfold Lesson.recordQuestionAnswer.
  destruct (Z.geb_spec questionIndex 0) as [Hge | Hlt];
    destruct (Z.ltb_spec questionIndex
                (Z.of_nat (List.length (Lesson.questionResults l))))
      as [Hin | Hout]; simpl;
    repeat split; try reflexivity; try lia;
    try (intros; apply builtLesson_lengths; assumption);
    try (rewrite update_length; reflexivity).
  - intros _ j. apply update_nth_error. lia.
  - intros Hb. rewrite update_length. now apply builtLesson_lengths.
Qed.

Lemma progress_table :
  forallb (fun total => forallb (progressOk total) (seq 0 (S total)))
          (seq 1 300) = true.
Proof. vm_compute. reflexivity. Qed.

Lemma progressOf_ok (count total : nat) :
  (1 <= total <= 300)%nat -> (count <= total)%nat ->
  0 <= progressOf (Z.of_nat count) (Z.of_nat total) <= 100
  /\ (progressOf (Z.of_nat count) (Z.of_nat total) = 100 <-> count = total).
Proof.
  intros Ht Hc. pose proof progress_table as H.
  rewrite forallb_forall in H.
  specialize (H total ltac:(apply in_seq; lia)).
  rewrite forallb_forall in H.
  specialize (H count ltac:(apply in_seq; lia)).
  unfold progressOk in H. cbv zeta in H.
  apply andb_true_iff in H. destruct H as [H Heq].
  apply andb_true_iff in H. destruct H as [Hlo Hhi].
  apply Z.leb_le in Hlo. apply Z.leb_le in Hhi.
  apply Bool.eqb_prop in Heq.
  split; [lia |]. rewrite <- Z.eqb_eq, Heq. apply Nat.eqb_eq.
Qed.

Lemma count_true_le (results : list bool) :
  (List.length (filter (fun result => result) results)
   <= List.length results)%nat
  /\ (List.length (filter (fun result => result) results)
      = List.length results <-> forallb (fun result => result) results = true).
Proof.
  induction results as [| [] rest [IHle IHeq]]; simpl.
  - split; [lia | tauto].
  - split; [lia |]. rewrite <- IHeq. lia.
  - split; [lia |]. split; [lia | discriminate].
Qed.

(** The progress of a lesson with up to 300 questions, computed in
    binary64 as in the source, is a percentage between 0 and 100, and it
    is 100 exactly when the lesson has a question and every question is
    recorded as answered correctly; without questions it is 0. *)
Theorem lesson_getProgress (l : Lesson.t) :
  builtLesson l ->
  (List.length (Lesson.questions l) <= 300)%nat ->
  0 <= Lesson.getProgress l <= 100
  /\ (Lesson.getProgress l = 100 <->
      Lesson.questions l <> []
      /\ forallb (fun result => result) (Lesson.questionResults l) = true)
  /\ (Lesson.questions l = [] -> Lesson.getProgress l = 0).
Proof.
  intros Hb Hsize. pose proof (builtLesson_lengths Hb) as Hlen.
  unfold Lesson.getProgress.
  destruct (Lesson.questions l) as [| q qs] eqn:Eq.
  - simpl. split; [lia |]. split; [| reflexivity].
    split; [discriminate | intros [Hne _]; congruence].
  - destruct (count_true_le (Lesson.questionResults l)) as [Hle Hall].
    set (n := List.length (q :: qs)) in *.
    assert (Hn : (1 <= n <= 300)%nat) by (subst n; simpl in *; lia).
    destruct (Z.eqb_spec (Z.of_nat n) 0) as [H0 | _]; [lia |].
    cbv zeta. fold (progressOf
      (Z.of_nat (List.length (filter (fun result => result)
                                     (Lesson.questionResults l))))
      (Z.of_nat n)).
    destruct (@progressOf_ok
                (List.length (filter (fun result => result)
                                     (Lesson.questionResults l)))
                n Hn ltac:(lia)) as [Hrange Hfull].
    split; [exact Hrange |]. split; [| discriminate].
    rewrite Hfull, <- Hall, Hlen. split.
    + intros H. split; [discriminate | exact H].
    + intros [_ H]. exact H.
Qed.

Lemma lesson_getProgress_witness :
  let l :=
    Lesson.recordQuestionAnswer 0 true
      (Lesson.addQuestion
         (FillInBlank (FillInBlankQuestion.mk (mkQuestion "_, how are you?" easy)
                                              "Hello" ["Hello"; "Hi"]))
         (Lesson.new "greetings-1" "Basic Greetings" "Greetings" easy)) in
  Lesson.getProgress l = 100.
Proof.
  intros l.
  assert (Hb : builtLesson l) by (subst l; repeat constructor).
  destruct (@lesson_getProgress l Hb ltac:(simpl; lia)) as [_ [Hfull _]].
  apply Hfull. split; [discriminate | reflexivity].
Defined.

End LessonProperties.

(** ** Skill paths and the lesson manager *)

Section PathProperties.
Import QuestionEngine LessonContent Notions.

Lemma findIndexFrom_none {A : Type} (p : A -> bool) (xs : list A) :
  forall i, (forall x, In x xs -> p x = false) ->
            JsArray.findIndexFrom p xs i = -1.
Proof.
  induction xs as [| x rest IH]; intros i Hnone; simpl; [reflexivity |].
  rewrite (Hnone x (or_introl eq_refl)). apply IH.
  intros y Hy. apply Hnone. now right.
Qed.

Lemma findIndexFrom_first {A : Type} (p : A -> bool) (pre : list A) x post :
  forall i, (forall y, In y pre -> p y = false) -> p x = true ->
            JsArray.findIndexFrom p (pre ++ x :: post) i
            = i + Z.of_nat (List.length pre).
Proof.
  induction pre as [| y pre IH]; intros i Hpre Hx; simpl.
  - rewrite Hx. lia.
  - rewrite (Hpre y (or_introl eq_refl)).
    rewrite IH; [lia | | exact Hx]. intros z Hz. apply Hpre. now right.
Qed.

Lemma first_match {A : Type} (p : A -> bool) (xs : list A) :
  (forall x, In x xs -> p x = false)
  \/ exists pre x post,
      xs = (pre ++ x :: post)%list /\ (forall y, In y pre -> p y = false)
      /\ p x = true.
Proof.
  induction xs as [| x rest IH].
  - left. intros x [].
  - destruct (p x) eqn:Ex.
    + right. exists [], x, rest. split; [reflexivity |].
      split; [intros y [] | exact Ex].
    + destruct IH as [Hnone | [pre [y [post [-> [Hpre Hy]]]]]].
      * left. intros y [<- | Hy]; [exact Ex | now apply Hnone].
      * right. exists (x :: pre), y, post. split; [reflexivity |].
        split; [| exact Hy]. intros z [<- | Hz]; [exact Ex | now apply Hpre].
Qed.

Lemma index_middle {A : Type} (pre : list A) x post :
  index (pre ++ x :: post) (Z.of_nat (List.length pre)) = Some x.
Proof.
  unfold index. destruct (Z.ltb_spec (Z.of_nat (List.length pre)) 0); [lia |].
  rewrite Nat2Z.id. rewrite nth_error_app2 by lia.
  now rewrite Nat.sub_diag.
Qed.

Lemma isLessonUnlocked_first lessonId completed (p : SkillPath.t) first rest :
  SkillPath.lessons p = first :: rest ->
  Lesson.getId first = lessonId ->
  SkillPath.isLessonUnlocked lessonId completed p = Returned true.
Proof.
  intros Hl Hid. unfold SkillPath.isLessonUnlocked, JsArray.findIndex.
  rewrite Hl. simpl. rewrite Hid, String.eqb_refl. reflexivity.
Qed.

Lemma isLessonUnlocked_later lessonId completed (p : SkillPath.t)
      pre prev l post :
  SkillPath.lessons p = (pre ++ prev :: l :: post)%list ->
  (forall x, In x (pre ++ [prev]) -> Lesson.getId x <> lessonId) ->
  Lesson.getId l = lessonId ->
  SkillPath.isLessonUnlocked lessonId completed p
  = Returned (JsArray.includes completed (Lesson.getId prev)).
Proof.
  intros Hl Hpre Hid. unfold SkillPath.isLessonUnlocked, JsArray.findIndex.
  rewrite Hl.
  replace (pre ++ prev :: l :: post)%list with ((pre ++ [prev]) ++ l :: post)%list
    by (rewrite <- app_assoc; reflexivity).
  rewrite findIndexFrom_first.
  - rewrite length_app. simpl.
    destruct (Z.eqb_spec (Z.of_nat (List.length pre + 1)) (-1)); [lia |].
    destruct (Z.eqb_spec (Z.of_nat (List.length pre + 1)) 0); [lia |].
    replace (Z.of_nat (List.length pre + 1) - 1)
      with (Z.of_nat (List.length pre)) by lia.
    rewrite <- app_assoc. simpl. now rewrite index_middle.
  - intros y Hy. apply String.eqb_neq. now apply Hpre.
  - rewrite Hid. apply String.eqb_refl.
Qed.

Lemma isLessonUnlocked_unknown lessonId completed (p : SkillPath.t) :
  (forall x, In x (SkillPath.lessons p) -> Lesson.getId x <> lessonId) ->
  SkillPath.isLessonUnlocked lessonId completed p = Returned false.
Proof.
  intros Hnone. unfold SkillPath.isLessonUnlocked, JsArray.findIndex.
  rewrite findIndexFrom_none; [reflexivity |].
  intros x Hx. apply String.eqb_neq. now apply Hnone.
Qed.

Lemma split_last {A : Type} (xs : list A) :
  xs = [] \/ exists pre x, xs = (pre ++ [x])%list.
Proof.
  induction xs as [| x rest IH]; [now left | right].
  destruct IH as [-> | [pre [y ->]]].
  - exists [], x. reflexivity.
  - exists (x :: pre), y. reflexivity.
Qed.

(** [isLessonUnlocked] never throws, and it goes by the first lesson of
    the path that carries the id: no such lesson, locked; that lesson
    first in the path, unlocked whatever is completed; otherwise unlocked
    exactly when the id of the lesson just before it is among the
    completed ones. *)
Theorem skillPath_isLessonUnlocked
  (p : SkillPath.t) (lessonId : string) (completed : list string) :
  (exists b, SkillPath.isLessonUnlocked lessonId completed p = Returned b)
  /\ ((forall x, In x (SkillPath.lessons p) -> Lesson.getId x <> lessonId) ->
      SkillPath.isLessonUnlocked lessonId completed p = Returned false)
  /\ (forall first rest,
        SkillPath.lessons p = first :: rest ->
        Lesson.getId first = lessonId ->
        SkillPath.isLessonUnlocked lessonId completed p = Returned true)
  /\ (forall pre prev l post,
        SkillPath.lessons p = (pre ++ prev :: l :: post)%list ->
        (forall x, In x (pre ++ [prev]) -> Lesson.getId x <> lessonId) ->
        Lesson.getId l = lessonId ->
        SkillPath.isLessonUnlocked lessonId completed p
        = Returned (JsArray.includes completed (Lesson.getId prev))).
Proof.
  split; [| split; [| split]].
  - destruct (first_match (fun l => String.eqb (Lesson.getId l) lessonId)
                          (SkillPath.lessons p))
      as [Hnone | [pre [l [post [Hl [Hpre Hid]]]]]].
    + exists false. apply isLessonUnlocked_unknown.
      intros x Hx. apply String.eqb_neq. now apply Hnone.
    + apply String.eqb_eq in Hid.
      destruct (split_last pre) as [-> | [pre0 [prev ->]]].
      * exists true. now apply (@isLessonUnlocked_first _ _ _ l post).
      * exists (JsArray.includes completed (Lesson.getId prev)).
        apply (@isLessonUnlocked_later _ _ _ pre0 prev l post).
        -- rewrite Hl, <- app_assoc. reflexivity.
        -- intros x Hx. apply String.eqb_neq. now apply Hpre.
        -- exact Hid.
  - apply isLessonUnlocked_unknown.
  - intros first rest. apply isLessonUnlocked_first.
  - intros pre prev l post. apply isLessonUnlocked_later.
Qed.

Lemma includes_In completed s :
  JsArray.includes completed s = true <-> In s completed.
Proof.
  unfold JsArray.includes. rewrite existsb_exists. split.
  - intros [x [Hin Heq]]. apply String.eqb_eq in Heq. now subst x.
  - intros Hin. exists s. split; [exact Hin | apply String.eqb_refl].
Qed.

(** Completing more lessons never locks one: a lesson unlocked for a list
    of completed lessons is unlocked for every list that contains it. *)
Theorem skillPath_unlock_monotone
  (p : SkillPath.t) (lessonId : string) (completed more : list string) :
  (forall s, In s completed -> In s more) ->
  SkillPath.isLessonUnlocked lessonId completed p = Returned true ->
  SkillPath.isLessonUnlocked lessonId more p = Returned true.
Proof.
  intros Hsub. unfold SkillPath.isLessonUnlocked.
  destruct (_ =? -1); [discriminate |].
  destruct (_ =? 0); [reflexivity |].
  destruct (index _ _) as [prev |]; [| discriminate].
  intros [= H]. f_equal. apply includes_In. apply Hsub. now apply includes_In.
Qed.

Lemma skillPath_unlock_monotone_witness :
  SkillPath.isLessonUnlocked "phrases-1" ["greetings-1"; "extra"]
    (SkillPath.addLesson
       (Lesson.new "phrases-1" "Common Phrases" "Phrases" medium)
       (SkillPath.addLesson
          (Lesson.new "greetings-1" "Basic Greetings" "Greetings" easy)
          (SkillPath.new "beginner" "Beginner English" "Start")))
  = Returned true.
Proof.
  apply (@skillPath_unlock_monotone _ "phrases-1" ["greetings-1"]).
  - intros s [<- | []]. now left.
  - reflexivity.
Defined.

Lemma nextIn_spec (p : SkillPath.t) completed :
  forall ls pre,
    SkillPath.lessons p = (pre ++ ls)%list ->
    (forall x, In x pre -> uncompleted completed x = false) ->
    LessonManager.nextIn p completed ls
    = Returned (find (uncompleted completed) ls).
Proof.
  induction ls as [| l rest IH]; intros pre Hl Hpre; [reflexivity |].
  cbn [LessonManager.nextIn find]. fold (uncompleted completed l).
  destruct (uncompleted completed l) eqn:El.
  - assert (Hids : forall x, In x pre -> Lesson.getId x <> Lesson.getId l).
    { intros x Hx Heq. specialize (Hpre x Hx).
      unfold uncompleted in Hpre, El. rewrite Heq in Hpre. congruence. }
    destruct (split_last pre) as [-> | [pre0 [prev ->]]].
    + rewrite (@isLessonUnlocked_first _ completed p l rest Hl eq_refl).
      reflexivity.
    + rewrite (@isLessonUnlocked_later _ completed p pre0 prev l rest).
      * assert (Hprev : uncompleted completed prev = false)
          by (apply Hpre; apply in_or_app; right; now left).
        unfold uncompleted in Hprev. apply negb_false_iff in Hprev.
        now rewrite Hprev.
      * rewrite Hl, <- app_assoc. reflexivity.
      * exact Hids.
      * reflexivity.
  - apply (IH (pre ++ [l])%list).
    + rewrite Hl, <- app_assoc. reflexivity.
    + intros x Hx. apply in_app_or in Hx.
      destruct Hx as [Hx | [<- | []]]; [now apply Hpre | exact El].
Qed.

Lemma nextAmong_spec completed paths :
  LessonManager.nextAmong completed paths
  = Returned (firstUncompleted completed paths).
Proof.
  induction paths as [| p rest IH]; [reflexivity |].
  cbn [LessonManager.nextAmong firstUncompleted].
  rewrite (@nextIn_spec p completed (SkillPath.lessons p) [] eq_refl)
    by (intros x []).
  destruct (find _ _); [reflexivity | exact IH].
Qed.

Lemma firstUncompleted_None completed paths :
  firstUncompleted completed paths = None <->
  forall p l, In p paths -> In l (SkillPath.lessons p) ->
              In (Lesson.getId l) completed.
Proof.
  induction paths as [| p rest IH]; simpl.
  - split; [intros _ p l [] | reflexivity].
  - destruct (find (uncompleted completed) (SkillPath.lessons p)) as [l |] eqn:E.
    + split; [discriminate |]. intros H. exfalso.
      apply find_some in E. destruct E as [Hin Hun].
      specialize (H p l (or_introl eq_refl) Hin).
      apply includes_In in H. unfold uncompleted in Hun.
      rewrite H in Hun. discriminate.
    + rewrite IH. split.
      * intros H q l [<- | Hq] Hl; [| now apply (H q)].
        pose proof (find_none _ _ E l Hl) as Hun.
        unfold uncompleted in Hun. apply negb_false_iff in Hun.
        now apply includes_In.
      * intros H q l Hq. apply H. now right.
Qed.

(** [getNextLesson] never throws and its unlock test never turns a lesson
    down: it returns the first lesson not completed of the first path, in
    insertion order, that has one.  So the lesson returned is not
    completed, and nothing is returned exactly when every lesson of every
    path is completed. *)
Theorem lessonManager_getNextLesson
  (m : LessonManager.t) (completed : list string) :
  LessonManager.getNextLesson completed m
  = Returned (firstUncompleted completed (LessonManager.getAllSkillPaths m))
  /\ (forall l,
        LessonManager.getNextLesson completed m = Returned (Some l) ->
        ~ In (Lesson.getId l) completed
        /\ exists p, In p (LessonManager.getAllSkillPaths m)
                     /\ In l (SkillPath.lessons p))
  /\ (LessonManager.getNextLesson completed m = Returned None <->
      forall p l, In p (LessonManager.getAllSkillPaths m) ->
                  In l (SkillPath.lessons p) ->
                  In (Lesson.getId l) completed).
Proof.
  unfold LessonManager.getNextLesson, LessonManager.getAllSkillPaths.
  rewrite nextAmong_spec. split; [reflexivity |]. split.
  - intros l [= H]. revert H.
    induction (JsMap.values (LessonManager.skillPaths m)) as [| p rest IH];
      simpl; [discriminate |].
    destruct (find (uncompleted completed) (SkillPath.lessons p)) as [l0 |] eqn:E.
    + intros [= ->]. apply find_some in E. destruct E as [Hin Hun]. split.
      * intros Hc. apply includes_In in Hc. unfold uncompleted in Hun.
        rewrite Hc in Hun. discriminate.
      * exists p. split; [now left | exact Hin].
    + intros H. destruct (IH H) as [Hc [q [Hq Hl]]].
      split; [exact Hc |]. exists q. split; [now right | exact Hl].
  - rewrite <- firstUncompleted_None. split; [intros [= H]; exact H |].
    now intros ->.
Qed.

End PathProperties.

(** ** Registering lessons and paths *)

Section ManagerProperties.
Import QuestionEngine LessonContent Notions.

Lemma jsmap_get_set_same {V : Type} key (v : V) (m : JsMap.t V) :
  JsMap.get key (JsMap.set key v m) = Some v.
Proof.
  induction m as [| [k w] rest IH]; simpl.
  - now rewrite String.eqb_refl.
  - destruct (String.eqb key k) eqn:E; simpl; rewrite E; [reflexivity | exact IH].
Qed.

Lemma jsmap_get_set_other {V : Type} key key' (v : V) (m : JsMap.t V) :
  key' <> key -> JsMap.get key' (JsMap.set key v m) = JsMap.get key' m.
Proof.
  intros Hne. induction m as [| [k w] rest IH]; simpl.
  - apply String.eqb_neq in Hne. now rewrite Hne.
  - destruct (String.eqb key k) eqn:E; simpl.
    + apply String.eqb_eq in E. subst k.
      apply String.eqb_neq in Hne. now rewrite Hne.
    + now rewrite IH.
Qed.

Lemma addLessons_paths ls :
  forall m,
    LessonManager.skillPaths
      (fold_left (fun m lesson => LessonManager.addLesson lesson m) ls m)
    = LessonManager.skillPaths m.
Proof.
  induction ls as [| l rest IH]; intros m; simpl; [reflexivity |].
  now rewrite IH.
Qed.

Lemma getLessonById_addLesson lessonId l m :
  LessonManager.getLessonById lessonId (LessonManager.addLesson l m)
  = if String.eqb (Lesson.getId l) lessonId then Some l
    else LessonManager.getLessonById lessonId m.
Proof.
  unfold LessonManager.getLessonById, LessonManager.addLesson. simpl.
  destruct (String.eqb_spec (Lesson.getId l) lessonId) as [<- | Hne].
  - apply jsmap_get_set_same.
  - apply jsmap_get_set_other. congruence.
Qed.

Lemma find_app {A : Type} (f : A -> bool) (xs ys : list A) :
  find f (xs ++ ys)
  = match find f xs with
    | Some x => Some x
    | None => find f ys
    end.
Proof.
  induction xs as [| x rest IH]; simpl; [reflexivity |].
  now destruct (f x).
Qed.

Lemma getLessonById_addLessons lessonId ls :
  forall m,
    LessonManager.getLessonById lessonId
      (fold_left (fun m lesson => LessonManager.addLesson lesson m) ls m)
    = match find (fun l => String.eqb (Lesson.getId l) lessonId) (rev ls) with
      | Some l => Some l
      | None => LessonManager.getLessonById lessonId m
      end.
Proof.
  induction ls as [| l rest IH]; intros m; [reflexivity |].
  cbn [fold_left rev]. rewrite IH, find_app.
  destruct (find _ (rev rest)) as [l' |]; [reflexivity |].
  simpl. rewrite getLessonById_addLesson.
  now destruct (String.eqb (Lesson.getId l) lessonId).
Qed.

(** Insert and look up.  After [addSkillPath] the path is found under its
    id and the other paths are found as before; a lesson id resolves to
    the last lesson of the path that carries it, and to what it resolved to
    before when the path has none; so every lesson of the path can be
    looked up by its id.  After [addLesson] the lesson is found under its
    id, whatever was filed there before. *)
Theorem lessonManager_register
  (m : LessonManager.t) (p : SkillPath.t) (lesson : Lesson.t)
  (lessonId pathId : string) :
  LessonManager.getLessonById (Lesson.getId lesson)
                              (LessonManager.addLesson lesson m) = Some lesson
  /\ LessonManager.getSkillPathById (SkillPath.getId p)
                                    (LessonManager.addSkillPath p m) = Some p
  /\ (pathId <> SkillPath.getId p ->
      LessonManager.getSkillPathById pathId (LessonManager.addSkillPath p m)
      = LessonManager.getSkillPathById pathId m)
  /\ LessonManager.getLessonById lessonId (LessonManager.addSkillPath p m)
     = match find (fun l => String.eqb (Lesson.getId l) lessonId)
                  (rev (SkillPath.lessons p)) with
       | Some l => Some l
       | None => LessonManager.getLessonById lessonId m
       end
  /\ (In lesson (SkillPath.lessons p) ->
      exists l,
        LessonManager.getLessonById (Lesson.getId lesson)
                                    (LessonManager.addSkillPath p m) = Some l
        /\ Lesson.getId l = Lesson.getId lesson
        /\ In l (SkillPath.lessons p)).
Proof.
  assert (Hget : forall id,
             LessonManager.getLessonById id (LessonManager.addSkillPath p m)
             = match find (fun l => String.eqb (Lesson.getId l) id)
                          (rev (SkillPath.lessons p)) with
               | Some l => Some l
               | None => LessonManager.getLessonById id m
               end).
  { intros id. unfold LessonManager.addSkillPath. cbv zeta.
    now rewrite getLessonById_addLessons. }
  split; [| split; [| split; [| split]]].
  - rewrite getLessonById_addLesson. now rewrite String.eqb_refl.
  - unfold LessonManager.getSkillPathById, LessonManager.addSkillPath.
    cbv zeta. rewrite addLessons_paths. simpl. apply jsmap_get_set_same.
  - intros Hne. unfold LessonManager.getSkillPathById, LessonManager.addSkillPath.
    cbv zeta. rewrite addLessons_paths. simpl.
    now apply jsmap_get_set_other.
  - apply Hget.
  - intros Hin. rewrite Hget.
    destruct (find (fun l => String.eqb (Lesson.getId l) (Lesson.getId lesson))
                   (rev (SkillPath.lessons p))) as [l |] eqn:E.
    + apply find_some in E. destruct E as [Hl Hid].
      exists l. split; [reflexivity |].
      split; [now apply String.eqb_eq | now apply in_rev].
    + exfalso. apply in_rev in Hin.
      pose proof (find_none _ _ E lesson Hin) as Hno. simpl in Hno.
      now rewrite String.eqb_refl in Hno.
Qed.

Lemma filter_length_full {A : Type} (f : A -> bool) (xs : list A) :
  (List.length (filter f xs) <= List.length xs)%nat
  /\ (List.length (filter f xs) = List.length xs <-> forallb f xs = true).
Proof.
  induction xs as [| x rest [IHle IHeq]]; simpl.
  - split; [lia | tauto].
  - destruct (f x); simpl.
    + split; [lia |]. rewrite <- IHeq. lia.
    + split; [lia |]. split; [lia | discriminate].
Qed.

(** The progress along a path of up to 300 lessons, computed in binary64
    as in the source, is a percentage between 0 and 100, and it is 100
    exactly when the path has a lesson and the ids of all its lessons are
    among the completed ones; without lessons it is 0. *)
Theorem skillPath_getProgress (p : SkillPath.t) (completed : list string) :
  (List.length (SkillPath.lessons p) <= 300)%nat ->
  0 <= SkillPath.getProgress completed p <= 100
  /\ (SkillPath.getProgress completed p = 100 <->
      SkillPath.lessons p <> []
      /\ forall l, In l (SkillPath.lessons p) -> In (Lesson.getId l) completed)
  /\ (SkillPath.lessons p = [] -> SkillPath.getProgress completed p = 0).
Proof.
  intros Hsize. unfold SkillPath.getProgress.
  destruct (SkillPath.lessons p) as [| l0 ls] eqn:El.
  - simpl. split; [lia |]. split; [| reflexivity].
    split; [discriminate | intros [Hne _]; congruence].
  - set (done := fun lesson : Lesson.t =>
                   JsArray.includes completed (Lesson.getId lesson)).
    destruct (filter_length_full done (l0 :: ls)) as [Hle Hall].
    set (n := List.length (l0 :: ls)) in *.
    assert (Hn : (1 <= n <= 300)%nat) by (subst n; simpl in *; lia).
    destruct (Z.eqb_spec (Z.of_nat n) 0) as [H0 | _]; [lia |].
    cbv zeta.
    fold (progressOf (Z.of_nat (List.length (filter done (l0 :: ls))))
                     (Z.of_nat n)).
    destruct (@progressOf_ok (List.length (filter done (l0 :: ls))) n Hn Hle)
      as [Hrange Hfull].
    split; [exact Hrange |]. split; [| discriminate].
    rewrite Hfull, Hall, forallb_forall. split.
    + intros H. split; [discriminate |].
      intros l Hl. apply includes_In. now apply H.
    + intros [_ H] l Hl. apply includes_In. now apply H.
Qed.

Lemma skillPath_getProgress_witness :
  0 <= SkillPath.getProgress ["greetings-1"]
         (SkillPath.addLesson
            (Lesson.new "phrases-1" "Common Phrases" "Phrases" medium)
            (SkillPath.addLesson
               (Lesson.new "greetings-1" "Basic Greetings" "Greetings" easy)
               (SkillPath.new "beginner" "Beginner English" "Start")))
    <= 100.
Proof.
  apply (@skillPath_getProgress
           (SkillPath.addLesson
              (Lesson.new "phrases-1" "Common Phrases" "Phrases" medium)
              (SkillPath.addLesson
                 (Lesson.new "greetings-1" "Basic Greetings" "Greetings" easy)
                 (SkillPath.new "beginner" "Beginner English" "Start")))
           ["greetings-1"]).
  simpl. lia.
Defined.

End ManagerProperties.

(** ** The game *)

Section GameProperties.
Import Clock QuestionEngine Gamification LessonContent Vocabulary Notions.
Import LanguageLearningGame.

Lemma returned_points q answer isFirstTry r :
  QuestionEngine.checkAnswer q answer isFirstTry = Returned r ->
  QuestionEngine.points r
  = if QuestionEngine.isCorrect r
    then basePoints (getDifficulty q) + bonus isFirstTry else 0.
Proof.
  destruct q as [mc | tq | fq]; simpl.
  - unfold MultipleChoiceQuestion.checkAnswer.
    destruct (indexNumber _ _) as [correct |]; [| discriminate].
    destruct (String.eqb _ _); intros [= <-]; simpl; [| reflexivity].
    apply calculatePoints_spec.
  - intros [= <-]. unfold TranslationQuestion.checkAnswer.
    destruct (TranslationQuestion.scan _ _ _ _) as [r |] eqn:E; [| reflexivity].
    apply translation_scan_points in E. now destruct E as [-> ->].
  - intros [= <-]. unfold FillInBlankQuestion.checkAnswer.
    destruct (FillInBlankQuestion.scan _ _ _ _) as [r |] eqn:E; [| reflexivity].
    apply fillInBlank_scan_points in E. now destruct E as [-> ->].
Qed.

Lemma basePoints_range d : 5 <= basePoints d <= 15.
Proof. destruct d; vm_compute; split; discriminate. Qed.

Lemma conclude_run previous r pts lvl g clock k :
  exists tracker names k',
    conclude previous r pts lvl g clock k
    = (Returned
         (mkReply (mkAnswer (QuestionEngine.isCorrect r)
                            (QuestionEngine.feedback r) pts)
                  lvl names
                  (ComboSystem.currentCombo (comboSystem g))
                  (EnergySystem.currentEnergy (energySystem g))),
       mk (userProgress g) tracker (comboSystem g) (energySystem g)
          (lessonManager g),
       k').
Proof.
  unfold conclude, bind.
  destruct (AchievementTracker.checkLessonCompletion _ _ clock k) as [t1 k1].
  destruct (AchievementTracker.checkStreak _ t1 clock k1) as [t2 k2].
  unfold ret. eauto.
Qed.

Lemma completeLesson_run tz lessonId g clock k :
  exists tracker k',
    completeLesson tz lessonId g clock k
    = (mk (fst (UserProgress.recordActivity
                  tz None
                  (UserProgress.completeLesson lessonId (userProgress g))
                  clock k))
          tracker (comboSystem g) (energySystem g)
          (match LessonManager.getLessonById lessonId (lessonManager g) with
           | Some lesson =>
               withLesson lessonId (Lesson.markCompleted lesson)
                          (lessonManager g)
           | None => lessonManager g
           end),
       k').
Proof.
  unfold completeLesson, bind.
  destruct (UserProgress.recordActivity _ _ _ clock k) as [p2 k2].
  destruct (AchievementTracker.checkLessonCompletion _ _ clock k2) as [t1 k1].
  unfold ret. simpl. eauto.
Qed.

Lemma addXP_nonneg amount s :
  0 <= amount ->
  UserProgress.addXP amount s
  = (Returned (UserProgress.level (snd (UserProgress.addXP amount s))
               >? UserProgress.level s),
     snd (UserProgress.addXP amount s))
  /\ UserProgress.xp (snd (UserProgress.addXP amount s))
     = UserProgress.xp s + amount
  /\ UserProgress.streak (snd (UserProgress.addXP amount s))
     = UserProgress.streak s
  /\ UserProgress.completedLessons (snd (UserProgress.addXP amount s))
     = UserProgress.completedLessons s
  /\ UserProgress.lastActivityDate (snd (UserProgress.addXP amount s))
     = UserProgress.lastActivityDate s.
Proof.
  intros Ha. unfold UserProgress.addXP.
  destruct (Z.ltb_spec amount 0); [lia |]. cbn [snd].
  destruct (updateLevel_fields
              (UserProgress.mk (UserProgress.userId s)
                 (UserProgress.xp s + amount) (UserProgress.level s)
                 (UserProgress.streak s) (UserProgress.lastActivityDate s)
                 (UserProgress.completedLessons s)))
    as [_ [Hx [Hs [Hl Hc]]]].
  rewrite Hx, Hs, Hc, Hl. repeat split.
Qed.

(** A wrong answer, once the question is found and checked. *)
Lemma answerQuestion_wrong tz lessonId questionIndex answer g clock k
      lesson question r :
  EnergySystem.hasEnergy (energySystem g) = true ->
  LessonManager.getLessonById lessonId (lessonManager g) = Some lesson ->
  index (Lesson.questions lesson) questionIndex = Some question ->
  QuestionEngine.checkAnswer question answer true = Returned r ->
  QuestionEngine.isCorrect r = false ->
  exists tracker names k',
    answerQuestion tz lessonId questionIndex answer g clock k
    = (Returned
         (mkReply (mkAnswer false (QuestionEngine.feedback r) 0) false names 0
                  (EnergySystem.currentEnergy (energySystem g) - 1)),
       mk (userProgress g) tracker
          (ComboSystem.mk 0 (ComboSystem.highestCombo (comboSystem g)))
          (EnergySystem.mk (EnergySystem.maxEnergy (energySystem g))
                           (EnergySystem.currentEnergy (energySystem g) - 1)
                           (clock k))
          (lessonManager g),
       k').
Proof.
  intros He Hl Hq Hr Hc. unfold answerQuestion.
  rewrite He, Hl, Hq, Hr, Hc. cbn [negb].
  pose proof (returned_points _ _ _ Hr) as Hp. rewrite Hc in Hp.
  rewrite Hp. unfold bind.
  unfold EnergySystem.hasEnergy in He.
  unfold EnergySystem.recordAnswer at 1. rewrite He. cbn [negb andb].
  unfold bind, Date_now, ret.
  match goal with
  | |- context [conclude ?p ?r ?pts ?lvl ?g ?c ?k] =>
      destruct (conclude_run p r pts lvl g c k) as [tracker [names [k' ->]]]
  end.
  rewrite Hc. cbn.
  exists tracker, names, k'. reflexivity.
Qed.

(** A correct answer, once the question is found and checked. *)
Lemma answerQuestion_correct tz lessonId questionIndex answer g clock k
      lesson question r :
  EnergySystem.hasEnergy (energySystem g) = true ->
  LessonManager.getLessonById lessonId (lessonManager g) = Some lesson ->
  index (Lesson.questions lesson) questionIndex = Some question ->
  QuestionEngine.checkAnswer question answer true = Returned r ->
  QuestionEngine.isCorrect r = true ->
  let combo1 := ComboSystem.recordAnswer true (comboSystem g) in
  let pts := ComboSystem.calculatePoints
               (basePoints (getDifficulty question) + 5) combo1 in
  let progress1 := snd (UserProgress.addXP pts (userProgress g)) in
  let lesson1 := Lesson.recordQuestionAnswer questionIndex true lesson in
  let done := Lesson.getProgress lesson1 =? 100 in
  exists tracker names k',
    answerQuestion tz lessonId questionIndex answer g clock k
    = (Returned
         (mkReply (mkAnswer true (QuestionEngine.feedback r) pts)
                  (UserProgress.level progress1
                   >? UserProgress.level (userProgress g))
                  names (ComboSystem.currentCombo combo1)
                  (EnergySystem.currentEnergy (energySystem g))),
       mk (if done
           then fst (UserProgress.recordActivity
                       tz None
                       (UserProgress.completeLesson lessonId progress1)
                       clock k)
           else progress1)
          tracker combo1 (energySystem g)
          (if done
           then withLesson lessonId (Lesson.markCompleted lesson1)
                           (withLesson lessonId lesson1 (lessonManager g))
           else withLesson lessonId lesson1 (lessonManager g)),
       k')
    /\ 0 <= pts.
Proof.
  intros He Hl Hq Hr Hc combo1 pts progress1 lesson1 done.
  pose proof (returned_points _ _ _ Hr) as Hp. rewrite Hc in Hp.
  change (bonus true) with 5 in Hp.
  assert (Hpts : 0 <= pts).
  { subst pts. rewrite calculatePoints_formula.
    pose proof (basePoints_range (getDifficulty question)).
    repeat destruct (_ >=? _); try lia.
    apply Z.div_pos; lia. }
  unfold answerQuestion. rewrite He, Hl, Hq, Hr, Hc. cbn [negb].
  rewrite Hp. fold combo1. fold pts.
  destruct (addXP_nonneg (userProgress g) Hpts) as [Hxp _].
  rewrite Hxp. fold progress1. fold lesson1. unfold bind.
  destruct (Z.eqb_spec (Lesson.getProgress lesson1) 100) as [Hdone | Hnot];
    subst done.
  - match goal with
    | |- context [completeLesson ?z ?i ?g0 ?c ?k0] =>
        destruct (completeLesson_run z i g0 c k0) as [tr1 [k1 Hrun]]
    end.
    rewrite Hrun. cbn [userProgress lessonManager comboSystem energySystem].
    unfold LessonManager.getLessonById, withLesson at 1.
    cbn [LessonManager.lessons]. rewrite jsmap_get_set_same.
    match goal with
    | |- context [conclude ?p ?r0 ?x ?lvl ?g0 ?c ?k0] =>
        destruct (conclude_run p r0 x lvl g0 c k0) as [tracker [names [k' ->]]]
    end.
    rewrite Hc.
    cbn [userProgress lessonManager comboSystem energySystem].
    destruct (Z.eqb_spec (Lesson.getProgress lesson1) 100); [| contradiction].
    exists tracker, names, k'. split; [reflexivity | exact Hpts].
  - unfold ret at 1.
    match goal with
    | |- context [conclude ?p ?r0 ?x ?lvl ?g0 ?c ?k0] =>
        destruct (conclude_run p r0 x lvl g0 c k0) as [tracker [names [k' ->]]]
    end.
    rewrite Hc.
    cbn [userProgress lessonManager comboSystem energySystem].
    destruct (Z.eqb_spec (Lesson.getProgress lesson1) 100); [contradiction |].
    exists tracker, names, k'. split; [reflexivity | exact Hpts].
Qed.

Lemma comboPoints_at_least basePoints s :
  0 <= basePoints -> basePoints <= ComboSystem.calculatePoints basePoints s.
Proof.
  intros Hb. rewrite calculatePoints_formula.
  repeat destruct (_ >=? _); try lia.
  pose proof (Z.div_mod (3 * basePoints) 2 ltac:(lia)).
  pose proof (Z.mod_pos_bound (3 * basePoints) 2 ltac:(lia)).
  lia.
Qed.

(** What a call that returns has gone through. *)
Lemma answerQuestion_returned tz lessonId questionIndex answer g clock k
      reply g' :
  fst (answerQuestion tz lessonId questionIndex answer g clock k)
  = (Returned reply, g') ->
  EnergySystem.hasEnergy (energySystem g) = true
  /\ exists lesson question r,
      LessonManager.getLessonById lessonId (lessonManager g) = Some lesson
      /\ index (Lesson.questions lesson) questionIndex = Some question
      /\ QuestionEngine.checkAnswer question answer true = Returned r
      /\ isCorrect (result reply) = QuestionEngine.isCorrect r.
Proof.
  destruct (EnergySystem.hasEnergy (energySystem g)) eqn:He;
    [| unfold answerQuestion; rewrite He; discriminate].
  destruct (LessonManager.getLessonById lessonId (lessonManager g))
    as [lesson |] eqn:Hl;
    [| unfold answerQuestion; rewrite He, Hl; discriminate].
  destruct (index (Lesson.questions lesson) questionIndex)
    as [question |] eqn:Hq;
    [| unfold answerQuestion; rewrite He, Hl, Hq; discriminate].
  destruct (QuestionEngine.checkAnswer question answer true) as [r | e] eqn:Hr;
    [| unfold answerQuestion; rewrite He, Hl, Hq, Hr; discriminate].
  intros Hrun. split; [reflexivity |]. exists lesson, question, r.
  split; [reflexivity |]. split; [exact Hq |]. split; [exact Hr |].
  destruct (QuestionEngine.isCorrect r) eqn:Hc.
  - destruct (@answerQuestion_correct tz lessonId questionIndex answer g clock k
                lesson question r He Hl Hq Hr Hc)
      as [tracker [names [k' [Heq _]]]].
    rewrite Heq in Hrun. cbn [fst] in Hrun. now injection Hrun as <- _.
  - destruct (@answerQuestion_wrong tz lessonId questionIndex answer g clock k
                lesson question r He Hl Hq Hr Hc)
      as [tracker [names [k' Heq]]].
    rewrite Heq in Hrun. cbn [fst] in Hrun. now injection Hrun as <- _.
Qed.

(** Failures come first and change nothing.  [answerQuestion] throws in
    four cases, tested in this order: no energy left; no lesson under the
    id; no question at the index; the check of the question throws.  Each
    time the game is left exactly as it was and the clock is not read.  In
    every other case the call returns: in particular it never passes a
    negative amount to [addXP]. *)
Theorem game_answerQuestion_failures
  (tz : JsDate.TimeZone) (lessonId : string) (questionIndex : Z)
  (answer : string) (g : LanguageLearningGame.t) (clock : nat -> Z) (k : nat) :
  let run := answerQuestion tz lessonId questionIndex answer g clock k in
  match fst (fst run) with
  | Thrown e =>
      snd (fst run) = g /\ snd run = k
      /\ if negb (EnergySystem.hasEnergy (energySystem g)) then
           e = Error "No energy remaining. Wait for regeneration or refill."
         else
           match LessonManager.getLessonById lessonId (lessonManager g) with
           | None => e = Error "Lesson not found"
           | Some lesson =>
               match index (Lesson.questions lesson) questionIndex with
               | None => e = Error "Question not found"
               | Some question =>
                   QuestionEngine.checkAnswer question answer true = Thrown e
               end
           end
  | Returned reply =>
      EnergySystem.hasEnergy (energySystem g) = true
      /\ exists lesson question r,
          LessonManager.getLessonById lessonId (lessonManager g) = Some lesson
          /\ index (Lesson.questions lesson) questionIndex = Some question
          /\ QuestionEngine.checkAnswer question answer true = Returned r
          /\ isCorrect (result reply) = QuestionEngine.isCorrect r
  end.
Proof.
  intros run.
  destruct (fst (fst run)) as [reply | e] eqn:Hout.
  - apply (@answerQuestion_returned tz lessonId questionIndex answer g clock k
             reply (snd (fst run))).
    fold run. rewrite <- Hout. now destruct (fst run).
  - subst run. revert Hout. unfold answerQuestion.
    destruct (EnergySystem.hasEnergy (energySystem g)) eqn:He; cbn [negb];
      [| intros [= <-]; repeat split].
    destruct (LessonManager.getLessonById lessonId (lessonManager g))
      as [lesson |] eqn:Hl; [| intros [= <-]; repeat split].
    destruct (index (Lesson.questions lesson) questionIndex)
      as [question |] eqn:Hq; [| intros [= <-]; repeat split].
    destruct (QuestionEngine.checkAnswer question answer true)
      as [r | e'] eqn:Hr; [| intros [= <-]; repeat split].
    intros Hout. exfalso.
    destruct (QuestionEngine.isCorrect r) eqn:Hc.
    + destruct (@answerQuestion_correct tz lessonId questionIndex answer g
                  clock k lesson question r He Hl Hq Hr Hc)
        as [tracker [names [k' [Heq _]]]].
      unfold answerQuestion in Heq. rewrite He, Hl, Hq, Hr, Hc in Heq.
      cbn [negb] in Heq. rewrite Heq in Hout. discriminate.
    + destruct (@answerQuestion_wrong tz lessonId questionIndex answer g
                  clock k lesson question r He Hl Hq Hr Hc)
        as [tracker [names [k' Heq]]].
      unfold answerQuestion in Heq. rewrite He, Hl, Hq, Hr, Hc in Heq.
      cbn [negb] in Heq. rewrite Heq in Hout. discriminate.
Qed.

Lemma conclude_exact previous r pts lvl g clock k :
  let run := AchievementTracker.execAll (achievementChecks (userProgress g))
                                        (achievementTracker g) clock k in
  conclude previous r pts lvl g clock k
  = (Returned
       (mkReply (mkAnswer (QuestionEngine.isCorrect r)
                          (QuestionEngine.feedback r) pts)
                lvl (newlyUnlocked previous (fst run))
                (ComboSystem.currentCombo (comboSystem g))
                (EnergySystem.currentEnergy (energySystem g))),
     mk (userProgress g) (fst run) (comboSystem g) (energySystem g)
        (lessonManager g),
     snd run).
Proof.
  unfold conclude, achievementChecks, newlyUnlocked.
  cbn [AchievementTracker.execAll AchievementTracker.exec]. unfold bind.
  destruct (AchievementTracker.checkLessonCompletion _ _ clock k) as [t1 k1].
  destruct (AchievementTracker.checkStreak _ t1 clock k1) as [t2 k2].
  reflexivity.
Qed.

Lemma answerQuestion_wrong_exact tz lessonId questionIndex answer g clock k
      lesson question r :
  EnergySystem.hasEnergy (energySystem g) = true ->
  LessonManager.getLessonById lessonId (lessonManager g) = Some lesson ->
  index (Lesson.questions lesson) questionIndex = Some question ->
  QuestionEngine.checkAnswer question answer true = Returned r ->
  QuestionEngine.isCorrect r = false ->
  let run := AchievementTracker.execAll (achievementChecks (userProgress g))
                                        (achievementTracker g) clock (S k) in
  answerQuestion tz lessonId questionIndex answer g clock k
  = (Returned
       (mkReply (mkAnswer false (QuestionEngine.feedback r) 0) false
                (newlyUnlocked
                   (AchievementTracker.getUnlockedAchievements
                      (achievementTracker g))
                   (fst run))
                0
                (EnergySystem.currentEnergy (energySystem g) - 1)),
     mk (userProgress g) (fst run)
        (ComboSystem.mk 0 (ComboSystem.highestCombo (comboSystem g)))
        (EnergySystem.mk (EnergySystem.maxEnergy (energySystem g))
                         (EnergySystem.currentEnergy (energySystem g) - 1)
                         (clock k))
        (lessonManager g),
     snd run).
Proof.
  intros He Hl Hq Hr Hc run. unfold answerQuestion.
  rewrite He, Hl, Hq, Hr, Hc. cbn [negb].
  pose proof (returned_points _ _ _ Hr) as Hp. rewrite Hc in Hp.
  rewrite Hp. unfold bind.
  unfold EnergySystem.hasEnergy in He.
  unfold EnergySystem.recordAnswer at 1. rewrite He. cbn [negb andb].
  unfold bind, Date_now, ret.
  rewrite conclude_exact. rewrite Hc. reflexivity.
Qed.

Lemma set_get_same key a (m : AMap.t) :
  AMap.get key m = Some a -> AMap.set key a m = m.
Proof.
  induction m as [| [k b] rest IH]; simpl; [discriminate |].
  destruct (String.eqb_spec key k) as [-> | Hne].
  - now intros [= ->].
  - intros H. now rewrite IH.
Qed.

(** Unlocking what is unlocked changes nothing and reads no clock. *)
Lemma unlockAt_again key tr clock k :
  isUnlockedAt key tr = true -> AchievementTracker.unlockAt key tr clock k = (tr, k).
Proof.
  unfold isUnlockedAt, AchievementTracker.unlockAt.
  destruct (AMap.get key (AchievementTracker.achievements tr)) as [a |] eqn:E;
    [| discriminate].
  intros Hun. unfold bind. rewrite (unlock_unlocked a clock k Hun).
  unfold ret. rewrite (set_get_same _ _ E). now destruct tr.
Qed.

Lemma exec_again c tr clock k :
  (forall key, triggers c key = true -> isUnlockedAt key tr = true) ->
  AchievementTracker.exec c tr clock k = (tr, k).
Proof.
  intros H.
  assert (Hgo : forall (go : bool) key tr k,
             (go = true -> isUnlockedAt key tr = true) ->
             (if go then AchievementTracker.unlockAt key tr
              else ret tr) clock k = (tr, k)).
  { intros [|] key tr0 k0 Hkey; [| reflexivity].
    apply unlockAt_again. now apply Hkey. }
  destruct c as [n | n]; cbn [AchievementTracker.exec];
    unfold AchievementTracker.checkLessonCompletion,
      AchievementTracker.checkStreak, bind.
  - rewrite Hgo.
    + apply Hgo. intros Hn. apply H. cbn [triggers]. rewrite Hn. reflexivity.
    + intros Hn. apply H. cbn [triggers]. rewrite Hn. reflexivity.
  - rewrite Hgo.
    + apply Hgo. intros Hn. apply H. cbn [triggers]. rewrite Hn. reflexivity.
    + intros Hn. apply H. cbn [triggers]. rewrite Hn. reflexivity.
Qed.

Lemma execAll_again cs tr clock k :
  (forall key, existsb (fun c => triggers c key) cs = true ->
               isUnlockedAt key tr = true) ->
  AchievementTracker.execAll cs tr clock k = (tr, k).
Proof.
  induction cs as [| c rest IH]; intros H; [reflexivity |].
  cbn [AchievementTracker.execAll]. unfold bind.
  rewrite exec_again.
  - apply IH. intros key Hkey. apply H. cbn [existsb]. rewrite Hkey.
    apply orb_true_r.
  - intros key Hkey. apply H. cbn [existsb]. now rewrite Hkey.
Qed.

(** Against its own unlocked achievements a tracker has nothing new. *)
Lemma newlyUnlocked_same tr :
  newlyUnlocked (AchievementTracker.getUnlockedAchievements tr) tr = [].
Proof.
  unfold newlyUnlocked.
  set (l := AchievementTracker.getUnlockedAchievements tr).
  assert (H : forall l', incl l' l ->
            filter (fun a =>
                      negb (existsb (fun pa => String.eqb (data_id pa)
                                                          (data_id a)) l))
                   l' = []).
  { induction l' as [| a rest IH]; intros Hincl; [reflexivity |].
    cbn [filter].
    assert (Ha : existsb (fun pa => String.eqb (data_id pa) (data_id a)) l
                 = true).
    { apply existsb_exists. exists a. split.
      - apply Hincl. now left.
      - apply String.eqb_refl. }
    rewrite Ha. cbn [negb]. apply IH.
    intros x Hx. apply Hincl. now right. }
  rewrite (H l (incl_refl l)). reflexivity.
Qed.

(** A wrong answer costs one energy and the combo: no points, no level,
    the progress of the user and the lessons untouched, the highest combo
    kept, and the energy stamped with the clock's reading.  The two
    achievement checks run all the same, from the next reading of the
    clock on: the tracker is what they leave, the reply names the
    achievements they unlock, and when every achievement the lesson count
    and the streak have earned is unlocked already, the tracker stays as
    it is, the reply names none and the clock is read once. *)
Theorem game_wrong_answer
  (tz : JsDate.TimeZone) (lessonId : string) (questionIndex : Z)
  (answer : string) (g : LanguageLearningGame.t) (clock : nat -> Z) (k : nat)
  (reply : Reply) (g' : LanguageLearningGame.t) :
  fst (answerQuestion tz lessonId questionIndex answer g clock k)
  = (Returned reply, g') ->
  isCorrect (result reply) = false ->
  points (result reply) = 0
  /\ leveledUp reply = false
  /\ combo reply = 0
  /\ energy reply = EnergySystem.currentEnergy (energySystem g) - 1
  /\ 0 <= energy reply
  /\ userProgress g' = userProgress g
  /\ lessonManager g' = lessonManager g
  /\ comboSystem g'
     = ComboSystem.mk 0 (ComboSystem.highestCombo (comboSystem g))
  /\ energySystem g'
     = EnergySystem.mk (EnergySystem.maxEnergy (energySystem g))
                       (EnergySystem.currentEnergy (energySystem g) - 1)
                       (clock k)
  /\ achievementTracker g'
     = fst (AchievementTracker.execAll
              (achievementChecks (userProgress g)) (achievementTracker g)
              clock (S k))
  /\ newAchievements reply
     = newlyUnlocked
         (AchievementTracker.getUnlockedAchievements (achievementTracker g))
         (achievementTracker g')
  /\ (hasCatalogKeys (achievementTracker g) ->
      forall key,
        isUnlockedAt key (achievementTracker g')
        = isUnlockedAt key (achievementTracker g)
          || existsb (fun c => triggers c key)
                     (achievementChecks (userProgress g)))
  /\ ((forall key,
          existsb (fun c => triggers c key)
                  (achievementChecks (userProgress g)) = true ->
          isUnlockedAt key (achievementTracker g) = true) ->
      achievementTracker g' = achievementTracker g
      /\ newAchievements reply = []
      /\ snd (answerQuestion tz lessonId questionIndex answer g clock k)
         = S k).
Proof.
  intros Hrun Hwrong.
  destruct (answerQuestion_returned _ _ _ _ _ _ _ Hrun)
    as [He [lesson [question [r [Hl [Hq [Hr Hc]]]]]]].
  rewrite Hwrong in Hc. symmetry in Hc.
  pose proof (@answerQuestion_wrong_exact tz lessonId questionIndex answer g
                clock k lesson question r He Hl Hq Hr Hc) as Heq.
  cbv zeta in Heq.
  set (run := AchievementTracker.execAll
                (achievementChecks (userProgress g)) (achievementTracker g)
                clock (S k)) in *.
  assert (Hunlocked :
            hasCatalogKeys (achievementTracker g) ->
            forall key,
              isUnlockedAt key (fst run)
              = isUnlockedAt key (achievementTracker g)
                || existsb (fun c => triggers c key)
                           (achievementChecks (userProgress g))).
  { intros Hkeys key. subst run.
    exact (proj2 (@execAll_unlocked (achievementChecks (userProgress g)) key
                    (achievementTracker g) clock (S k) Hkeys)). }
  assert (Hagain :
            (forall key,
                existsb (fun c => triggers c key)
                        (achievementChecks (userProgress g)) = true ->
                isUnlockedAt key (achievementTracker g) = true) ->
            run = (achievementTracker g, S k)).
  { intros Hdone. subst run. now apply execAll_again. }
  clearbody run.
  rewrite Heq in Hrun |- *. cbn [fst snd] in Hrun |- *.
  injection Hrun as <- <-.
  cbn [points result leveledUp combo energy userProgress lessonManager
       comboSystem energySystem achievementTracker newAchievements].
  unfold EnergySystem.hasEnergy in He. apply Z.gtb_lt in He.
  do 9 (split; [reflexivity || lia |]).
  split; [reflexivity |]. split; [reflexivity |]. split; [exact Hunlocked |].
  intros Hdone. rewrite (Hagain Hdone). cbn [fst snd].
  split; [reflexivity |]. split; [apply newlyUnlocked_same | reflexivity].
Qed.

(** A correct answer always earns the first-try bonus, also when the
    question has been answered before: the points are the base points of
    the question plus 5, times the multiplier of the combo the answer
    brings about.  They are added to the experience, the level flag tells
    whether the level has risen, the combo goes up by one, and the energy
    is left alone. *)
Theorem game_correct_answer
  (tz : JsDate.TimeZone) (lessonId : string) (questionIndex : Z)
  (answer : string) (g : LanguageLearningGame.t) (clock : nat -> Z) (k : nat)
  (reply : Reply) (g' : LanguageLearningGame.t) :
  fst (answerQuestion tz lessonId questionIndex answer g clock k)
  = (Returned reply, g') ->
  isCorrect (result reply) = true ->
  (exists lesson question,
      LessonManager.getLessonById lessonId (lessonManager g) = Some lesson
      /\ index (Lesson.questions lesson) questionIndex = Some question
      /\ points (result reply)
         = ComboSystem.calculatePoints
             (basePoints (getDifficulty question) + 5) (comboSystem g')
      /\ basePoints (getDifficulty question) + 5 <= points (result reply))
  /\ UserProgress.xp (userProgress g')
     = UserProgress.xp (userProgress g) + points (result reply)
  /\ leveledUp reply
     = (UserProgress.level (userProgress g')
        >? UserProgress.level (userProgress g))
  /\ comboSystem g' = ComboSystem.recordAnswer true (comboSystem g)
  /\ combo reply = ComboSystem.currentCombo (comboSystem g) + 1
  /\ energySystem g' = energySystem g
  /\ energy reply = EnergySystem.currentEnergy (energySystem g).
Proof.
  intros Hrun Hright.
  destruct (answerQuestion_returned _ _ _ _ _ _ _ Hrun)
    as [He [lesson [question [r [Hl [Hq [Hr Hc]]]]]]].
  rewrite Hright in Hc. symmetry in Hc.
  destruct (@answerQuestion_correct tz lessonId questionIndex answer g clock k
              lesson question r He Hl Hq Hr Hc)
    as [tracker [names [k' [Heq Hpts]]]].
  set (combo1 := ComboSystem.recordAnswer true (comboSystem g)) in *.
  set (pts := ComboSystem.calculatePoints
                (basePoints (getDifficulty question) + 5) combo1) in *.
  set (progress1 := snd (UserProgress.addXP pts (userProgress g))) in *.
  rewrite Heq in Hrun. cbn [fst] in Hrun. injection Hrun as <- <-.
  cbn [result points leveledUp combo energy userProgress comboSystem
       energySystem].
  destruct (addXP_nonneg (userProgress g) Hpts) as [_ [Hxp _]].
  fold progress1 in Hxp.
  assert (Hkeep :
            forall done : bool,
              UserProgress.xp
                (if done
                 then fst (UserProgress.recordActivity
                             tz None
                             (UserProgress.completeLesson lessonId progress1)
                             clock k)
                 else progress1) = UserProgress.xp progress1
              /\ UserProgress.level
                   (if done
                    then fst (UserProgress.recordActivity
                                tz None
                                (UserProgress.completeLesson lessonId progress1)
                                clock k)
                    else progress1) = UserProgress.level progress1).
  { intros [|]; [| split; reflexivity].
    destruct (recordActivity_fields
                tz None (UserProgress.completeLesson lessonId progress1) clock k)
      as [_ [-> [-> _]]].
    destruct (completeLesson_fields lessonId progress1) as [_ [-> [-> _]]].
    split; reflexivity. }
  destruct (Hkeep (Lesson.getProgress
                     (Lesson.recordQuestionAnswer questionIndex true lesson)
                   =? 100)) as [Hx Hlv].
  split.
  - exists lesson, question. split; [exact Hl |]. split; [exact Hq |].
    split; [reflexivity |].
    pose proof (basePoints_range (getDifficulty question)).
    assert (Hmul := @comboPoints_at_least
                      (basePoints (getDifficulty question) + 5) combo1
                      ltac:(lia)).
    exact Hmul.
  - rewrite Hx, Hlv, Hxp.
    split; [reflexivity |]. split; [reflexivity |]. split; [reflexivity |].
    split; [| split; reflexivity].
    subst combo1. unfold ComboSystem.recordAnswer.
    destruct (ComboSystem.currentCombo (comboSystem g) + 1
              >? ComboSystem.highestCombo (comboSystem g)); reflexivity.
Qed.

Lemma recordActivity_dated tz date s clock k :
  UserProgress.lastActivityDate
    (fst (UserProgress.recordActivity tz date s clock k)) <> None.
Proof.
  unfold UserProgress.recordActivity, bind.
  destruct (orNow date clock k) as [d k'].
  destruct (UserProgress.lastActivityDate s) as [last |] eqn:E;
    [| simpl; discriminate].
  destruct (_ =? 0); [simpl; rewrite E; discriminate |].
  destruct (_ =? 1); simpl; discriminate.
Qed.

Lemma getProgress_full l :
  builtLesson l ->
  (List.length (Lesson.questions l) <= 300)%nat ->
  Lesson.questions l <> [] ->
  (Lesson.getProgress l = 100 <->
   forallb (fun result => result) (Lesson.questionResults l) = true).
Proof.
  intros Hb Hsize Hne. pose proof (builtLesson_lengths Hb) as Hlen.
  unfold Lesson.getProgress.
  destruct (Lesson.questions l) as [| q qs] eqn:Eq; [congruence |].
  destruct (count_true_le (Lesson.questionResults l)) as [Hle Hall].
  set (n := List.length (q :: qs)) in *.
  assert (Hn : (1 <= n <= 300)%nat) by (subst n; simpl in *; lia).
  destruct (Z.eqb_spec (Z.of_nat n) 0) as [H0 | _]; [lia |].
  cbv zeta. fold (progressOf
    (Z.of_nat (List.length (filter (fun result => result)
                                   (Lesson.questionResults l))))
    (Z.of_nat n)).
  destruct (@progressOf_ok
              (List.length (filter (fun result => result)
                                   (Lesson.questionResults l)))
              n Hn ltac:(lia)) as [_ Hfull].
  now rewrite Hfull, <- Hall, Hlen.
Qed.

Lemma index_Some_nonempty {A : Type} (xs : list A) i x :
  index xs i = Some x -> xs <> [].
Proof.
  intros H ->. unfold index in H. destruct (i <? 0); [discriminate |].
  now destruct (Z.to_nat i).
Qed.

(** A correct answer completes the lesson exactly when the progress of the
    lesson, with this answer recorded, is 100: then the lesson is among
    the completed ones, it is marked completed, and an activity is
    recorded; otherwise the completed lessons, the streak and the recorded
    date stay as they were.  For a lesson of up to 300 questions that is
    exactly when every question is recorded as answered correctly. *)
Theorem game_lesson_completion
  (tz : JsDate.TimeZone) (lessonId : string) (questionIndex : Z)
  (answer : string) (g : LanguageLearningGame.t) (clock : nat -> Z) (k : nat)
  (reply : Reply) (g' : LanguageLearningGame.t) (lesson : Lesson.t) :
  fst (answerQuestion tz lessonId questionIndex answer g clock k)
  = (Returned reply, g') ->
  isCorrect (result reply) = true ->
  LessonManager.getLessonById lessonId (lessonManager g) = Some lesson ->
  let lesson1 := Lesson.recordQuestionAnswer questionIndex true lesson in
  (Lesson.getProgress lesson1 = 100 ->
   UserProgress.isLessonCompleted lessonId (userProgress g') = true
   /\ LessonManager.getLessonById lessonId (lessonManager g')
      = Some (Lesson.markCompleted lesson1)
   /\ UserProgress.lastActivityDate (userProgress g') <> None)
  /\ (Lesson.getProgress lesson1 <> 100 ->
      UserProgress.completedLessons (userProgress g')
      = UserProgress.completedLessons (userProgress g)
      /\ LessonManager.getLessonById lessonId (lessonManager g') = Some lesson1
      /\ UserProgress.streak (userProgress g')
         = UserProgress.streak (userProgress g)
      /\ UserProgress.lastActivityDate (userProgress g')
         = UserProgress.lastActivityDate (userProgress g))
  /\ (builtLesson lesson ->
      (List.length (Lesson.questions lesson) <= 300)%nat ->
      (Lesson.getProgress lesson1 = 100 <->
       forallb (fun result => result) (Lesson.questionResults lesson1) = true)).
Proof.
  intros Hrun Hright Hlesson lesson1.
  destruct (answerQuestion_returned _ _ _ _ _ _ _ Hrun)
    as [He [lesson0 [question [r [Hl [Hq [Hr Hc]]]]]]].
  rewrite Hlesson in Hl. injection Hl as <-.
  rewrite Hright in Hc. symmetry in Hc.
  destruct (@answerQuestion_correct tz lessonId questionIndex answer g clock k
              lesson question r He Hlesson Hq Hr Hc)
    as [tracker [names [k' [Heq Hpts]]]].
  set (combo1 := ComboSystem.recordAnswer true (comboSystem g)) in *.
  set (pts := ComboSystem.calculatePoints
                (basePoints (getDifficulty question) + 5) combo1) in *.
  set (progress1 := snd (UserProgress.addXP pts (userProgress g))) in *.
  fold lesson1 in Heq.
  rewrite Heq in Hrun. cbn [fst] in Hrun. injection Hrun as <- <-.
  cbn [userProgress lessonManager].
  destruct (addXP_nonneg (userProgress g) Hpts) as [_ [_ [Hst [Hcl Hla]]]].
  fold progress1 in Hst, Hcl, Hla.
  split; [| split].
  - intros Hdone. rewrite Hdone. cbn [Z.eqb Pos.eqb].
    destruct (recordActivity_fields
                tz None (UserProgress.completeLesson lessonId progress1) clock k)
      as [_ [_ [_ Hkeep]]].
    split; [| split].
    + unfold UserProgress.isLessonCompleted. rewrite Hkeep.
      fold (UserProgress.isLessonCompleted
              lessonId (UserProgress.completeLesson lessonId progress1)).
      unfold UserProgress.completeLesson.
      destruct (UserProgress.isLessonCompleted lessonId progress1) eqn:E;
        [exact E |].
      apply isLessonCompleted_In. simpl. apply in_or_app. right. now left.
    + unfold LessonManager.getLessonById, withLesson at 1.
      cbn [LessonManager.lessons]. apply jsmap_get_set_same.
    + apply recordActivity_dated.
  - intros Hnot.
    destruct (Z.eqb_spec (Lesson.getProgress lesson1) 100); [contradiction |].
    split; [exact Hcl |]. split; [| split; [exact Hst | exact Hla]].
    unfold LessonManager.getLessonById, withLesson.
    cbn [LessonManager.lessons]. apply jsmap_get_set_same.
  - intros Hb Hsize. apply getProgress_full.
    + now constructor.
    + subst lesson1. unfold Lesson.recordQuestionAnswer.
      destruct (_ && _); exact Hsize.
    + subst lesson1. unfold Lesson.recordQuestionAnswer.
      destruct (_ && _); exact (@index_Some_nonempty _ _ _ _ Hq).
Qed.

Lemma game_wrong_answer_witness :
  match fst (answerQuestion JsDate.utc "greetings-1" 0 "Goodbye" demoGame
                            (fun _ => 42) 0%nat) with
  | (Returned reply, g') =>
      energy reply = 4 /\ combo reply = 0
      /\ EnergySystem.lastUpdate (energySystem g') = 42
      /\ achievementTracker g' = achievementTracker demoGame
      /\ newAchievements reply = []
  | (Thrown _, _) => False
  end.
Proof.
  destruct (fst (answerQuestion JsDate.utc "greetings-1" 0 "Goodbye" demoGame
                                (fun _ => 42) 0%nat))
    as [[reply | e] g'] eqn:E.
  - pose proof E as E'. vm_compute in E'. injection E' as <- <-.
    destruct (@game_wrong_answer JsDate.utc "greetings-1" 0 "Goodbye" demoGame
                (fun _ => 42) 0%nat _ _ E eq_refl)
      as [_ [_ [Hcombo [Henergy [_ [_ [_ [_ [Hsys [_ [_ [_ Hdone]]]]]]]]]]]].
    split; [exact Henergy |]. split; [exact Hcombo |].
    split; [now rewrite Hsys |].
    assert (Hnone : forall key,
               existsb (fun c => triggers c key)
                       (achievementChecks (userProgress demoGame)) = true ->
               isUnlockedAt key (achievementTracker demoGame) = true).
    { intros key. cbn. rewrite !andb_false_r. discriminate. }
    destruct (Hdone Hnone) as [Htracker [Hnames _]].
    split; [exact Htracker | exact Hnames].
  - vm_compute in E. discriminate E.
Defined.

(** A wrong answer can unlock an achievement: [completeLesson] of the
    game, called on seven days in a row, takes the streak to 7 without a
    streak check; the streak check of the wrong answer that follows finds
    it, and the reply names the achievement. *)
Example wrong_answer_unlocks :
  let week := completeDaily 7 "greetings-1" demoGame dailyClock 0%nat in
  UserProgress.streak (userProgress (fst week)) = 7
  /\ isUnlockedAt "week-streak" (achievementTracker (fst week)) = false
  /\ match fst (answerQuestion JsDate.utc "greetings-1" 0 "Goodbye"
                               (fst week) dailyClock (snd week)) with
     | (Returned reply, g') =>
         isCorrect (result reply) = false
         /\ newAchievements reply = ["Week Warrior"]
         /\ isUnlockedAt "week-streak" (achievementTracker g') = true
     | (Thrown _, _) => False
     end.
Proof. vm_compute. repeat split. Qed.

Lemma game_correct_answer_witness :
  match fst (answerQuestion JsDate.utc "greetings-1" 0 " hello " demoGame
                            (fun _ => 42) 0%nat) with
  | (Returned reply, g') =>
      UserProgress.xp (userProgress g') = 10 /\ combo reply = 1
      /\ energy reply = 5
  | (Thrown _, _) => False
  end.
Proof.
  destruct (fst (answerQuestion JsDate.utc "greetings-1" 0 " hello " demoGame
                                (fun _ => 42) 0%nat))
    as [[reply | e] g'] eqn:E.
  - pose proof E as E'. vm_compute in E'. injection E' as <- <-.
    destruct (@game_correct_answer JsDate.utc "greetings-1" 0 " hello "
                demoGame (fun _ => 42) 0%nat _ _ E eq_refl)
      as [_ [Hxp [_ [_ [Hcombo [_ Henergy]]]]]].
    split; [exact Hxp |]. split; [exact Hcombo | exact Henergy].
  - vm_compute in E. discriminate E.
Defined.

Lemma game_lesson_completion_witness :
  match fst (answerQuestion JsDate.utc "greetings-1" 0 "hello" demoGame
                            (fun _ => 42) 0%nat) with
  | (Returned reply, g') =>
      UserProgress.completedLessons (userProgress g') = []
      /\ LessonManager.getLessonById "greetings-1" (lessonManager g')
         = Some (Lesson.recordQuestionAnswer 0 true demoLesson)
  | (Thrown _, _) => False
  end.
Proof.
  destruct (fst (answerQuestion JsDate.utc "greetings-1" 0 "hello" demoGame
                                (fun _ => 42) 0%nat))
    as [[reply | e] g'] eqn:E.
  - pose proof E as E'. vm_compute in E'. injection E' as <- <-.
    destruct (@game_lesson_completion JsDate.utc "greetings-1" 0 "hello"
                demoGame (fun _ => 42) 0%nat _ _ demoLesson E eq_refl eq_refl)
      as [_ [Hnot _]].
    destruct (Hnot ltac:(vm_compute; discriminate)) as [Hc [Hl _]].
    split; [exact Hc | exact Hl].
  - vm_compute in E. discriminate E.
Defined.

End GameProperties.

(** ** Binary64 arithmetic *)

(** The facts of binary64 arithmetic the classes rest on, from the
    specification of the operations in [SpecFloat]: sums and differences
    of integers are exact up to 2^53, so are their products by 1, 1.5 and 2
    within that range, comparisons of integers are those of the integers,
    and a sum of numbers not below zero is at least each of them. *)
Section Binary64Arithmetic.
Import JsNumber Floats.

Lemma fexp_eq e : fexp prec emax e = Z.max (e - 53) (-1074).
Proof. reflexivity. Qed.

Lemma digits2_pos_bounds (p : positive) :
  2 ^ (Z.pos (digits2_pos p) - 1) <= Z.pos p < 2 ^ Z.pos (digits2_pos p).
Proof.
  induction p as [p IH | p IH |]; cbn [digits2_pos].
  - rewrite Pos2Z.inj_succ, (Pos2Z.inj_xI p).
    replace (Z.succ (Z.pos (digits2_pos p)) - 1) with (Z.succ (Z.pos (digits2_pos p) - 1)) by lia.
    rewrite !Z.pow_succ_r by lia.
    lia.
  - rewrite Pos2Z.inj_succ, (Pos2Z.inj_xO p).
    replace (Z.succ (Z.pos (digits2_pos p)) - 1) with (Z.succ (Z.pos (digits2_pos p) - 1)) by lia.
    rewrite !Z.pow_succ_r by lia.
    lia.
  - simpl. lia.
Qed.

Lemma digits2_pos_unique (p : positive) (d : Z) :
  2 ^ (d - 1) <= Z.pos p < 2 ^ d -> Z.pos (digits2_pos p) = d.
Proof.
  intros [Hlo Hhi]. pose proof (digits2_pos_bounds p) as [Hlo' Hhi'].
  set (d' := Z.pos (digits2_pos p)) in *.
  assert (Hd' : 0 < d') by (subst d'; lia).
  destruct (Z.lt_trichotomy d d') as [Hlt | [Heq | Hgt]]; [| lia |].
  - exfalso. assert (2 ^ d <= 2 ^ (d' - 1)).
    { destruct (Z.le_gt_cases 0 d).
      - apply Z.pow_le_mono_r; lia.
      - rewrite (Z.pow_neg_r 2 d) by lia. apply Z.pow_nonneg. lia. }
    lia.
  - exfalso. assert (2 ^ d' <= 2 ^ (d - 1)) by (apply Z.pow_le_mono_r; lia). lia.
Qed.

Lemma digits2_pos_shift (p q : positive) (k : Z) :
  0 <= k -> Z.pos q = Z.pos p * 2 ^ k ->
  Z.pos (digits2_pos q) = Z.pos (digits2_pos p) + k.
Proof.
  intros Hk Hq. apply digits2_pos_unique. rewrite Hq.
  pose proof (digits2_pos_bounds p) as [Hlo Hhi].
  replace (Z.pos (digits2_pos p) + k - 1) with ((Z.pos (digits2_pos p) - 1) + k) by lia.
  rewrite !Z.pow_add_r by lia.
  assert (0 < 2 ^ k) by (apply Z.pow_pos_nonneg; lia).
  nia.
Qed.

Lemma digits2_pos_le (p q : positive) :
  Z.pos p <= Z.pos q -> Z.pos (digits2_pos p) <= Z.pos (digits2_pos q).
Proof.
  intros Hpq. pose proof (digits2_pos_bounds p) as [Hlo _].
  pose proof (digits2_pos_bounds q) as [_ Hhi].
  destruct (Z.le_gt_cases (Z.pos (digits2_pos p)) (Z.pos (digits2_pos q))) as [H | H];
    [exact H | exfalso].
  assert (2 ^ Z.pos (digits2_pos q) <= 2 ^ (Z.pos (digits2_pos p) - 1))
    by (apply Z.pow_le_mono_r; lia).
  lia.
Qed.

(** iter_pos as iteration over nat *)
Lemma iter_pos_nat {A : Type} (f : A -> A) (p : positive) (x : A) :
  iter_pos f p x = Nat.iter (Pos.to_nat p) f x.
Proof.
  revert x. induction p as [p IH | p IH |]; intros x; cbn [iter_pos].
  - rewrite !IH, Pos2Nat.inj_xI.
    replace (S (2 * Pos.to_nat p)) with (Pos.to_nat p + (Pos.to_nat p + 1))%nat by lia.
    rewrite !Nat.iter_add. simpl. reflexivity.
  - rewrite !IH, Pos2Nat.inj_xO.
    replace (2 * Pos.to_nat p)%nat with (Pos.to_nat p + Pos.to_nat p)%nat by lia.
    rewrite Nat.iter_add. reflexivity.
  - reflexivity.
Qed.

Lemma shr_1_m (r : shr_record) :
  0 <= shr_m r -> shr_m (shr_1 r) = shr_m r / 2.
Proof.
  destruct r as [m r s]. cbn [shr_m]. intros Hm.
  destruct m as [| p | p]; [reflexivity | | lia].
  destruct p as [p | p |]; cbn [shr_1 shr_m].
  - rewrite (Pos2Z.inj_xI p). apply (Z.div_unique _ _ _ 1); lia.
  - rewrite (Pos2Z.inj_xO p). apply (Z.div_unique _ _ _ 0); lia.
  - reflexivity.
Qed.

Lemma shr_iter_m (k : nat) (r : shr_record) :
  0 <= shr_m r -> shr_m (Nat.iter k shr_1 r) = shr_m r / 2 ^ Z.of_nat k.
Proof.
  intros Hm. induction k as [| k IH].
  - simpl. now rewrite Z.div_1_r.
  - change (Nat.iter (S k) shr_1 r) with (shr_1 (Nat.iter k shr_1 r)).
    rewrite shr_1_m.
    + rewrite IH, Nat2Z.inj_succ, Z.pow_succ_r by lia.
      rewrite Z.div_div by (try apply Z.pow_pos_nonneg; lia).
      f_equal. lia.
    + rewrite IH. apply Z.div_pos; [lia | apply Z.pow_pos_nonneg; lia].
Qed.

Lemma shr_iter_exact (k : nat) (m : Z) :
  0 <= m ->
  Nat.iter k shr_1 (Build_shr_record (m * 2 ^ Z.of_nat k) false false)
  = Build_shr_record m false false.
Proof.
  intros Hm. induction k as [| k IH].
  - simpl. f_equal. lia.
  - rewrite Nat.iter_succ_r.
    rewrite Nat2Z.inj_succ, Z.pow_succ_r by lia.
    replace (m * (2 * 2 ^ Z.of_nat k)) with (2 * (m * 2 ^ Z.of_nat k)) by lia.
    assert (Hx : 0 <= m * 2 ^ Z.of_nat k)
      by (apply Z.mul_nonneg_nonneg; [lia | apply Z.pow_nonneg; lia]).
    set (x := m * 2 ^ Z.of_nat k) in *.
    assert (Hstep : shr_1 (Build_shr_record (2 * x) false false)
                    = Build_shr_record x false false).
    { destruct x as [| p | p]; [reflexivity | reflexivity | lia]. }
    rewrite Hstep. exact IH.
Qed.

Lemma shr_exact (m e k : Z) :
  0 <= m -> 0 <= k ->
  shr (Build_shr_record (m * 2 ^ k) false false) e k
  = (Build_shr_record m false false, e + k).
Proof.
  intros Hm Hk. unfold shr. destruct k as [| p | p]; [| | lia].
  - simpl. f_equal; [f_equal |]; lia.
  - rewrite iter_pos_nat. rewrite <- (positive_nat_Z p) at 1.
    now rewrite shr_iter_exact.
Qed.

Lemma shr_m_value (r : shr_record) (e k : Z) :
  0 <= shr_m r -> 0 <= k ->
  shr_m (fst (shr r e k)) = shr_m r / 2 ^ k /\ snd (shr r e k) = e + k.
Proof.
  intros Hm Hk. unfold shr. destruct k as [| p | p]; [| | lia].
  - simpl. rewrite Z.div_1_r. split; lia.
  - cbn [fst snd]. rewrite iter_pos_nat, shr_iter_m by assumption.
    now rewrite positive_nat_Z.
Qed.

Lemma pos_iter_xO (m d : positive) :
  Z.pos (Pos.iter xO m d) = Z.pos m * 2 ^ Z.pos d.
Proof.
  induction d as [| d IH] using Pos.peano_ind.
  - simpl. lia.
  - rewrite Pos.iter_succ, Pos2Z.inj_xO, IH, Pos2Z.inj_succ, Z.pow_succ_r; lia.
Qed.

Lemma bounded_spec m e :
  bounded prec emax m e = true <->
  Z.max (Z.pos (digits2_pos m) + e - 53) (-1074) = e /\ e <= 971.
Proof.
  unfold bounded, canonical_mantissa. rewrite andb_true_iff, Z.eqb_eq, Z.leb_le.
  rewrite fexp_eq. reflexivity.
Qed.

Lemma binary_round_aux_exact s m e k :
  bounded prec emax m e = true -> 0 <= k ->
  binary_round_aux prec emax s (Z.pos m * 2 ^ k) (e - k) loc_Exact
  = S754_finite s m e.
Proof.
  intros Hb Hk. apply bounded_spec in Hb. destruct Hb as [Hc He].
  assert (Hpos : 0 < Z.pos m * 2 ^ k)
    by (apply Z.mul_pos_pos; [lia | apply Z.pow_pos_nonneg; lia]).
  destruct (Z.pos m * 2 ^ k) as [| q | q] eqn:Eq; [lia | | lia].
  unfold binary_round_aux, shr_fexp.
  cbn [Zdigits2 shr_record_of_loc].
  rewrite (@digits2_pos_shift m q k Hk (eq_sym Eq)), fexp_eq.
  replace (Z.pos (digits2_pos m) + k + (e - k) - 53)
    with (Z.pos (digits2_pos m) + e - 53) by lia.
  rewrite Hc. replace (e - (e - k)) with k by lia.
  rewrite <- Eq, shr_exact by lia.
  cbn [shr_m loc_of_shr_record round_nearest_even Zdigits2 shr_record_of_loc].
  replace (e - k + k) with e by lia.
  rewrite fexp_eq, Hc, Z.sub_diag. cbn [shr shr_m].
  change (emax - prec) with 971. apply Z.leb_le in He. now rewrite He.
Qed.

Lemma shl_align_le mx ex ex' :
  ex <= ex' -> shl_align mx ex ex' = (mx, ex).
Proof.
  intros H. unfold shl_align. destruct (ex' - ex) eqn:E; try reflexivity. lia.
Qed.

Lemma shl_align_gt mx ex ex' :
  ex' < ex ->
  exists q, shl_align mx ex ex' = (q, ex')
            /\ Z.pos q = Z.pos mx * 2 ^ (ex - ex').
Proof.
  intros H. unfold shl_align. destruct (ex' - ex) eqn:E; try lia.
  eexists. split; [reflexivity |]. rewrite pos_iter_xO. f_equal. f_equal. lia.
Qed.

Lemma shl_align_value mx ex ez :
  ez <= ex -> Z.pos (fst (shl_align mx ex ez)) = Z.pos mx * 2 ^ (ex - ez).
Proof.
  intros H. destruct (Z.eq_dec ez ex) as [-> | Hne].
  - rewrite shl_align_le by lia. rewrite Z.sub_diag. simpl. lia.
  - destruct (@shl_align_gt mx ex ez ltac:(lia)) as [q [-> Hq]]. exact Hq.
Qed.

(** A positive integer [n] that is [m * 2^k] for a canonical [m], [e]. *)
Lemma binary_round_exact_up s (n m : positive) e k :
  bounded prec emax m e = true -> 0 <= k ->
  Z.pos n = Z.pos m * 2 ^ k ->
  binary_round prec emax s n (e - k) = S754_finite s m e.
Proof.
  intros Hb Hk Hn. unfold binary_round.
  pose proof (proj1 (@bounded_spec m e) Hb) as [Hc He].
  rewrite (@digits2_pos_shift m n k Hk Hn), fexp_eq.
  replace (Z.pos (digits2_pos m) + k + (e - k) - 53)
    with (Z.pos (digits2_pos m) + e - 53) by lia.
  rewrite Hc, shl_align_le by lia.
  rewrite Hn. now apply binary_round_aux_exact.
Qed.

Lemma binary_round_exact_down s (n m : positive) e k :
  bounded prec emax m e = true -> 0 <= k ->
  Z.pos m = Z.pos n * 2 ^ k ->
  binary_round prec emax s n (e + k) = S754_finite s m e.
Proof.
  intros Hb Hk Hm. unfold binary_round.
  pose proof (proj1 (@bounded_spec m e) Hb) as [Hc He].
  pose proof (@digits2_pos_shift n m k Hk Hm) as Hd.
  rewrite fexp_eq.
  replace (Z.pos (digits2_pos n) + (e + k) - 53)
    with (Z.pos (digits2_pos m) + e - 53) by lia.
  rewrite Hc.
  destruct (Z.eq_dec k 0) as [-> | Hk0].
  - rewrite shl_align_le by lia.
    assert (m = n) by (rewrite Z.pow_0_r in Hm; lia). subst n.
    replace (Z.pos m) with (Z.pos m * 2 ^ 0) by (simpl; lia).
    replace (e + 0) with (e - 0) by lia.
    apply binary_round_aux_exact; [exact Hb | lia].
  - destruct (@shl_align_gt n (e + k) e ltac:(lia)) as [q [-> Hq]].
    replace (e + k - e) with k in Hq by lia.
    assert (q = m) by lia. subst q.
    replace (Z.pos m) with (Z.pos m * 2 ^ 0) by (simpl; lia).
    replace e with (e - 0) at 1 by lia.
    apply binary_round_aux_exact; [exact Hb | lia].
Qed.

Lemma pow2_pos k : 0 <= k -> 0 < 2 ^ k.
Proof. intros. apply Z.pow_pos_nonneg; lia. Qed.

Lemma Repr_bounded n m e : Repr n m e -> bounded prec emax m e = true.
Proof.
  intros [He [Hd _]]. apply bounded_spec. rewrite Hd. lia.
Qed.

Lemma Repr_mantissa n m e : Repr n m e -> 2 ^ 52 <= Z.pos m < 2 ^ 53.
Proof.
  intros [_ [Hd _]]. pose proof (digits2_pos_bounds m) as H.
  rewrite Hd in H. exact H.
Qed.

Lemma Repr_exists n :
  1 <= n <= 2 ^ 53 -> exists m e, Repr n m e.
Proof.
  intros Hn. destruct n as [| p | p]; try lia.
  destruct (Z.eq_dec (Z.pos p) (2 ^ 53)) as [E | Hne].
  - exists (Z.to_pos (2 ^ 52)), 1. rewrite E. unfold Repr.
    split; [lia |]. split; reflexivity.
  - pose proof (digits2_pos_bounds p) as [Hlo Hhi].
    set (d := Z.pos (digits2_pos p)) in *.
    assert (Hd : 1 <= d <= 53).
    { split; [subst d; lia |].
      destruct (Z.le_gt_cases d 53) as [H | H]; [exact H | exfalso].
      assert (2 ^ 53 <= 2 ^ (d - 1)) by (apply Z.pow_le_mono_r; lia). lia. }
    assert (Hq : 0 < Z.pos p * 2 ^ (53 - d))
      by (apply Z.mul_pos_pos; [lia | apply pow2_pos; lia]).
    destruct (Z.pos p * 2 ^ (53 - d)) as [| q | q] eqn:Eq; try lia.
    exists q, (d - 53). unfold Repr. split; [lia |]. split.
    + rewrite (@digits2_pos_shift p q (53 - d) ltac:(lia) (eq_sym Eq)).
      fold d. lia.
    + rewrite <- Eq, <- Z.mul_assoc, <- Z.pow_add_r by lia.
      f_equal. f_equal. lia.
Qed.

Lemma Repr_pos n m e : Repr n m e -> 1 <= n.
Proof.
  intros [He [Hd Hv]].
  assert (0 < Z.pos m * 2 ^ (e + 52))
    by (apply Z.mul_pos_pos; [lia | apply pow2_pos; lia]).
  assert (0 < 2 ^ 52) by (apply pow2_pos; lia).
  nia.
Qed.

(** Order of canonical pairs is the order of the values. *)
Lemma Repr_compare a ma ea b mb eb :
  Repr a ma ea -> Repr b mb eb ->
  SFcompare (S754_finite false ma ea) (S754_finite false mb eb) = Some (a ?= b).
Proof.
  intros Ha Hb.
  pose proof (Repr_mantissa Ha) as Hma. pose proof (Repr_mantissa Hb) as Hmb.
  destruct Ha as [Hea [_ Hva]], Hb as [Heb [_ Hvb]].
  assert (H52 : 0 < 2 ^ 52) by (apply pow2_pos; lia).
  cbn [SFcompare]. f_equal.
  assert (Hlt : forall x mx ex y my ey,
             -52 <= ex -> ex < ey ->
             2 ^ 52 <= Z.pos mx < 2 ^ 53 -> 2 ^ 52 <= Z.pos my < 2 ^ 53 ->
             Z.pos mx * 2 ^ (ex + 52) = x * 2 ^ 52 ->
             Z.pos my * 2 ^ (ey + 52) = y * 2 ^ 52 -> x < y).
  { intros x mx ex y my ey Hex Hlt Hmx Hmy Hx Hy.
    replace (ey + 52) with ((ex + 52) + (ey - ex)) in Hy by lia.
    rewrite (Z.pow_add_r 2 (ex + 52) (ey - ex)) in Hy by lia.
    assert (Hp : 0 < 2 ^ (ex + 52)) by (apply pow2_pos; lia).
    assert (Hq : 2 ^ 1 <= 2 ^ (ey - ex)) by (apply Z.pow_le_mono_r; lia).
    change (2 ^ 1) with 2 in Hq. change (2 ^ 53) with (2 * 2 ^ 52) in *.
    set (A := 2 ^ 52) in *. set (P := 2 ^ (ex + 52)) in *.
    set (Q := 2 ^ (ey - ex)) in *. clearbody A P Q.
    assert (H1 : Z.pos mx * P < 2 * A * P) by nia.
    assert (H2 : 2 * A * P <= Z.pos my * P * 2) by nia.
    assert (H3 : Z.pos my * P * 2 <= Z.pos my * P * Q) by nia.
    nia. }
  destruct (Z.compare_spec ea eb) as [E | E | E].
  - subst eb.
    assert (Hp : 0 < 2 ^ (ea + 52)) by (apply pow2_pos; lia).
    rewrite Pos.compare_cont_spec. cbn [Pos.switch_Eq].
    change (ma ?= mb)%positive with (Z.pos ma ?= Z.pos mb).
    destruct (Z.compare_spec (Z.pos ma) (Z.pos mb)) as [E | E | E];
      symmetry.
    + apply Z.compare_eq_iff. nia.
    + apply Z.compare_lt_iff. nia.
    + apply Z.compare_gt_iff. nia.
  - symmetry. apply Z.compare_lt_iff.
    apply (Hlt a ma ea b mb eb); assumption || lia.
  - symmetry. apply Z.compare_gt_iff.
    apply (Hlt b mb eb a ma ea); assumption || lia.
Qed.

Lemma Repr_unique n m e m' e' : Repr n m e -> Repr n m' e' -> m = m' /\ e = e'.
Proof.
  intros H H'. pose proof (Repr_compare H H') as Hc.
  rewrite Z.compare_refl in Hc. cbn [SFcompare] in Hc.
  destruct (Z.compare_spec e e') as [E | E | E]; try discriminate.
  split; [| exact E].
  injection Hc as Hc. rewrite Pos.compare_cont_spec in Hc.
  apply Pos.compare_eq. now destruct (m ?= m')%positive.
Qed.

(** Rounding an integer that a canonical pair represents gives the pair. *)
Lemma normalize_Repr (q : positive) (ez n : Z) m e :
  -52 <= ez -> Z.pos q * 2 ^ (ez + 52) = n * 2 ^ 52 -> Repr n m e ->
  binary_normalize prec emax (Z.pos q) ez false = S754_finite false m e.
Proof.
  intros Hez Hq Hr. pose proof (Repr_bounded Hr) as Hb.
  destruct Hr as [He [Hd Hv]]. cbn [binary_normalize].
  rewrite <- Hv in Hq.
  destruct (Z.le_gt_cases ez e) as [Hle | Hgt].
  - replace ez with (e - (e - ez)) by lia.
    apply binary_round_exact_up; [exact Hb | lia |].
    replace (e + 52) with ((ez + 52) + (e - ez)) in Hq by lia.
    rewrite (Z.pow_add_r 2 (ez + 52) (e - ez)) in Hq by lia.
    assert (Hp : 0 < 2 ^ (ez + 52)) by (apply pow2_pos; lia).
    apply (Z.mul_cancel_r _ _ (2 ^ (ez + 52))); [lia |].
    rewrite Hq. ring.
  - replace ez with (e + (ez - e)) by lia.
    apply binary_round_exact_down; [exact Hb | lia |].
    replace (ez + 52) with ((e + 52) + (ez - e)) in Hq by lia.
    rewrite (Z.pow_add_r 2 (e + 52) (ez - e)) in Hq by lia.
    assert (Hp : 0 < 2 ^ (e + 52)) by (apply pow2_pos; lia).
    apply (Z.mul_cancel_r _ _ (2 ^ (e + 52))); [lia |].
    rewrite <- Hq. ring.
Qed.

Lemma SFadd_Repr a ma ea b mb eb mc ec :
  Repr a ma ea -> Repr b mb eb -> Repr (a + b) mc ec ->
  SFadd prec emax (S754_finite false ma ea) (S754_finite false mb eb)
  = S754_finite false mc ec.
Proof.
  intros Ha Hb Hc. cbn [SFadd cond_Zopp].
  destruct Ha as [Hea [_ Hva]], Hb as [Heb [_ Hvb]].
  set (ez := Z.min ea eb).
  pose proof (@shl_align_value ma ea ez ltac:(lia)) as Hxa.
  pose proof (@shl_align_value mb eb ez ltac:(lia)) as Hxb.
  set (xa := fst (shl_align ma ea ez)) in *.
  set (xb := fst (shl_align mb eb ez)) in *.
  change (Z.pos xa + Z.pos xb) with (Z.pos (xa + xb)).
  apply (@normalize_Repr (xa + xb) ez (a + b) mc ec); [lia | | exact Hc].
  rewrite Pos2Z.inj_add, Hxa, Hxb.
  rewrite Z.mul_add_distr_r, Z.mul_add_distr_r, <- Hva, <- Hvb.
  rewrite <- !Z.mul_assoc, <- !Z.pow_add_r by lia.
  f_equal; f_equal; f_equal; lia.
Qed.

Lemma SFsub_Repr a ma ea b mb eb mc ec :
  Repr a ma ea -> Repr b mb eb -> Repr (a - b) mc ec ->
  SFsub prec emax (S754_finite false ma ea) (S754_finite false mb eb)
  = S754_finite false mc ec.
Proof.
  intros Ha Hb Hc. cbn [SFsub cond_Zopp].
  pose proof (Repr_pos Hc) as Hpos.
  destruct Ha as [Hea [_ Hva]], Hb as [Heb [_ Hvb]].
  set (ez := Z.min ea eb).
  pose proof (@shl_align_value ma ea ez ltac:(lia)) as Hxa.
  pose proof (@shl_align_value mb eb ez ltac:(lia)) as Hxb.
  set (xa := fst (shl_align ma ea ez)) in *.
  set (xb := fst (shl_align mb eb ez)) in *.
  assert (Hv : (Z.pos xa - Z.pos xb) * 2 ^ (ez + 52) = (a - b) * 2 ^ 52).
  { rewrite Hxa, Hxb.
    rewrite Z.mul_sub_distr_r, Z.mul_sub_distr_r, <- Hva, <- Hvb.
    rewrite <- !Z.mul_assoc, <- !Z.pow_add_r by lia.
    f_equal; f_equal; f_equal; lia. }
  assert (Hp : 0 < 2 ^ (ez + 52)) by (apply pow2_pos; lia).
  assert (H52 : 0 < 2 ^ 52) by (apply pow2_pos; lia).
  destruct (Z.pos xa - Z.pos xb) as [| q | q] eqn:E.
  - exfalso. nia.
  - apply (@normalize_Repr q ez (a - b) mc ec); [lia | exact Hv | exact Hc].
  - exfalso. nia.
Qed.

Lemma SFsub_same m e :
  SFsub prec emax (S754_finite false m e) (S754_finite false m e)
  = S754_zero false.
Proof.
  cbn [SFsub cond_Zopp]. rewrite Z.sub_diag. reflexivity.
Qed.

(** The binary64 number of a small integer. *)
Lemma Prim2SF_of_Z n :
  0 <= n < 2 ^ 63 ->
  Prim2SF (of_Z n) = binary_normalize prec emax n 0 false.
Proof.
  intros Hn. unfold of_Z. rewrite of_uint63_spec, Uint63.of_Z_spec.
  rewrite Z.mod_small; [reflexivity |]. exact Hn.
Qed.

Lemma of_Z_zero : Prim2SF (of_Z 0) = S754_zero false.
Proof. reflexivity. Qed.

Lemma of_Z_Repr n m e :
  Repr n m e -> n <= 2 ^ 53 -> Prim2SF (of_Z n) = S754_finite false m e.
Proof.
  intros Hr Hn. pose proof (Repr_pos Hr) as Hpos.
  rewrite Prim2SF_of_Z by (change (2 ^ 63) with (1024 * 2 ^ 53); lia).
  destruct n as [| q | q]; try lia.
  apply (@normalize_Repr q 0 (Z.pos q) m e); [lia | reflexivity | exact Hr].
Qed.

Lemma of_Z_finite n :
  1 <= n <= 2 ^ 53 ->
  exists m e, Repr n m e /\ Prim2SF (of_Z n) = S754_finite false m e.
Proof.
  intros Hn. destruct (Repr_exists Hn) as [m [e Hr]].
  exists m, e. split; [exact Hr | apply of_Z_Repr; [exact Hr | lia]].
Qed.

Theorem add_of_Z a b :
  0 <= a -> 0 <= b -> a + b <= 2 ^ 53 ->
  (of_Z a + of_Z b)%float = of_Z (a + b).
Proof.
  intros Ha Hb Hab. apply Prim2SF_inj. rewrite add_spec.
  destruct (Z.eq_dec a 0) as [-> | Ha0]; [| destruct (Z.eq_dec b 0) as [-> | Hb0]].
  - rewrite of_Z_zero. cbn [Z.add].
    destruct (Z.eq_dec b 0) as [-> | Hb0]; [reflexivity |].
    destruct (@of_Z_finite b ltac:(lia)) as [m [e [_ ->]]]. reflexivity.
  - rewrite of_Z_zero, Z.add_0_r.
    destruct (@of_Z_finite a ltac:(lia)) as [m [e [_ ->]]]. reflexivity.
  - destruct (@of_Z_finite a ltac:(lia)) as [ma [ea [Hra ->]]].
    destruct (@of_Z_finite b ltac:(lia)) as [mb [eb [Hrb ->]]].
    destruct (@of_Z_finite (a + b) ltac:(lia)) as [mc [ec [Hrc ->]]].
    now apply (SFadd_Repr Hra Hrb).
Qed.

Theorem sub_of_Z a b :
  0 <= b <= a -> a <= 2 ^ 53 ->
  (of_Z a - of_Z b)%float = of_Z (a - b).
Proof.
  intros Hb Ha. apply Prim2SF_inj. rewrite sub_spec.
  destruct (Z.eq_dec b 0) as [-> | Hb0].
  - rewrite of_Z_zero, Z.sub_0_r.
    destruct (Z.eq_dec a 0) as [-> | Ha0]; [reflexivity |].
    destruct (@of_Z_finite a ltac:(lia)) as [m [e [_ ->]]]. reflexivity.
  - destruct (Z.eq_dec a b) as [-> | Hne].
    + rewrite Z.sub_diag, of_Z_zero.
      destruct (@of_Z_finite b ltac:(lia)) as [m [e [_ ->]]].
      apply SFsub_same.
    + destruct (@of_Z_finite a ltac:(lia)) as [ma [ea [Hra ->]]].
      destruct (@of_Z_finite b ltac:(lia)) as [mb [eb [Hrb ->]]].
      destruct (@of_Z_finite (a - b) ltac:(lia)) as [mc [ec [Hrc ->]]].
      now apply (SFsub_Repr Hra Hrb).
Qed.

Lemma SFcompare_of_Z a b :
  0 <= a <= 2 ^ 53 -> 0 <= b <= 2 ^ 53 ->
  SFcompare (Prim2SF (of_Z a)) (Prim2SF (of_Z b)) = Some (a ?= b).
Proof.
  intros Ha Hb.
  destruct (Z.eq_dec a 0) as [-> | Ha0]; [| destruct (Z.eq_dec b 0) as [-> | Hb0]].
  - rewrite of_Z_zero.
    destruct (Z.eq_dec b 0) as [-> | Hb0]; [reflexivity |].
    destruct (@of_Z_finite b ltac:(lia)) as [m [e [_ ->]]]. cbn [SFcompare].
    f_equal. symmetry. apply Z.compare_lt_iff. lia.
  - rewrite of_Z_zero.
    destruct (@of_Z_finite a ltac:(lia)) as [m [e [_ ->]]]. cbn [SFcompare].
    f_equal. symmetry. apply Z.compare_gt_iff. lia.
  - destruct (@of_Z_finite a ltac:(lia)) as [ma [ea [Hra ->]]].
    destruct (@of_Z_finite b ltac:(lia)) as [mb [eb [Hrb ->]]].
    apply (Repr_compare Hra Hrb).
Qed.

Theorem ltb_of_Z a b :
  0 <= a <= 2 ^ 53 -> 0 <= b <= 2 ^ 53 ->
  PrimFloat.ltb (of_Z a) (of_Z b) = (a <? b).
Proof.
  intros Ha Hb. rewrite ltb_spec. unfold SFltb.
  rewrite (SFcompare_of_Z Ha Hb). unfold Z.ltb. now destruct (a ?= b).
Qed.

Theorem leb_of_Z a b :
  0 <= a <= 2 ^ 53 -> 0 <= b <= 2 ^ 53 ->
  PrimFloat.leb (of_Z a) (of_Z b) = (a <=? b).
Proof.
  intros Ha Hb. rewrite leb_spec. unfold SFleb.
  rewrite (SFcompare_of_Z Ha Hb). unfold Z.leb. now destruct (a ?= b).
Qed.

Theorem eqb_of_Z a b :
  0 <= a <= 2 ^ 53 -> 0 <= b <= 2 ^ 53 ->
  PrimFloat.eqb (of_Z a) (of_Z b) = (a =? b).
Proof.
  intros Ha Hb. rewrite eqb_spec. unfold SFeqb.
  rewrite (SFcompare_of_Z Ha Hb).
  destruct (Z.eqb_spec a b) as [-> | Hne].
  - now rewrite Z.compare_refl.
  - destruct (Z.compare_spec a b); [contradiction | reflexivity | reflexivity].
Qed.

Lemma rne_bounds m l : m <= round_nearest_even m l <= m + 1.
Proof.
  destruct l as [| []]; cbn [round_nearest_even]; try lia.
  destruct (Z.even m); lia.
Qed.

Lemma shr_record_of_loc_m m l : shr_m (shr_record_of_loc m l) = m.
Proof. now destruct l as [| []]. Qed.

Lemma shr_fexp_shape m e l :
  0 <= m ->
  let t := fexp prec emax (Zdigits2 m + e) in
  shr_m (fst (shr_fexp prec emax m e l)) = m / 2 ^ (Z.max 0 (t - e))
  /\ snd (shr_fexp prec emax m e l) = Z.max e t.
Proof.
  intros Hm t. unfold shr_fexp. fold t.
  destruct (Z.le_gt_cases 0 (t - e)) as [Hle | Hgt].
  - destruct (@shr_m_value (shr_record_of_loc m l) e (t - e)) as [H1 H2];
      [now rewrite shr_record_of_loc_m | exact Hle |].
    rewrite H1, H2, shr_record_of_loc_m. rewrite Z.max_r by lia.
    split; [reflexivity | lia].
  - unfold shr. destruct (t - e) eqn:E; try lia.
    cbn [fst snd]. rewrite shr_record_of_loc_m, Z.max_l by lia.
    simpl. rewrite Z.div_1_r. split; [reflexivity | lia].
Qed.

Lemma binary_round_aux_shape s m e l :
  0 <= m ->
  let t := fexp prec emax (Zdigits2 m + e) in
  let m1 := m / 2 ^ (Z.max 0 (t - e)) in
  let e1 := Z.max e t in
  exists m2,
    m1 <= m2 <= m1 + 1
    /\ binary_round_aux prec emax s m e l
       = let t2 := fexp prec emax (Zdigits2 m2 + e1) in
         match m2 / 2 ^ (Z.max 0 (t2 - e1)) with
         | Z0 => S754_zero s
         | Zpos p =>
             if Z.max e1 t2 <=? 971 then S754_finite s p (Z.max e1 t2)
             else S754_infinity s
         | Zneg _ => S754_nan
         end.
Proof.
  intros Hm t m1 e1. unfold binary_round_aux.
  destruct (shr_fexp_shape e l Hm) as [H1 H2]. fold t in H1, H2.
  destruct (shr_fexp prec emax m e l) as [mrs' e'] eqn:E1.
  cbn [fst snd] in H1, H2. 
  set (m2 := round_nearest_even (shr_m mrs') (loc_of_shr_record mrs')).
  assert (Hm1 : 0 <= m1).
  { subst m1. apply Z.div_pos; [lia | apply pow2_pos; lia]. }
  assert (Hb : m1 <= m2 <= m1 + 1).
  { subst m2. rewrite H1. apply rne_bounds. }
  exists m2. split; [exact Hb |].
  destruct (@shr_fexp_shape m2 e' loc_Exact ltac:(lia)) as [H3 H4].
  destruct (shr_fexp prec emax m2 e' loc_Exact) as [mrs'' e''] eqn:E2.
  cbn [fst snd] in H3, H4. rewrite H3, H4, H2. reflexivity.
Qed.

Lemma fexp_shift_pos (p : positive) (e : Z) :
  -1074 <= e ->
  1 <= Z.pos p / 2 ^ (Z.max 0 (fexp prec emax (Z.pos (digits2_pos p) + e) - e)).
Proof.
  intros He. rewrite fexp_eq.
  pose proof (digits2_pos_bounds p) as [Hlo _].
  set (d := Z.pos (digits2_pos p)) in *.
  assert (Hd : 1 <= d) by (subst d; lia).
  set (k := Z.max 0 (Z.max (d + e - 53) (-1074) - e)).
  assert (Hk : 0 <= k <= d - 1) by lia.
  apply Z.div_le_lower_bound; [apply pow2_pos; lia |].
  rewrite Z.mul_1_r.
  apply Z.le_trans with (2 ^ (d - 1)); [apply Z.pow_le_mono_r; lia | exact Hlo].
Qed.

Lemma val_pos m e : -1074 <= e -> 0 < val m e.
Proof.
  intros. unfold val. apply Z.mul_pos_pos; [lia | apply pow2_pos; lia].
Qed.

(** Magnitudes are ordered as the values are. *)
Lemma val_le_magnitude m1 e1 m2 e2 :
  -1074 <= e1 -> -1074 <= e2 ->
  val m1 e1 <= val m2 e2 ->
  Z.pos (digits2_pos m1) + e1 <= Z.pos (digits2_pos m2) + e2.
Proof.
  unfold val. intros He1 He2 Hle.
  pose proof (digits2_pos_bounds m1) as [Hlo1 _].
  pose proof (digits2_pos_bounds m2) as [_ Hhi2].
  set (d1 := Z.pos (digits2_pos m1)) in *.
  set (d2 := Z.pos (digits2_pos m2)) in *.
  assert (Hd1 : 1 <= d1) by (subst d1; lia).
  assert (Hd2 : 1 <= d2) by (subst d2; lia).
  assert (H1 : 2 ^ (d1 - 1 + (e1 + 1074)) <= Z.pos m1 * 2 ^ (e1 + 1074)).
  { rewrite (Z.pow_add_r 2 (d1 - 1) (e1 + 1074)) by lia.
    apply Z.mul_le_mono_nonneg_r; [apply Z.pow_nonneg; lia | exact Hlo1]. }
  assert (H2 : Z.pos m2 * 2 ^ (e2 + 1074) < 2 ^ (d2 + (e2 + 1074))).
  { rewrite (Z.pow_add_r 2 d2 (e2 + 1074)) by lia.
    apply Z.mul_lt_mono_pos_r; [apply pow2_pos; lia | exact Hhi2]. }
  assert (H3 : 2 ^ (d1 - 1 + (e1 + 1074)) < 2 ^ (d2 + (e2 + 1074)))
    by (exact (Z.le_lt_trans _ _ _ H1 (Z.le_lt_trans _ _ _ Hle H2))).
  apply (proj2 (Z.pow_lt_mono_r_iff 2 (d1 - 1 + (e1 + 1074)) (d2 + (e2 + 1074))
                  ltac:(lia) ltac:(lia))) in H3. lia.
Qed.

(** Rounding is monotone: a number at most the value rounded is at most
    the result. *)
Lemma binary_round_aux_mono (mz : positive) (ez : Z) (m0 : positive) (e0 : Z) :
  bounded prec emax mz ez = true ->
  -1074 <= e0 <= fexp prec emax (Z.pos (digits2_pos m0) + e0) ->
  val mz ez <= val m0 e0 ->
  SFleb (S754_finite false mz ez)
        (binary_round_aux prec emax false (Z.pos m0) e0 loc_Exact) = true.
Proof.
  intros Hb He0 Hle.
  apply bounded_spec in Hb. destruct Hb as [Hc Hez].
  assert (Hez' : -1074 <= ez) by lia.
  pose proof (val_le_magnitude mz m0 Hez' (proj1 He0) Hle) as Hmag.
  destruct (@binary_round_aux_shape false (Z.pos m0) e0 loc_Exact ltac:(lia))
    as [m2 [Hm2 ->]].
  cbn [Zdigits2] in *.
  set (t := fexp prec emax (Z.pos (digits2_pos m0) + e0)) in *.
  assert (Ht : ez <= t) by (subst t; rewrite fexp_eq; lia).
  rewrite (Z.max_r e0 t) in * by lia.
  pose proof (@fexp_shift_pos m0 e0 ltac:(lia)) as Hm1. fold t in Hm1.
  set (m1 := Z.pos m0 / 2 ^ Z.max 0 (t - e0)) in *.
  destruct m2 as [| p2 | p2]; try lia.
  cbn [Zdigits2].
  set (t2 := fexp prec emax (Z.pos (digits2_pos p2) + t)).
  assert (Ht1074 : -1074 <= t) by lia.
  pose proof (@fexp_shift_pos p2 t Ht1074) as Hm3. fold t2 in Hm3.
  destruct (Z.pos p2 / 2 ^ Z.max 0 (t2 - t)) as [| p3 | p3] eqn:E3; try lia.
  destruct (Z.max t t2 <=? 971); [| reflexivity].
  unfold SFleb. cbn [SFcompare].
  destruct (Z.compare_spec ez (Z.max t t2)) as [E | E | E];
    [| reflexivity | lia].
  assert (Ht2 : t2 <= t) by lia.
  rewrite Z.max_l in E3 by lia. rewrite Z.pow_0_r, Z.div_1_r in E3.
  assert (Hle1 : Z.pos mz <= m1).
  { subst m1. rewrite Z.max_r by lia.
    apply Z.div_le_lower_bound; [apply pow2_pos; lia |].
    unfold val in Hle.
    replace (ez + 1074) with ((e0 + 1074) + (t - e0)) in Hle by lia.
    rewrite (Z.pow_add_r 2 (e0 + 1074) (t - e0)) in Hle by lia.
    assert (Hp : 0 < 2 ^ (e0 + 1074)) by (apply pow2_pos; lia).
    apply (Z.mul_le_mono_pos_r _ _ (2 ^ (e0 + 1074))); [exact Hp |].
    rewrite <- Hle at 1. 
    apply Z.eq_le_incl. ring. }
  rewrite Pos.compare_cont_spec.
  assert (Hp3 : (mz <= p3)%positive) by (unfold Pos.le; change (mz ?= p3)%positive with (Z.pos mz ?= Z.pos p3); apply Z.compare_le_iff; lia).
  unfold Pos.le in Hp3. now destruct (mz ?= p3)%positive.
Qed.

Lemma bounded_exponent m e : bounded prec emax m e = true -> -1074 <= e.
Proof. intros H. apply bounded_spec in H. lia. Qed.

Lemma SFadd_mono mx ex my ey mz ez :
  bounded prec emax mx ex = true -> bounded prec emax my ey = true ->
  bounded prec emax mz ez = true ->
  val mz ez <= val mx ex + val my ey ->
  SFleb (S754_finite false mz ez)
        (SFadd prec emax (S754_finite false mx ex) (S754_finite false my ey))
  = true.
Proof.
  intros Hx Hy Hz Hle.
  pose proof (bounded_exponent _ _ Hx) as Hex.
  pose proof (bounded_exponent _ _ Hy) as Hey.
  cbn [SFadd cond_Zopp].
  set (e0 := Z.min ex ey).
  pose proof (@shl_align_value mx ex e0 ltac:(lia)) as Hxa.
  pose proof (@shl_align_value my ey e0 ltac:(lia)) as Hxb.
  set (xa := fst (shl_align mx ex e0)) in *.
  set (xb := fst (shl_align my ey e0)) in *.
  change (Z.pos xa + Z.pos xb) with (Z.pos (xa + xb)).
  assert (HV : val (xa + xb) e0 = val mx ex + val my ey).
  { unfold val. rewrite Pos2Z.inj_add, Hxa, Hxb, Z.mul_add_distr_r.
    rewrite <- !Z.mul_assoc, <- !Z.pow_add_r by lia.
    f_equal; f_equal; f_equal; lia. }
  rewrite <- HV in Hle.
  cbn [binary_normalize]. unfold binary_round.
  set (M := (xa + xb)%positive) in *.
  set (t := fexp prec emax (Z.pos (digits2_pos M) + e0)).
  assert (Ht : -1074 <= t) by (subst t; rewrite fexp_eq; lia).
  destruct (Z.le_gt_cases e0 t) as [Hcase | Hcase].
  - rewrite shl_align_le by exact Hcase.
    apply binary_round_aux_mono; [exact Hz | fold t; lia | exact Hle].
  - destruct (@shl_align_gt M e0 t Hcase) as [q [-> Hq]].
    apply binary_round_aux_mono; [exact Hz | |].
    + rewrite (@digits2_pos_shift M q (e0 - t) ltac:(lia) Hq).
      replace (Z.pos (digits2_pos M) + (e0 - t) + t)
        with (Z.pos (digits2_pos M) + e0) by lia.
      fold t. lia.
    + unfold val in *. rewrite Hq, <- Z.mul_assoc, <- Z.pow_add_r by lia.
      replace (e0 - t + (t + 1074)) with (e0 + 1074) by lia. exact Hle.
Qed.

(** ** Order *)

Lemma compare_cont_refl m : Pos.compare_cont Eq m m = Eq.
Proof. rewrite Pos.compare_cont_spec, Pos.compare_refl. reflexivity. Qed.

Lemma SFleb_refl_finite s m e :
  SFleb (S754_finite s m e) (S754_finite s m e) = true.
Proof.
  unfold SFleb. cbn [SFcompare]. rewrite Z.compare_refl, compare_cont_refl.
  now destruct s.
Qed.

Lemma SFleb_zero_nonneg s x : SFleb (S754_zero s) x = true <-> SFnonneg x.
Proof.
  unfold SFleb. destruct x as [s' | s' | | s' m e]; cbn [SFcompare SFnonneg].
  - tauto.
  - destruct s'; split; congruence.
  - split; [discriminate | contradiction].
  - destruct s'; split; congruence.
Qed.

Lemma SFltb_zero_false s x :
  SFltb x (S754_zero s) = false <-> x = S754_nan \/ SFnonneg x.
Proof.
  unfold SFltb. destruct x as [s' | s' | | s' m e]; cbn [SFcompare SFnonneg];
    try destruct s'; intuition (discriminate || congruence).
Qed.

Lemma SFadd_nonneg x y :
  SpecFloat.valid_binary prec emax x = true ->
  SpecFloat.valid_binary prec emax y = true ->
  SFnonneg x -> SFnonneg y ->
  SFnonneg (SFadd prec emax x y)
  /\ SFleb x (SFadd prec emax x y) = true
  /\ SFleb y (SFadd prec emax x y) = true.
Proof.
  intros Hvx Hvy Hx Hy.
  assert (Hpos : forall m e r,
             SFleb (S754_finite false m e) r = true -> SFnonneg r).
  { intros m e r. unfold SFleb.
    destruct r as [s | s | | s m' e']; cbn [SFcompare SFnonneg];
      try discriminate; destruct s; congruence. }
  destruct x as [sx | sx | | sx mx ex], y as [sy | sy | | sy my ey];
    cbn [SFnonneg] in Hx, Hy; try contradiction; subst;
    cbn [SpecFloat.valid_binary] in Hvx, Hvy.
  - destruct sx, sy; cbn; auto.
  - cbn. auto.
  - cbn [SFadd]. split; [reflexivity |]. split; [reflexivity |].
    apply SFleb_refl_finite.
  - cbn. auto.
  - cbn. auto.
  - cbn. auto.
  - cbn [SFadd]. split; [reflexivity |]. split; [apply SFleb_refl_finite |].
    reflexivity.
  - cbn. auto.
  - assert (H1 : SFleb (S754_finite false mx ex)
                   (SFadd prec emax (S754_finite false mx ex)
                          (S754_finite false my ey)) = true).
    { apply SFadd_mono; try assumption.
      pose proof (@val_pos my ey (bounded_exponent _ _ Hvy)). lia. }
    assert (H2 : SFleb (S754_finite false my ey)
                   (SFadd prec emax (S754_finite false mx ex)
                          (S754_finite false my ey)) = true).
    { apply SFadd_mono; try assumption.
      pose proof (@val_pos mx ex (bounded_exponent _ _ Hvx)). lia. }
    split; [exact (Hpos _ _ _ H1) |]. split; assumption.
Qed.

Lemma SFcompare_trans_le x y z :
  SFleb x y = true -> SFleb y z = true -> SFleb x z = true.
Proof.
  assert (Hlex : forall m1 e1 m2 e2 m3 e3 c12 c23,
             match e1 ?= e2 with Lt => Lt | Gt => Gt
                            | Eq => Pos.compare_cont Eq m1 m2 end = c12 ->
             match e2 ?= e3 with Lt => Lt | Gt => Gt
                            | Eq => Pos.compare_cont Eq m2 m3 end = c23 ->
             c12 <> Gt -> c23 <> Gt ->
             match e1 ?= e3 with Lt => Lt | Gt => Gt
                            | Eq => Pos.compare_cont Eq m1 m3 end <> Gt).
  { intros m1 e1 m2 e2 m3 e3 c12 c23 H12 H23 N12 N23. subst c12 c23.
    rewrite !Pos.compare_cont_spec in *. 
    destruct (Z.compare_spec e1 e2), (Z.compare_spec e2 e3),
      (Z.compare_spec e1 e3); try lia; try congruence.
    unfold Pos.switch_Eq in *.
    destruct (Pos.compare_spec m1 m2), (Pos.compare_spec m2 m3),
      (Pos.compare_spec m1 m3); try congruence; lia. }
  assert (Hlex' : forall m1 e1 m2 e2 m3 e3 c12 c23,
             match e1 ?= e2 with Lt => Gt | Gt => Lt
                            | Eq => CompOpp (Pos.compare_cont Eq m1 m2) end = c12 ->
             match e2 ?= e3 with Lt => Gt | Gt => Lt
                            | Eq => CompOpp (Pos.compare_cont Eq m2 m3) end = c23 ->
             c12 <> Gt -> c23 <> Gt ->
             match e1 ?= e3 with Lt => Gt | Gt => Lt
                            | Eq => CompOpp (Pos.compare_cont Eq m1 m3) end <> Gt).
  { intros m1 e1 m2 e2 m3 e3 c12 c23 H12 H23 N12 N23. subst c12 c23.
    rewrite !Pos.compare_cont_spec in *. 
    destruct (Z.compare_spec e1 e2), (Z.compare_spec e2 e3),
      (Z.compare_spec e1 e3); try lia; try congruence.
    unfold Pos.switch_Eq in *.
    destruct (Pos.compare_spec m1 m2), (Pos.compare_spec m2 m3),
      (Pos.compare_spec m1 m3); cbn in *; try congruence; lia. }
  unfold SFleb.
  destruct x as [sx | sx | | sx mx ex], y as [sy | sy | | sy my ey],
    z as [sz | sz | | sz mz ez]; cbn [SFcompare];
    try discriminate; try reflexivity;
    try (destruct sx; discriminate); try (destruct sy; discriminate);
    try (destruct sx, sy; discriminate);
    try (destruct sx, sz; reflexivity || discriminate);
    try (destruct sy, sz; reflexivity || discriminate);
    try (destruct sx, sy, sz; reflexivity || discriminate).
  destruct sx, sy, sz; try reflexivity || discriminate; intros H12 H23.
  - pose proof (@Hlex' mx ex my ey mz ez _ _ eq_refl eq_refl) as H.
    destruct (match ex ?= ez with Lt => Gt | Gt => Lt | Eq => _ end) eqn:E;
      try reflexivity.
    exfalso. apply H; [| | reflexivity].
    + intro E'. rewrite E' in H12. discriminate.
    + intro E'. rewrite E' in H23. discriminate.
  - pose proof (@Hlex mx ex my ey mz ez _ _ eq_refl eq_refl) as H.
    destruct (match ex ?= ez with Lt => Lt | Gt => Gt | Eq => _ end) eqn:E;
      try reflexivity.
    exfalso. apply H; [| | reflexivity].
    + intro E'. rewrite E' in H12. discriminate.
    + intro E'. rewrite E' in H23. discriminate.
Qed.

(** Lemmas *)

Lemma SFcompare_refl x : x <> S754_nan -> SFcompare x x = Some Eq.
Proof.
  destruct x as [s | s | | s m e]; intros H; cbn [SFcompare].
  - reflexivity.
  - now destruct s.
  - congruence.
  - rewrite Z.compare_refl, compare_cont_refl. now destruct s.
Qed.

Lemma is_nan_spec x : is_nan x = true <-> Prim2SF x = S754_nan.
Proof.
  unfold is_nan. rewrite eqb_spec. unfold SFeqb.
  destruct (Prim2SF x) as [s | s | | s m e] eqn:E.
  - cbn. split; discriminate.
  - rewrite SFcompare_refl by discriminate. cbn. split; discriminate.
  - cbn. split; reflexivity.
  - rewrite SFcompare_refl by discriminate. cbn. split; discriminate.
Qed.

Lemma is_nan_false x : is_nan x = false <-> Prim2SF x <> S754_nan.
Proof.
  rewrite <- is_nan_spec. destruct (is_nan x); split; congruence.
Qed.

Lemma leb_not_nan x y :
  (x <=? y)%float = true -> is_nan x = false /\ is_nan y = false.
Proof.
  rewrite leb_spec, !is_nan_false. unfold SFleb.
  destruct (Prim2SF x), (Prim2SF y); cbn [SFcompare]; try discriminate;
    split; discriminate.
Qed.

Lemma ltb_not_nan x y :
  (x <? y)%float = true -> is_nan x = false /\ is_nan y = false.
Proof.
  rewrite ltb_spec, !is_nan_false. unfold SFltb.
  destruct (Prim2SF x), (Prim2SF y); cbn [SFcompare]; try discriminate;
    split; discriminate.
Qed.

Lemma SFcompare_antisym x y :
  SFcompare y x = match SFcompare x y with
                  | Some c => Some (CompOpp c)
                  | None => None
                  end.
Proof.
  destruct x as [sx | sx | | sx mx ex], y as [sy | sy | | sy my ey];
    cbn [SFcompare]; try reflexivity;
    try (destruct sx; reflexivity); try (destruct sy; reflexivity);
    try (destruct sx, sy; reflexivity).
  rewrite (Z.compare_antisym ex ey).
  rewrite (Pos.compare_cont_spec my mx), (Pos.compare_cont_spec mx my).
  rewrite (Pos.compare_antisym mx my).
  destruct sx, sy; try reflexivity;
    destruct (ex ?= ey); cbn; try reflexivity;
    destruct (mx ?= my)%positive; reflexivity.
Qed.

Lemma leb_ltb_false x y :
  (x <=? y)%float = true -> (y <? x)%float = false.
Proof.
  rewrite leb_spec, ltb_spec. unfold SFleb, SFltb.
  rewrite (SFcompare_antisym (Prim2SF x) (Prim2SF y)).
  destruct (SFcompare (Prim2SF x) (Prim2SF y)) as [[] |]; cbn; congruence.
Qed.

Theorem leb_trans x y z :
  (x <=? y)%float = true -> (y <=? z)%float = true -> (x <=? z)%float = true.
Proof. rewrite !leb_spec. apply SFcompare_trans_le. Qed.

Lemma leb_zero_nonneg x : (0 <=? x)%float = true <-> SFnonneg (Prim2SF x).
Proof. rewrite leb_spec. apply (SFleb_zero_nonneg false). Qed.

Lemma ltb_zero_false x :
  (x <? 0)%float = false <-> is_nan x = true \/ (0 <=? x)%float = true.
Proof.
  rewrite ltb_spec, is_nan_spec, leb_zero_nonneg.
  apply (SFltb_zero_false false).
Qed.

Theorem add_nonneg x y :
  (0 <=? x)%float = true -> (0 <=? y)%float = true ->
  (0 <=? x + y)%float = true
  /\ (x <=? x + y)%float = true
  /\ (y <=? x + y)%float = true.
Proof.
  rewrite !leb_zero_nonneg, !leb_spec, add_spec. intros Hx Hy.
  apply SFadd_nonneg; try assumption; apply Prim2SF_valid.
Qed.

Lemma add_nan_l x y : is_nan x = true -> is_nan (x + y) = true.
Proof.
  rewrite !is_nan_spec, add_spec. intros ->. reflexivity.
Qed.

Lemma add_nan_r x y : is_nan y = true -> is_nan (x + y) = true.
Proof.
  rewrite !is_nan_spec, add_spec. intros ->. now destruct (Prim2SF x).
Qed.

(** Integers *)

Lemma of_Z_not_nan n : 0 <= n <= 2 ^ 53 -> is_nan (of_Z n) = false.
Proof.
  intros Hn. unfold is_nan. now rewrite (eqb_of_Z Hn Hn), Z.eqb_refl.
Qed.

Lemma Repr_neg_exponent n m e :
  Repr n m e -> e < 0 -> Z.pos m = n * 2 ^ (- e).
Proof.
  intros [He [_ Hv]] Hneg.
  apply (Z.mul_cancel_r _ _ (2 ^ (e + 52)));
    [pose proof (@pow2_pos (e + 52) ltac:(lia)); lia |].
  rewrite Hv, <- Z.mul_assoc, <- Z.pow_add_r by lia.
  f_equal. f_equal. lia.
Qed.

Lemma Repr_nonneg_exponent n m e :
  Repr n m e -> 0 <= e -> n = Z.pos m * 2 ^ e.
Proof.
  intros [He [_ Hv]] Hpos.
  apply (Z.mul_cancel_r _ _ (2 ^ 52));
    [pose proof (@pow2_pos 52 ltac:(lia)); lia |].
  rewrite <- Hv, <- Z.mul_assoc, <- Z.pow_add_r by lia. reflexivity.
Qed.

Theorem integerValue_of_Z n :
  0 <= n <= 2 ^ 53 -> integerValue (of_Z n) = Some n.
Proof.
  intros Hn. unfold integerValue.
  destruct (Z.eq_dec n 0) as [-> | Hn0]; [reflexivity |].
  destruct (@of_Z_finite n ltac:(lia)) as [m [e [Hr ->]]].
  destruct (Z.leb_spec 0 e) as [He | He].
  - now rewrite <- (Repr_nonneg_exponent Hr He).
  - rewrite (Repr_neg_exponent Hr He).
    assert (Hp : 0 < 2 ^ (- e)) by (apply pow2_pos; lia).
    rewrite Z.mod_mul by lia. cbn [Z.eqb]. rewrite Z.div_mul by lia.
    reflexivity.
Qed.

Theorem floor_of_Z n :
  0 <= n <= 2 ^ 53 -> Binary64.Math.floor (of_Z n) = of_Z n.
Proof.
  intros Hn. unfold Binary64.Math.floor.
  destruct (Z.eq_dec n 0) as [-> | Hn0]; [reflexivity |].
  destruct (@of_Z_finite n ltac:(lia)) as [m [e [Hr ->]]].
  destruct (Z.leb_spec 0 e) as [He | He]; [reflexivity |].
  rewrite (Repr_neg_exponent Hr He).
  assert (Hp : 0 < 2 ^ (- e)) by (apply pow2_pos; lia).
  rewrite Z.div_mul by lia. unfold ofInt.
  destruct (Z.ltb_spec n 0); [lia | reflexivity].
Qed.

Lemma is_zero_of_Z n : 0 <= n <= 2 ^ 53 -> is_zero (of_Z n) = (n =? 0).
Proof.
  intros Hn. unfold is_zero. change zero with (of_Z 0).
  apply eqb_of_Z; [exact Hn | lia].
Qed.

Theorem min_of_Z a b :
  0 <= a <= 2 ^ 53 -> 0 <= b <= 2 ^ 53 ->
  Binary64.Math.min (of_Z a) (of_Z b) = of_Z (Z.min a b).
Proof.
  intros Ha Hb. unfold Binary64.Math.min.
  rewrite (of_Z_not_nan Ha), (of_Z_not_nan Hb). cbn [orb].
  rewrite (ltb_of_Z Hb Ha), (ltb_of_Z Ha Hb), (is_zero_of_Z Ha).
  destruct (Z.ltb_spec b a); [now rewrite Z.min_r by lia |].
  destruct (Z.ltb_spec a b); [now rewrite Z.min_l by lia |].
  assert (a = b) by lia. subst b. rewrite Z.min_id.
  destruct (Z.eqb_spec a 0) as [-> | _]; reflexivity.
Qed.

Theorem min_le a b :
  (a <=? b)%float = true -> is_zero a = false -> Binary64.Math.min a b = a.
Proof.
  intros Hle Hz. unfold Binary64.Math.min.
  destruct (@leb_not_nan a b Hle) as [-> ->]. cbn [orb].
  rewrite (@leb_ltb_false a b Hle), Hz. now destruct (a <? b)%float.
Qed.

Lemma Repr_val n m e : Repr n m e -> val m e = n * 2 ^ 1074.
Proof.
  intros [He [_ Hv]]. unfold val.
  replace (e + 1074) with ((e + 52) + 1022) by lia.
  rewrite Z.pow_add_r, Z.mul_assoc, Hv by lia.
  rewrite <- Z.mul_assoc, <- Z.pow_add_r by lia. reflexivity.
Qed.

Lemma Repr_2_53 : Repr (2 ^ 53) (Z.to_pos (2 ^ 52)) 1.
Proof. unfold Repr. split; [lia |]. split; reflexivity. Qed.

Lemma SFleb_finite_intro m1 e1 m2 e2 :
  e1 < e2 \/ (e1 = e2 /\ Z.pos m1 <= Z.pos m2) ->
  SFleb (S754_finite false m1 e1) (S754_finite false m2 e2) = true.
Proof.
  intros H. unfold SFleb. cbn [SFcompare].
  destruct (Z.compare_spec e1 e2) as [E | E | E]; [| reflexivity | lia].
  destruct H as [H | [_ H]]; [lia |].
  rewrite Pos.compare_cont_spec. unfold Pos.switch_Eq.
  destruct (Pos.compare_spec m1 m2); try reflexivity. lia.
Qed.

(** The sum of two integers beyond [2^53] is at least [2^53]. *)
Theorem add_of_Z_big a b :
  0 <= a <= 2 ^ 53 -> 0 <= b <= 2 ^ 53 -> 2 ^ 53 < a + b ->
  (of_Z (2 ^ 53) <=? of_Z a + of_Z b)%float = true.
Proof.
  intros Ha Hb Hab. rewrite leb_spec, add_spec.
  destruct (@of_Z_finite a ltac:(lia)) as [ma [ea [Hra Ea]]].
  destruct (@of_Z_finite b ltac:(lia)) as [mb [eb [Hrb Eb]]].
  rewrite Ea, Eb, (of_Z_Repr Repr_2_53 ltac:(lia)).
  apply SFadd_mono.
  - exact (Repr_bounded Hra).
  - exact (Repr_bounded Hrb).
  - exact (Repr_bounded Repr_2_53).
  - rewrite (Repr_val Repr_2_53), (Repr_val Hra), (Repr_val Hrb).
    rewrite <- Z.mul_add_distr_r.
    apply Z.mul_le_mono_nonneg_r; [apply Z.pow_nonneg; lia | lia].
Qed.

Lemma valid_digits m e :
  bounded prec emax m e = true -> 2 ^ 52 <= Z.pos m \/ e = -1074.
Proof.
  intros H. apply bounded_spec in H. destruct H as [Hc _].
  destruct (Z.eq_dec e (-1074)) as [-> | Hne]; [now right | left].
  assert (Hd : Z.pos (digits2_pos m) = 53) by lia.
  pose proof (digits2_pos_bounds m) as [Hlo _]. now rewrite Hd in Hlo.
Qed.

Lemma valid_mantissa m e : bounded prec emax m e = true -> Z.pos m < 2 ^ 53.
Proof.
  intros H. apply bounded_spec in H. destruct H as [Hc _].
  pose proof (digits2_pos_bounds m) as [_ Hhi].
  apply Z.lt_le_trans with (2 ^ Z.pos (digits2_pos m)); [exact Hhi |].
  apply Z.pow_le_mono_r; lia.
Qed.

Lemma ltb_zero_opp_of_Z j :
  0 <= j <= 2 ^ 53 -> (0 <? - of_Z j)%float = false.
Proof.
  intros Hj. rewrite ltb_spec, opp_spec.
  destruct (Z.eq_dec j 0) as [-> | Hj0]; [reflexivity |].
  destruct (@of_Z_finite j ltac:(lia)) as [m [e [_ ->]]]. reflexivity.
Qed.

Lemma ltb_leb x y : (x <? y)%float = true -> (x <=? y)%float = true.
Proof.
  rewrite ltb_spec, leb_spec. unfold SFltb, SFleb.
  now destruct (SFcompare (Prim2SF x) (Prim2SF y)) as [[] |].
Qed.

(** What [Binary64.Math.floor] returns when it is above zero. *)
Theorem floor_positive x :
  (0 <? Binary64.Math.floor x)%float = true ->
  Binary64.Math.floor x = infinity
  \/ (exists h, 1 <= h <= 2 ^ 53 /\ Binary64.Math.floor x = of_Z h)
  \/ (exists h, 2 ^ 53 < h
                /\ integerValue (Binary64.Math.floor x) = Some h
                /\ (of_Z (2 ^ 53) <=? Binary64.Math.floor x)%float = true).
Proof.
  unfold Binary64.Math.floor. pose proof (Prim2SF_valid x) as Hv.
  destruct (Prim2SF x) as [s | s | | s m e] eqn:E.
  - rewrite ltb_spec, E. discriminate.
  - rewrite ltb_spec, E. destruct s; [discriminate |]. intros _. left.
    apply Prim2SF_inj. rewrite E. reflexivity.
  - rewrite ltb_spec, E. discriminate.
  - cbn [SpecFloat.valid_binary] in Hv.
    pose proof (valid_mantissa _ _ Hv) as Hm.
    destruct (Z.leb_spec 0 e) as [He | He].
    + rewrite ltb_spec, E. destruct s; [discriminate |]. intros _. right.
      destruct (valid_digits _ _ Hv) as [Hlo | ?]; [| lia].
      assert (Hp : 1 <= 2 ^ e) by (pose proof (@pow2_pos e He); lia).
      destruct (Z.le_gt_cases (Z.pos m * 2 ^ e) (2 ^ 53)) as [Hle | Hgt].
      * left. exists (Z.pos m * 2 ^ e). split; [nia |].
        assert (He1 : e <= 1).
        { destruct (Z.le_gt_cases e 1) as [H | H]; [exact H | exfalso].
          assert (2 ^ 2 <= 2 ^ e) by (apply Z.pow_le_mono_r; lia).
          change (2 ^ 2) with 4 in *. change (2 ^ 53) with (2 * 2 ^ 52) in *.
          nia. }
        assert (Hr : Repr (Z.pos m * 2 ^ e) m e).
        { unfold Repr. split; [lia |]. split.
          - apply digits2_pos_unique. change (53 - 1) with 52. lia.
          - rewrite Z.pow_add_r by lia. ring. }
        apply Prim2SF_inj. now rewrite E, (of_Z_Repr Hr Hle).
      * right. exists (Z.pos m * 2 ^ e). split; [exact Hgt |]. split.
        -- unfold integerValue. rewrite E.
           destruct (Z.leb_spec 0 e); [reflexivity | lia].
        -- rewrite leb_spec, E, (of_Z_Repr Repr_2_53 ltac:(lia)).
           apply SFleb_finite_intro.
           destruct (Z.le_gt_cases e 0) as [H0 | H0].
           ++ exfalso. assert (e = 0) by lia. subst e.
              rewrite Z.pow_0_r in Hgt. lia.
           ++ destruct (Z.eq_dec e 1) as [-> | Hne]; [right | left; lia].
              split; [reflexivity |]. exact Hlo.
    + destruct s.
      * intros H. exfalso.
        assert (Hp : 0 < 2 ^ (- e)) by (apply pow2_pos; lia).
        assert (Hneg : Z.neg m / 2 ^ (- e) < 0).
        { apply Z.div_lt_upper_bound; [exact Hp | lia]. }
        assert (Hlow : - 2 ^ 53 <= Z.neg m / 2 ^ (- e)).
        { apply Z.div_le_lower_bound; [exact Hp |].
          assert (1 <= 2 ^ (- e)) by lia.
          change (Z.neg m) with (- Z.pos m). nia. }
        unfold ofInt in H.
        destruct (Z.ltb_spec (Z.neg m / 2 ^ (- e)) 0); [| lia].
        rewrite ltb_zero_opp_of_Z in H by lia. discriminate.
      * assert (Hp : 0 < 2 ^ (- e)) by (apply pow2_pos; lia).
        assert (Hk : 0 <= Z.pos m / 2 ^ (- e) <= 2 ^ 53).
        { split; [apply Z.div_pos; lia |].
          apply Z.le_trans with (Z.pos m); [| lia].
          apply Z.div_le_upper_bound; [exact Hp |].
          assert (1 <= 2 ^ (- e)) by lia. nia. }
        unfold ofInt.
        destruct (Z.ltb_spec (Z.pos m / 2 ^ (- e)) 0); [lia |].
        change 0%float with (of_Z 0). rewrite ltb_of_Z by lia.
        intros Hlt. apply Z.ltb_lt in Hlt. right. left.
        exists (Z.pos m / 2 ^ (- e)). split; [lia | reflexivity].
Qed.

(** ** Products by 1, 1.5 and 2 *)

Lemma SFmul_exact (ma : positive) ea (mb : positive) eb (mc : positive) ec k :
  bounded prec emax mc ec = true -> 0 <= k ->
  Z.pos ma * Z.pos mb = Z.pos mc * 2 ^ k -> ea + eb = ec - k ->
  SFmul prec emax (S754_finite false ma ea) (S754_finite false mb eb)
  = S754_finite false mc ec.
Proof.
  intros Hb Hk Hm He. cbn [SFmul xorb].
  rewrite He. change (Z.pos (ma * mb)) with (Z.pos ma * Z.pos mb).
  rewrite Hm. now apply binary_round_aux_exact.
Qed.

Lemma Prim2SF_1 : Prim2SF 1 = S754_finite false (Z.to_pos (2 ^ 52)) (-52).
Proof. reflexivity. Qed.

Lemma Prim2SF_2 : Prim2SF 2 = S754_finite false (Z.to_pos (2 ^ 52)) (-51).
Proof. reflexivity. Qed.

Lemma Prim2SF_1_5 :
  Prim2SF 1.5 = S754_finite false (Z.to_pos (3 * 2 ^ 51)) (-52).
Proof. reflexivity. Qed.

Theorem mul_1_of_Z b :
  0 <= b <= 2 ^ 53 -> (of_Z b * 1)%float = of_Z b.
Proof.
  intros Hb. apply Prim2SF_inj. rewrite mul_spec, Prim2SF_1.
  destruct (Z.eq_dec b 0) as [-> | Hb0]; [reflexivity |].
  destruct (@of_Z_finite b ltac:(lia)) as [m [e [Hr ->]]].
  apply (@SFmul_exact m e _ (-52) m e 52);
    [exact (Repr_bounded Hr) | lia | reflexivity | lia].
Qed.

Theorem mul_2_of_Z b :
  0 <= b <= 2 ^ 52 -> (of_Z b * 2)%float = of_Z (2 * b).
Proof.
  intros Hb. apply Prim2SF_inj. rewrite mul_spec, Prim2SF_2.
  destruct (Z.eq_dec b 0) as [-> | Hb0]; [reflexivity |].
  change (2 ^ 53) with (2 * 2 ^ 52) in *.
  destruct (@of_Z_finite b ltac:(change (2 ^ 53) with (2 * 2 ^ 52); lia))
    as [m [e [Hr ->]]].
  destruct (@of_Z_finite (2 * b) ltac:(change (2 ^ 53) with (2 * 2 ^ 52); lia))
    as [m2 [e2 [Hr2 ->]]].
  assert (H2 : Repr (2 * b) m (e + 1)).
  { destruct Hr as [He [Hd Hv]]. unfold Repr.
    assert (e <= 0).
    { destruct (Z.le_gt_cases e 0) as [H | H]; [exact H | exfalso].
      assert (e = 1) by lia. subst e. change (2 ^ (1 + 52)) with (2 * 2 ^ 52) in Hv.
      pose proof (digits2_pos_bounds m) as [Hlo _]. rewrite Hd in Hlo.
      change (2 ^ (53 - 1)) with (2 ^ 52) in Hlo. nia. }
    split; [lia |]. split; [exact Hd |].
    replace (e + 1 + 52) with ((e + 52) + 1) by lia.
    rewrite Z.pow_add_r, Z.mul_assoc, Hv by lia. change (2 ^ 1) with 2. ring. }
  destruct (Repr_unique H2 Hr2) as [<- <-].
  apply (@SFmul_exact m e _ (-51) m (e + 1) 52);
    [exact (Repr_bounded H2) | lia | reflexivity | lia].
Qed.

(** One and a half times an integer, floored. *)
Theorem floor_mul_1_5_of_Z b :
  0 <= b -> 3 * b < 2 ^ 53 ->
  Binary64.Math.floor (of_Z b * 1.5)%float = of_Z (3 * b / 2).
Proof.
  intros Hb H3.
  destruct (Z.eq_dec b 0) as [-> | Hb0]; [reflexivity |].
  destruct (@of_Z_finite b ltac:(lia)) as [m [e [Hr E]]].
  destruct (@Repr_exists (3 * b) ltac:(lia)) as [m3 [e3 Hr3]].
  assert (He3 : e3 <= 0).
  { destruct Hr3 as [He [Hd Hv]].
    destruct (Z.le_gt_cases e3 0) as [H | H]; [exact H | exfalso].
    assert (e3 = 1) by lia. subst e3.
    change (2 ^ (1 + 52)) with (2 * 2 ^ 52) in Hv.
    pose proof (digits2_pos_bounds m3) as [Hlo _]. rewrite Hd in Hlo.
    change (2 ^ (53 - 1)) with (2 ^ 52) in Hlo.
    change (2 ^ 53) with (2 * 2 ^ 52) in H3. nia. }
  assert (Hee : e <= e3).
  { destruct (Z.le_gt_cases e e3) as [H | H]; [exact H | exfalso].
    pose proof (Repr_compare Hr3 Hr) as Hc. cbn [SFcompare] in Hc.
    destruct (Z.compare_spec e3 e); try lia.
    assert (Hc' : (3 * b ?= b) = Lt) by congruence.
    rewrite Z.compare_lt_iff in Hc'. lia. }
  assert (Hb3 : bounded prec emax m3 (e3 - 1) = true).
  { apply bounded_spec. destruct Hr3 as [He [Hd _]]. rewrite Hd. lia. }
  assert (Hprod : Prim2SF (of_Z b * 1.5)%float = S754_finite false m3 (e3 - 1)).
  { rewrite mul_spec, E, Prim2SF_1_5.
    apply (@SFmul_exact m e _ (-52) m3 (e3 - 1) (e3 - e + 51));
      [exact Hb3 | lia | | lia].
    destruct Hr as [He [_ Hv]], Hr3 as [He' [_ Hv3]].
    apply (Z.mul_cancel_r _ _ (2 ^ (e + 52)));
      [pose proof (@pow2_pos (e + 52) ltac:(lia)); lia |].
    assert (Hpow : 2 ^ (e3 - e + 51) * 2 ^ (e + 52) = 2 ^ (e3 + 52) * 2 ^ 51).
    { rewrite <- !Z.pow_add_r by lia. f_equal. lia. }
    rewrite <- (Z.mul_assoc (Z.pos m3)), Hpow, (Z.mul_assoc (Z.pos m3)), Hv3.
    change (Z.pos (Z.to_pos (3 * 2 ^ 51))) with (3 * 2 ^ 51).
    replace (Z.pos m * (3 * 2 ^ 51) * 2 ^ (e + 52))
      with (Z.pos m * 2 ^ (e + 52) * (3 * 2 ^ 51)) by ring.
    rewrite Hv. ring. }
  unfold Binary64.Math.floor. rewrite Hprod.
  destruct (Z.leb_spec 0 (e3 - 1)) as [H | _]; [lia |].
  assert (Hm3 : Z.pos m3 = 3 * b * 2 ^ (- e3)).
  { destruct (Z.eq_dec e3 0) as [-> | Hne].
    - rewrite (Repr_nonneg_exponent Hr3 ltac:(lia)). simpl. lia.
    - apply (Repr_neg_exponent Hr3). lia. }
  replace (- (e3 - 1)) with (- e3 + 1) by lia.
  rewrite Hm3, Z.pow_add_r by lia. change (2 ^ 1) with 2.
  assert (Hp : 0 < 2 ^ (- e3)) by (apply pow2_pos; lia).
  rewrite (Z.mul_comm (2 ^ (- e3)) 2), Z.div_mul_cancel_r by lia.
  unfold ofInt.
  destruct (Z.ltb_spec (3 * b / 2) 0) as [Hneg | _]; [| reflexivity].
  exfalso. assert (0 <= 3 * b / 2) by (apply Z.div_pos; lia). lia.
Qed.

End Binary64Arithmetic.

(** ** The combo system on binary64 numbers *)

Section ComboFacts64.
Import JsNumber Floats.

Lemma getMultiplier_of_Z (s : Binary64.ComboSystem.t) (c : Z) :
  0 <= c <= 2 ^ 53 ->
  Binary64.ComboSystem.currentCombo s = of_Z c ->
  Binary64.ComboSystem.getMultiplier s
  = if 5 <=? c then 2%float else if 3 <=? c then 1.5%float else 1%float.
Proof.
  intros Hc E. unfold Binary64.ComboSystem.getMultiplier. rewrite E.
  change 5%float with (of_Z 5). change 3%float with (of_Z 3).
  rewrite !leb_of_Z by lia. reflexivity.
Qed.

Lemma floor_mul_multiplier (b : Z) (multiplier : float) :
  0 <= b -> 3 * b < 2 ^ 53 ->
  (multiplier = 2%float ->
   Binary64.Math.floor (of_Z b * multiplier) = of_Z (2 * b))
  /\ (multiplier = 1.5%float ->
      Binary64.Math.floor (of_Z b * multiplier) = of_Z (3 * b / 2))
  /\ (multiplier = 1%float ->
      Binary64.Math.floor (of_Z b * multiplier) = of_Z b).
Proof.
  intros Hb H3. change (2 ^ 53) with (2 * 2 ^ 52) in H3.
  split; [| split]; intros ->.
  - rewrite mul_2_of_Z by lia.
    apply floor_of_Z. change (2 ^ 53) with (2 * 2 ^ 52). lia.
  - apply floor_mul_1_5_of_Z; [lia |]. change (2 ^ 53) with (2 * 2 ^ 52). lia.
  - rewrite mul_1_of_Z by (change (2 ^ 53) with (2 * 2 ^ 52); lia).
    apply floor_of_Z. change (2 ^ 53) with (2 * 2 ^ 52). lia.
Qed.

Lemma calculatePoints_64 (b : Z) (s : Binary64.ComboSystem.t) :
  0 <= b -> 3 * b < 2 ^ 53 ->
  Binary64.ComboSystem.calculatePoints (of_Z b) s
  = of_Z (if (5 <=? Binary64.ComboSystem.currentCombo s)%float then 2 * b
          else if (3 <=? Binary64.ComboSystem.currentCombo s)%float
               then 3 * b / 2
               else b).
Proof.
  intros Hb H3. unfold Binary64.ComboSystem.calculatePoints,
    Binary64.ComboSystem.getMultiplier.
  destruct (floor_mul_multiplier 2%float Hb H3) as [H2 _].
  destruct (floor_mul_multiplier 1.5%float Hb H3) as [_ [H15 _]].
  destruct (floor_mul_multiplier 1%float Hb H3) as [_ [_ H1]].
  destruct (5 <=? _)%float; [now apply H2 |].
  destruct (3 <=? _)%float; [now apply H15 | now apply H1].
Qed.

(** For whole base points [b] with [0 <= b] and [3 * b < 2^53],
    [calculatePoints] returns twice the base from a combo of 5, the floor
    of 3/2 of the base from a combo of 3 and the base below, each of them
    exactly, and the result lies between the base and twice the base. *)
Theorem comboSystem_calculatePoints (basePoints : Z) (s : Binary64.ComboSystem.t) :
  0 <= basePoints -> 3 * basePoints < 2 ^ 53 ->
  let points :=
    if (5 <=? Binary64.ComboSystem.currentCombo s)%float then 2 * basePoints
    else if (3 <=? Binary64.ComboSystem.currentCombo s)%float
         then 3 * basePoints / 2
         else basePoints in
  Binary64.ComboSystem.calculatePoints (of_Z basePoints) s = of_Z points
  /\ basePoints <= points <= 2 * basePoints.
Proof.
  intros Hb H3 points. split; [now apply calculatePoints_64 |].
  subst points.
  destruct (5 <=? _)%float; [lia |]. destruct (3 <=? _)%float; [| lia].
  pose proof (Z.div_mod (3 * basePoints) 2 ltac:(lia)).
  pose proof (Z.mod_pos_bound (3 * basePoints) 2 ltac:(lia)).
  lia.
Qed.

Lemma comboSystem_calculatePoints_witness :
  Binary64.ComboSystem.calculatePoints
    15 (Binary64.ComboSystem.recordAnswers [true; true; true]
                                           Binary64.ComboSystem.new)
  = 22%float.
Proof.
  exact (proj1 (@comboSystem_calculatePoints
                  15 (Binary64.ComboSystem.recordAnswers
                        [true; true; true] Binary64.ComboSystem.new)
                  ltac:(lia) ltac:(reflexivity))).
Defined.

(** Beyond the range the product is rounded before it is floored. *)
Example calculatePoints_rounded :
  Binary64.ComboSystem.calculatePoints
    (of_Z 4503599627370493)
    (Binary64.ComboSystem.recordAnswers [true; true; true]
                                        Binary64.ComboSystem.new)
  = of_Z 6755399441055740
  /\ 3 * 4503599627370493 / 2 = 6755399441055739.
Proof. split; reflexivity. Qed.

Lemma recordAnswers_correct_run_64 (n : nat) :
  forall (s : Binary64.ComboSystem.t) (c h : Z),
    0 <= c <= h -> h <= 2 ^ 53 -> c + Z.of_nat n <= 2 ^ 53 ->
    Binary64.ComboSystem.currentCombo s = of_Z c ->
    Binary64.ComboSystem.highestCombo s = of_Z h ->
    let s' := Binary64.ComboSystem.recordAnswers (repeat true n) s in
    Binary64.ComboSystem.currentCombo s' = of_Z (c + Z.of_nat n)
    /\ Binary64.ComboSystem.highestCombo s' = of_Z (Z.max h (c + Z.of_nat n)).
Proof.
  induction n as [| n IH]; intros s c h Hc Hh Hn Ec Eh.
  - simpl. rewrite Z.add_0_r, Z.max_l by lia. split; assumption.
  - change (repeat true (S n)) with (true :: repeat true n).
    cbn [Binary64.ComboSystem.recordAnswers].
    set (s1 := Binary64.ComboSystem.recordAnswer true s).
    assert (H1 : Binary64.ComboSystem.currentCombo s1 = of_Z (c + 1)
                 /\ Binary64.ComboSystem.highestCombo s1
                    = of_Z (Z.max h (c + 1))).
    { subst s1. unfold Binary64.ComboSystem.recordAnswer. rewrite Ec, Eh.
      change 1%float with (of_Z 1). rewrite add_of_Z by lia.
      rewrite ltb_of_Z by lia.
      destruct (Z.ltb_spec h (c + 1)); cbn;
        [rewrite Z.max_r by lia | rewrite Z.max_l by lia]; split; reflexivity. }
    destruct H1 as [Ec1 Eh1].
    destruct (IH s1 (c + 1) (Z.max h (c + 1)) ltac:(lia) ltac:(lia) ltac:(lia)
                 Ec1 Eh1) as [IHc IHh].
    rewrite IHc, IHh. split; f_equal; lia.
Qed.

(** From a fresh combo system, [n <= 2^53] correct answers in a row
    make the current and the highest combo [n]; whole base points [b] with
    [0 <= b] and [3 * b < 2^53] then score [2 * b] from 5 answers on,
    the floor of [3 * b / 2] for 3 and 4 and [b] below; one wrong answer
    after them brings the points back to the base and keeps the highest
    combo. *)
Theorem comboSystem_correct_run (n : nat) (basePoints : Z) :
  Z.of_nat n <= 2 ^ 53 -> 0 <= basePoints -> 3 * basePoints < 2 ^ 53 ->
  let s := Binary64.ComboSystem.recordAnswers (repeat true n)
                                              Binary64.ComboSystem.new in
  Binary64.ComboSystem.currentCombo s = of_Z (Z.of_nat n)
  /\ Binary64.ComboSystem.highestCombo s = of_Z (Z.of_nat n)
  /\ Binary64.ComboSystem.calculatePoints (of_Z basePoints) s
     = of_Z (if 5 <=? Z.of_nat n then 2 * basePoints
             else if 3 <=? Z.of_nat n then 3 * basePoints / 2
             else basePoints)
  /\ Binary64.ComboSystem.calculatePoints
       (of_Z basePoints) (Binary64.ComboSystem.recordAnswer false s)
     = of_Z basePoints
  /\ Binary64.ComboSystem.highestCombo
       (Binary64.ComboSystem.recordAnswer false s)
     = of_Z (Z.of_nat n).
Proof.
  intros Hn Hb H3 s.
  destruct (@recordAnswers_correct_run_64 n Binary64.ComboSystem.new 0 0
              ltac:(lia) ltac:(lia) ltac:(lia) eq_refl eq_refl) as [Hc Hh].
  fold s in Hc, Hh. rewrite Z.add_0_l in Hc. rewrite Z.add_0_l, Z.max_r in Hh by lia.
  split; [exact Hc |]. split; [exact Hh |]. split; [| split].
  - rewrite calculatePoints_64 by assumption. rewrite Hc.
    change 5%float with (of_Z 5). change 3%float with (of_Z 3).
    rewrite !leb_of_Z by lia. reflexivity.
  - rewrite calculatePoints_64 by assumption. reflexivity.
  - exact Hh.
Qed.

Lemma comboSystem_correct_run_witness :
  let s := Binary64.ComboSystem.recordAnswers (repeat true 5)
                                              Binary64.ComboSystem.new in
  Binary64.ComboSystem.currentCombo s = 5%float
  /\ Binary64.ComboSystem.calculatePoints 15 s = 30%float.
Proof.
  destruct (@comboSystem_correct_run 5 15 ltac:(simpl; lia) ltac:(lia)
              ltac:(reflexivity)) as [Hc [_ [Hp _]]].
  split; [exact Hc | exact Hp].
Defined.

(** From 2^53 on a correct answer no longer raises the combo. *)
Example combo_stuck_at_2_53 :
  Binary64.ComboSystem.currentCombo
    (Binary64.ComboSystem.recordAnswer
       true (Binary64.ComboSystem.mk (of_Z (2 ^ 53)) (of_Z (2 ^ 53))))
  = of_Z (2 ^ 53).
Proof. reflexivity. Qed.

End ComboFacts64.

(** ** The energy system on binary64 numbers *)

Section EnergyFacts64.
Import JsNumber Floats Binary64.NumberClock Binary64.EnergySystem.

Lemma leb_refl64 x : is_nan x = false -> (x <=? x)%float = true.
Proof.
  rewrite is_nan_false, leb_spec. intros H. unfold SFleb.
  now rewrite SFcompare_refl.
Qed.

Lemma add_infinity n :
  0 <= n <= 2 ^ 53 -> (of_Z n + infinity)%float = infinity.
Proof.
  intros Hn. apply Prim2SF_inj. rewrite add_spec.
  destruct (Z.eq_dec n 0) as [-> | Hn0]; [reflexivity |].
  destruct (@of_Z_finite n ltac:(lia)) as [m [e [_ ->]]]. reflexivity.
Qed.

Lemma leb_of_Z_infinity n :
  0 <= n <= 2 ^ 53 -> (of_Z n <=? infinity)%float = true.
Proof.
  intros Hn. rewrite leb_spec.
  destruct (Z.eq_dec n 0) as [-> | Hn0]; [reflexivity |].
  destruct (@of_Z_finite n ltac:(lia)) as [m [e [_ ->]]]. reflexivity.
Qed.

Lemma integerValue_positive x h :
  integerValue x = Some h -> 1 <= h -> (0 <? x)%float = true.
Proof.
  unfold integerValue. rewrite ltb_spec.
  destruct (Prim2SF x) as [s | s | | s m e]; try discriminate.
  - intros Hi Hh. assert (0 = h) by congruence. lia.
  - intros Hi Hh. destruct s; [exfalso | reflexivity].
    pose proof (Pos2Z.neg_is_neg m) as Hneg.
    destruct (Z.leb_spec 0 e) as [He | He].
    + assert (Heq : Z.neg m * 2 ^ e = h) by congruence.
      pose proof (@pow2_pos e He).
      assert (Z.neg m * 2 ^ e < 0) by (apply Z.mul_neg_pos; assumption).
      lia.
    + destruct (_ =? 0); [| discriminate].
      assert (Heq : Z.neg m / 2 ^ (- e) = h) by congruence.
      assert (Z.neg m / 2 ^ (- e) < 0).
      { apply Z.div_lt_upper_bound; [apply pow2_pos; lia |].
        now rewrite Z.mul_0_r. }
      lia.
Qed.

(** The energy after regeneration, for whole hours above zero. *)
Lemma regenerated_energy (n maxE : Z) (x : float) :
  0 <= n < maxE -> maxE <= 2 ^ 53 ->
  (0 <? Binary64.Math.floor x)%float = true ->
  exists n',
    Binary64.Math.min (of_Z maxE) (of_Z n + Binary64.Math.floor x) = of_Z n'
    /\ n < n' <= maxE
    /\ (Binary64.Math.floor x = infinity -> n' = maxE)
    /\ forall h, integerValue (Binary64.Math.floor x) = Some h ->
                 n' = Z.min maxE (n + h).
Proof.
  intros Hn Hm Hpos.
  assert (Hz : is_zero (of_Z maxE) = false).
  { rewrite is_zero_of_Z by lia. apply Z.eqb_neq. lia. }
  destruct (floor_positive x Hpos) as [E | [[h [Hh E]] | [h [Hh [Ei Ele]]]]].
  - exists maxE. rewrite E, add_infinity by lia.
    rewrite min_le by (try apply leb_of_Z_infinity; assumption || lia).
    split; [reflexivity |]. split; [lia |]. split; [reflexivity |].
    intros h Hi. vm_compute in Hi. discriminate Hi.
  - rewrite E. destruct (Z.le_gt_cases (n + h) (2 ^ 53)) as [Hs | Hs].
    + exists (Z.min maxE (n + h)).
      rewrite add_of_Z, min_of_Z by lia.
      split; [reflexivity |]. split; [lia |]. split.
      * intros Einf. exfalso.
        destruct (@of_Z_finite h ltac:(lia)) as [m [e [_ Em]]].
        rewrite Einf in Em. discriminate Em.
      * intros h'. rewrite integerValue_of_Z by lia. intros [= <-]. reflexivity.
    + exists maxE.
      assert (Hbig : (of_Z maxE <=? of_Z n + of_Z h)%float = true).
      { apply leb_trans with (of_Z (2 ^ 53)).
        - rewrite leb_of_Z by lia. apply Z.leb_le. lia.
        - apply add_of_Z_big; lia. }
      rewrite (min_le Hbig Hz).
      split; [reflexivity |]. split; [lia |]. split; [reflexivity |].
      intros h'. rewrite integerValue_of_Z by lia. intros [= <-]. lia.
  - exists maxE.
    assert (Hbig : (of_Z maxE <=? of_Z n + Binary64.Math.floor x)%float = true).
    { apply leb_trans with (of_Z (2 ^ 53)).
      - rewrite leb_of_Z by lia. apply Z.leb_le. lia.
      - apply leb_trans with (Binary64.Math.floor x); [exact Ele |].
        apply add_nonneg.
        + change 0%float with (of_Z 0). rewrite leb_of_Z by lia.
          apply Z.leb_le. lia.
        + now apply ltb_leb. }
    rewrite (min_le Hbig Hz).
    split; [reflexivity |]. split; [lia |]. split; [reflexivity |].
    intros h'. rewrite Ei. intros [= <-]. lia.
Qed.

Lemma recordAnswer_energy64 maxE n s clock k :
  maxE <= 2 ^ 53 -> energyInv64 maxE n s ->
  energyInv64 maxE (if 0 <? n then n - 1 else n)
              (fst (recordAnswer false s clock k))
  /\ fst (recordAnswer true s clock k) = s.
Proof.
  intros Hm [Hn [Ec Em]]. split; [| reflexivity].
  unfold recordAnswer, energyInv64, bind, Date_now, ret.
  rewrite Ec. cbn [negb andb].
  change 0%float with (of_Z 0). rewrite ltb_of_Z by lia.
  destruct (Z.ltb_spec 0 n); cbn [fst currentEnergy maxEnergy].
  - change 1%float with (of_Z 1). rewrite sub_of_Z by lia.
    split; [lia |]. split; [reflexivity | exact Em].
  - split; [lia |]. split; assumption.
Qed.

Lemma regenerate_energy64 maxE n s time clock k :
  maxE <= 2 ^ 53 -> energyInv64 maxE n s ->
  let hours := hoursSince64 s (fst (orNow time clock k)) in
  exists n',
    energyInv64 maxE n' (fst (regenerate time s clock k))
    /\ n <= n'
    /\ ((n <? maxE) && (0 <? hours)%float = false -> n' = n)
    /\ (hours = infinity -> n' = maxE)
    /\ forall h, integerValue hours = Some h -> 1 <= h ->
                 n' = Z.min maxE (n + h).
Proof.
  intros Hm [Hn [Ec Em]] hours. subst hours.
  unfold regenerate, bind, hoursSince64, ret.
  destruct (orNow time clock k) as [t k']. cbn [fst].
  rewrite Ec, Em, leb_of_Z by lia.
  set (hours := Binary64.Math.floor _).
  destruct (Z.leb_spec maxE n) as [Hfull | Hbelow].
  - assert (n = maxE) by lia. subst n. exists maxE.
    cbn [fst currentEnergy maxEnergy].
    split; [split; [lia | split; assumption] |].
    split; [lia |]. split; [reflexivity |]. split; [reflexivity |].
    intros h _ Hh. lia.
  - destruct (Z.ltb_spec n maxE); [| lia]. cbn [andb].
    destruct (0 <? hours)%float eqn:Hpos.
    + destruct (@regenerated_energy n maxE _ ltac:(lia) Hm Hpos)
        as [n' [Emin [Hn' [Hinf Hh]]]].
      fold hours in Emin, Hinf, Hh.
      exists n'. unfold energyInv64. cbn [fst currentEnergy maxEnergy].
      rewrite Emin.
      split; [split; [lia | split; reflexivity] |].
      split; [lia |]. split; [discriminate |]. split; [exact Hinf |].
      intros h Hi _. now apply Hh.
    + exists n. cbn [fst currentEnergy maxEnergy].
      split; [split; [lia | split; assumption] |].
      split; [lia |]. split; [reflexivity |]. split.
      * intros Einf. rewrite Einf in Hpos. discriminate.
      * intros h Hi Hh. rewrite (integerValue_positive _ Hi Hh) in Hpos.
        discriminate.
Qed.

Lemma refill_energy64 maxE n s clock k :
  energyInv64 maxE n s -> energyInv64 maxE maxE (fst (refill s clock k)).
Proof.
  intros [Hn [Ec Em]]. unfold refill, energyInv64, bind, Date_now, ret.
  cbn [fst currentEnergy maxEnergy].
  split; [lia |]. split; exact Em.
Qed.

Lemma exec_keeps_energyInv64 maxE c n s clock k :
  maxE <= 2 ^ 53 -> energyInv64 maxE n s ->
  exists n', energyInv64 maxE n' (fst (exec c s clock k)).
Proof.
  intros Hm H. destruct c as [b | time |]; cbn [exec].
  - destruct b.
    + exists n. now rewrite (proj2 (recordAnswer_energy64 clock k Hm H)).
    + eexists. exact (proj1 (recordAnswer_energy64 clock k Hm H)).
  - destruct (regenerate_energy64 time clock k Hm H) as [n' [H' _]].
    now exists n'.
  - exists maxE. now apply (refill_energy64 (n := n)).
Qed.

Lemma execAll_keeps_energyInv64 maxE cs :
  maxE <= 2 ^ 53 ->
  forall n s clock k,
    energyInv64 maxE n s ->
    exists n', energyInv64 maxE n' (fst (execAll cs s clock k)).
Proof.
  intros Hm. induction cs as [| c rest IH]; intros n s clock k H.
  - now exists n.
  - cbn [execAll]. unfold bind.
    destruct (@exec_keeps_energyInv64 maxE c n s clock k Hm H) as [n1 H1].
    destruct (exec c s clock k) as [s1 k1]. cbn [fst] in H1.
    exact (IH n1 s1 clock k1 H1).
Qed.

(** C5, as the specification states it, fails: [maxEnergy] is a number, and
    a system constructed with 2.5 has, after three wrong answers, the
    energy -0.5. *)
Lemma energySystem_fractional_energy_negative :
  ~ (forall (maxEnergy : float) (calls : list call) (clock : nat -> float)
            (k : nat),
        (0 <=? maxEnergy)%float = true ->
        let s0 := new maxEnergy clock k in
        let s := fst (execAll calls (fst s0) clock (snd s0)) in
        (0 <=? currentEnergy s)%float = true
        /\ (currentEnergy s <=? maxEnergy)%float = true).
Proof.
  intros H.
  destruct (H 2.5%float [RecordAnswer false; RecordAnswer false;
                         RecordAnswer false]
              (fun _ => 0%float) 0%nat eq_refl) as [Hlow _].
  vm_compute in Hlow. discriminate Hlow.
Qed.

(** C5 (amended): in an energy system constructed with a whole
    [maxEnergy] between 0 and 2^53, after every run of [recordAnswer],
    [regenerate] and [refill] under every clock, the energy is a whole
    number [n] with [0 <= n <= maxEnergy], and from that state
    [recordAnswer(false)] takes 1 off exactly when [n] is above 0,
    [recordAnswer(true)] changes nothing, [refill] sets the energy to
    [maxEnergy], and [regenerate] adds the whole hours elapsed, capped at
    [maxEnergy], when their number is above 0 (all of it when the number
    is infinite) and nothing otherwise. *)
Theorem energySystem_invariant
  (maxE : Z) (calls : list call) (clock : nat -> float) (k : nat) :
  0 <= maxE <= 2 ^ 53 ->
  let s0 := new (of_Z maxE) clock k in
  let s := fst (execAll calls (fst s0) clock (snd s0)) in
  exists n,
    (0 <= n <= maxE
     /\ currentEnergy s = of_Z n /\ maxEnergy s = of_Z maxE)
    /\ forall clock' k',
        currentEnergy (fst (recordAnswer false s clock' k'))
        = of_Z (if 0 <? n then n - 1 else n)
        /\ fst (recordAnswer true s clock' k') = s
        /\ currentEnergy (fst (refill s clock' k')) = of_Z maxE
        /\ forall time,
            let hours := hoursSince64 s (fst (orNow time clock' k')) in
            exists n',
              currentEnergy (fst (regenerate time s clock' k')) = of_Z n'
              /\ n <= n' <= maxE
              /\ ((n <? maxE) && (0 <? hours)%float = false -> n' = n)
              /\ (hours = infinity -> n' = maxE)
              /\ forall h, integerValue hours = Some h -> 1 <= h ->
                           n' = Z.min maxE (n + h).
Proof.
  intros Hm s0 s.
  assert (H0 : energyInv64 maxE maxE (fst s0)).
  { unfold energyInv64. cbn. split; [lia |]. split; reflexivity. }
  destruct (@execAll_keeps_energyInv64 maxE calls (proj2 Hm) maxE (fst s0) clock
              (snd s0) H0) as [n Hs].
  fold s in Hs. exists n. split; [exact Hs |].
  intros clock' k'.
  destruct (recordAnswer_energy64 clock' k' (proj2 Hm) Hs) as [[_ [Hr _]] Ht].
  split; [exact Hr |]. split; [exact Ht |].
  split; [exact (proj1 (proj2 (refill_energy64 clock' k' Hs))) |].
  intros time hours.
  destruct (regenerate_energy64 time clock' k' (proj2 Hm) Hs)
    as [n' [[Hn' [Ec' _]] [Hle [Hsame [Hinf Hh]]]]].
  exists n'. split; [exact Ec' |]. split; [lia |].
  split; [exact Hsame |]. split; [exact Hinf | exact Hh].
Qed.

Lemma energySystem_invariant_witness :
  let s0 := new 5 (fun _ => 0%float) 0%nat in
  let s := fst (execAll [RecordAnswer false; RecordAnswer false;
                         Regenerate (Some 3600000%float);
                         Regenerate (Some 36000000%float)]
                        (fst s0) (fun _ => 0%float) (snd s0)) in
  exists n, (0 <= n <= 5 /\ currentEnergy s = of_Z n /\ maxEnergy s = of_Z 5)
            /\ n = 5.
Proof.
  destruct (@energySystem_invariant 5
              [RecordAnswer false; RecordAnswer false;
               Regenerate (Some 3600000%float);
               Regenerate (Some 36000000%float)]
              (fun _ => 0%float) 0%nat ltac:(split; [lia | discriminate]))
    as [n [Hn _]].
  exists n. split; [exact Hn |].
  destruct Hn as [Hr [Ec _]]. 
  assert (E : of_Z n = of_Z 5) by (rewrite <- Ec; reflexivity).
  assert (Hq : (of_Z n =? of_Z 5)%float = true) by (rewrite E; reflexivity).
  rewrite eqb_of_Z in Hq by (split; try lia; discriminate || (change (2^53) with 9007199254740992; lia)).
  now apply Z.eqb_eq.
Defined.

(** From a whole energy between 0 and 2^53, with no regeneration in
    between, [n] wrong answers take the energy to [max 0 (energy - n)],
    leave [maxEnergy] alone, and [hasEnergy] holds afterwards exactly when
    [n] is below the energy before. *)
Theorem energySystem_wrong_answers
  (n : nat) (energy : Z) (s : Binary64.EnergySystem.t) (clock : nat -> float)
  (k : nat) :
  0 <= energy <= 2 ^ 53 ->
  currentEnergy s = of_Z energy ->
  let s' := fst (execAll (repeat (RecordAnswer false) n) s clock k) in
  currentEnergy s' = of_Z (Z.max 0 (energy - Z.of_nat n))
  /\ maxEnergy s' = maxEnergy s
  /\ hasEnergy s' = (Z.of_nat n <? energy).
Proof.
  intros He Ec s'. subst s'. revert energy s k He Ec.
  induction n as [| n IH]; intros energy s k He Ec.
  - cbn. unfold hasEnergy. rewrite Ec.
    change 0%float with (of_Z 0). rewrite ltb_of_Z by lia.
    rewrite Z.sub_0_r, Z.max_r by lia. repeat split.
  - change (repeat (RecordAnswer false) (S n))
      with (RecordAnswer false :: repeat (RecordAnswer false) n).
    cbn [execAll exec]. unfold bind.
    assert (H1 : currentEnergy (fst (recordAnswer false s clock k))
                 = of_Z (if 0 <? energy then energy - 1 else energy)
                 /\ maxEnergy (fst (recordAnswer false s clock k))
                    = maxEnergy s).
    { unfold recordAnswer, bind, Date_now, ret. rewrite Ec. cbn [negb andb].
      change 0%float with (of_Z 0). rewrite ltb_of_Z by lia.
      destruct (Z.ltb_spec 0 energy); cbn [fst currentEnergy maxEnergy];
        [| split; [exact Ec | reflexivity]].
      change 1%float with (of_Z 1). rewrite sub_of_Z by lia.
      split; reflexivity. }
    destruct (recordAnswer false s clock k) as [s1 k1]. cbn [fst] in H1.
    destruct H1 as [Ec1 Em1].
    destruct (IH (if 0 <? energy then energy - 1 else energy) s1 k1
                 ltac:(destruct (Z.ltb_spec 0 energy); lia) Ec1)
      as [IHc [IHm IHh]].
    rewrite IHc, IHm, IHh, Em1.
    destruct (Z.ltb_spec 0 energy).
    + split; [f_equal; lia |]. split; [reflexivity |].
      destruct (Z.ltb_spec (Z.of_nat n) (energy - 1));
        destruct (Z.ltb_spec (Z.of_nat (S n)) energy); lia || reflexivity.
    + split; [f_equal; lia |]. split; [reflexivity |].
      destruct (Z.ltb_spec (Z.of_nat n) energy);
        destruct (Z.ltb_spec (Z.of_nat (S n)) energy); lia || reflexivity.
Qed.

Lemma energySystem_wrong_answers_witness :
  let s' := fst (execAll (repeat (RecordAnswer false) 7)
                         (Binary64.EnergySystem.mk 5 5 0)
                         (fun _ => 0%float) 0%nat) in
  currentEnergy s' = 0%float /\ hasEnergy s' = false.
Proof.
  destruct (@energySystem_wrong_answers 7 5 (Binary64.EnergySystem.mk 5 5 0)
              (fun _ => 0%float) 0%nat
              ltac:(split; [lia | discriminate]) eq_refl) as [Hc [_ Hh]].
  split; [exact Hc | exact Hh].
Defined.

End EnergyFacts64.

(** ** The user progress on binary64 numbers *)

Section ProgressFacts64.
Import JsNumber Floats Vocabulary Binary64.UserProgress.

Lemma leb_nan_r x y : is_nan y = true -> (x <=? y)%float = false.
Proof.
  intros Hy. destruct (x <=? y)%float eqn:E; [| reflexivity].
  destruct (leb_not_nan E) as [_ H]. congruence.
Qed.

Lemma XP_THRESHOLDS_of_Z :
  XP_THRESHOLDS = map of_Z UserProgress.XP_THRESHOLDS.
Proof. reflexivity. Qed.

Lemma threshold_of_Z i threshold :
  nth_error XP_THRESHOLDS i = Some threshold <->
  exists t, nth_error UserProgress.XP_THRESHOLDS i = Some t
            /\ threshold = of_Z t.
Proof.
  rewrite XP_THRESHOLDS_of_Z, nth_error_map.
  destruct (nth_error UserProgress.XP_THRESHOLDS i) as [t |]; cbn; split.
  - intros [= <-]. eauto.
  - intros [t' [[= <-] ->]]. reflexivity.
  - discriminate.
  - intros [t' [Ht _]]. discriminate.
Qed.

Lemma threshold_range i t :
  nth_error UserProgress.XP_THRESHOLDS i = Some t -> 0 <= t <= 8000.
Proof.
  intros H. apply nth_error_In in H. cbn in H.
  repeat (destruct H as [<- | H]; [lia |]). contradiction.
Qed.

Lemma highestThreshold64_of_Z (x : Z) (i : nat) :
  0 <= x <= 2 ^ 53 ->
  highestThreshold64 (of_Z x) i <-> highestThreshold x i.
Proof.
  intros Hx. unfold highestThreshold64, highestThreshold.
  assert (Hleb : forall t, 0 <= t <= 8000 ->
                           (of_Z t <=? of_Z x)%float = true <-> t <= x).
  { intros t Ht. rewrite leb_of_Z by (change (2 ^ 53) with 9007199254740992; lia).
    apply Z.leb_le. }
  split; intros [[T [Hn Hle]] Hmax].
  - apply threshold_of_Z in Hn. destruct Hn as [t [Hn ->]].
    split; [exists t; split; [exact Hn |]; apply Hleb;
            [exact (threshold_range _ Hn) | exact Hle] |].
    intros j t' Hj Hle'. apply (Hmax j (of_Z t')).
    + apply threshold_of_Z. eauto.
    + apply Hleb; [exact (threshold_range _ Hj) | exact Hle'].
  - split.
    + exists (of_Z T). split; [apply threshold_of_Z; eauto |].
      apply Hleb; [exact (threshold_range _ Hn) | exact Hle].
    + intros j T' Hj Hle'. apply threshold_of_Z in Hj.
      destruct Hj as [t' [Hj ->]]. apply (Hmax j t' Hj).
      apply Hleb; [exact (threshold_range _ Hj) | exact Hle'].
Qed.

Lemma updateLevel_fields64 s :
  userId (updateLevel s) = userId s
  /\ xp (updateLevel s) = xp s
  /\ streak (updateLevel s) = streak s
  /\ lastActivityDate (updateLevel s) = lastActivityDate s
  /\ completedLessons (updateLevel s) = completedLessons s.
Proof.
  unfold updateLevel. cbn [List.length XP_THRESHOLDS updateLevelFrom nth_error].
  repeat (destruct (_ <=? _)%float; [repeat split |]). repeat split.
Qed.

Lemma updateLevelFrom_spec64 n s :
  (exists i threshold,
      (i < n)%nat
      /\ nth_error XP_THRESHOLDS i = Some threshold
      /\ (threshold <=? xp s)%float = true
      /\ (forall j th, (j < n)%nat -> nth_error XP_THRESHOLDS j = Some th ->
                       (th <=? xp s)%float = true -> (j <= i)%nat)
      /\ level (updateLevelFrom n s) = Z.of_nat i + 1)
  \/ ((forall j th, (j < n)%nat -> nth_error XP_THRESHOLDS j = Some th ->
                    (th <=? xp s)%float = false)
      /\ updateLevelFrom n s = s).
Proof.
  induction n as [| n IH].
  - right. split; [intros j th Hj; lia | reflexivity].
  - cbn [updateLevelFrom].
    destruct (nth_error XP_THRESHOLDS n) as [threshold |] eqn:En.
    + destruct (threshold <=? xp s)%float eqn:Hge.
      * left. exists n, threshold.
        split; [lia |]. split; [exact En |]. split; [exact Hge |].
        split; [intros j th Hj _ _; lia | reflexivity].
      * destruct IH as [[i [th [Hi [Hnth [Hle [Hmax Hlevel]]]]]] | [Hnone Hsame]].
        -- left. exists i, th.
           split; [lia |]. split; [exact Hnth |]. split; [exact Hle |].
           split; [| exact Hlevel].
           intros j th' Hj Hnth' Hle'.
           destruct (Nat.eq_dec j n) as [-> | Hne].
           ++ rewrite En in Hnth'. injection Hnth' as <-. congruence.
           ++ apply (Hmax j th'); [lia | assumption | assumption].
        -- right. split; [| exact Hsame].
           intros j th' Hj Hnth'.
           destruct (Nat.eq_dec j n) as [-> | Hne].
           ++ rewrite En in Hnth'. injection Hnth' as <-. exact Hge.
           ++ apply (Hnone j th'); [lia | assumption].
    + destruct IH as [[i [th [Hi [Hnth [Hle [Hmax Hlevel]]]]]] | [Hnone Hsame]].
      * left. exists i, th.
        split; [lia |]. split; [exact Hnth |]. split; [exact Hle |].
        split; [| exact Hlevel].
        intros j th' Hj Hnth' Hle'.
        destruct (Nat.eq_dec j n) as [-> | Hne]; [congruence |].
        apply (Hmax j th'); [lia | assumption | assumption].
      * right. split; [| exact Hsame].
        intros j th' Hj Hnth'.
        destruct (Nat.eq_dec j n) as [-> | Hne]; [congruence |].
        apply (Hnone j th'); [lia | assumption].
Qed.

(** [updateLevel]: at a number not below zero the level becomes one more
    than the highest threshold index reached; at any other (a negative
    number, or [NaN]) no threshold is reached and the level stays. *)
Lemma updateLevel_spec64 s :
  ((0 <=? xp s)%float = true ->
   exists i, highestThreshold64 (xp s) i
             /\ level (updateLevel s) = Z.of_nat i + 1
             /\ (i < 8)%nat)
  /\ ((0 <=? xp s)%float = false -> updateLevel s = s).
Proof.
  unfold updateLevel.
  assert (Hmono : forall j th, nth_error XP_THRESHOLDS j = Some th ->
                    (th <=? xp s)%float = true -> (0 <=? xp s)%float = true).
  { intros j th Hj Hle. apply leb_trans with th; [| exact Hle].
    apply threshold_of_Z in Hj. destruct Hj as [t [Hj ->]].
    change 0%float with (of_Z 0).
    pose proof (threshold_range _ Hj).
    rewrite leb_of_Z by (change (2 ^ 53) with 9007199254740992; lia).
    apply Z.leb_le. lia. }
  destruct (updateLevelFrom_spec64 (List.length XP_THRESHOLDS) s)
    as [[i [th [Hi [Hnth [Hle [Hmax Hlevel]]]]]] | [Hnone Hsame]].
  - split.
    + intros _. exists i. split; [| split; [exact Hlevel | exact Hi]].
      split; [eauto |].
      intros j th' Hnth' Hle'. apply (Hmax j th'); try assumption.
      apply nth_error_Some. congruence.
    + intros H0. rewrite (Hmono i th Hnth Hle) in H0. discriminate.
  - split; [| intros _; exact Hsame].
    intros H0. specialize (Hnone 0%nat 0%float ltac:(cbn; lia) eq_refl).
    congruence.
Qed.

Lemma addXP_state64 amount s :
  snd (addXP amount s)
  = if (amount <? 0)%float then s
    else updateLevel (mk (userId s) (xp s + amount)%float (level s) (streak s)
                         (lastActivityDate s) (completedLessons s)).
Proof. unfold addXP. now destruct (amount <? 0)%float. Qed.

(** C3, as the specification states it, fails: [xp] is a binary64 number,
    and from 2^53 on adding 1 leaves it as it is. *)
Lemma addXP_beyond_2_53_not_added :
  ~ (forall (s : Binary64.UserProgress.t) (amount : float) (a b : Z),
        reachable s ->
        integerValue (xp s) = Some a -> integerValue amount = Some b ->
        0 <= b ->
        integerValue (xp (snd (addXP amount s))) = Some (a + b)).
Proof.
  intros H.
  specialize (H (snd (addXP (of_Z (2 ^ 53)) (new "u"))) 1%float (2 ^ 53) 1
                (reach_addXP _ (reach_new "u")) eq_refl eq_refl ltac:(lia)).
  vm_compute in H. discriminate H.
Qed.

(** C3 (amended): [addXP] throws when the amount is below 0 and leaves
    the state as it was; otherwise it returns whether the level rose, [xp]
    becomes the binary64 sum of [xp] and the amount, which is the exact
    sum for whole numbers adding up to at most 2^53, and the level becomes
    one more than the highest threshold index not exceeding the new [xp]
    (8 from 8000 on) when the new [xp] is at least 0, and stays when it is
    not ([NaN]); the other fields are untouched. *)
Theorem addXP_spec (s : Binary64.UserProgress.t) (amount : float) :
  ((amount <? 0)%float = true ->
   addXP amount s = (Thrown (Error "XP must be positive"), s))
  /\ ((amount <? 0)%float = false ->
      exists s',
        addXP amount s = (Returned (level s' >? level s), s')
        /\ xp s' = (xp s + amount)%float
        /\ ((0 <=? xp s')%float = true ->
            exists i, highestThreshold64 (xp s') i
                      /\ level s' = Z.of_nat i + 1
                      /\ 1 <= level s' <= 8
                      /\ ((8000 <=? xp s')%float = true -> level s' = 8))
        /\ ((0 <=? xp s')%float = false -> level s' = level s)
        /\ (forall a b,
              0 <= a -> 0 <= b -> a + b <= 2 ^ 53 ->
              xp s = of_Z a -> amount = of_Z b ->
              xp s' = of_Z (a + b)
              /\ exists i, highestThreshold (a + b) i
                           /\ level s' = Z.of_nat i + 1)
        /\ userId s' = userId s
        /\ streak s' = streak s
        /\ lastActivityDate s' = lastActivityDate s
        /\ completedLessons s' = completedLessons s).
Proof.
  unfold addXP. split; intros Hamount; rewrite Hamount; [reflexivity |].
  set (s1 := mk (userId s) (xp s + amount)%float (level s) (streak s)
                (lastActivityDate s) (completedLessons s)).
  destruct (updateLevel_fields64 s1) as [Hu [Hx [Hs [Hl Hc]]]].
  destruct (updateLevel_spec64 s1) as [Hpos Hneg]. rewrite <- Hx in Hpos, Hneg.
  exists (updateLevel s1). split; [reflexivity |]. split; [exact Hx |].
  split; [| split; [| split; [| tauto]]].
  - intros H0. destruct (Hpos H0) as [i [Hi [Hlevel Hlt]]].
    exists i. split; [exact Hi |]. split; [exact Hlevel |]. split; [lia |].
    intros H8000. destruct Hi as [_ Hmax].
    assert (7 <= i)%nat by (apply (Hmax 7%nat 8000%float); [reflexivity | exact H8000]).
    lia.
  - intros H0. now rewrite (Hneg H0).
  - intros a b Ha Hb Hab Ea Eb.
    assert (Exp : xp (updateLevel s1) = of_Z (a + b)).
    { rewrite Hx. unfold s1. cbn [xp]. rewrite Ea, Eb. now apply add_of_Z. }
    split; [exact Exp |].
    assert (H0 : (0 <=? xp (updateLevel s1))%float = true).
    { rewrite Exp. change 0%float with (of_Z 0). rewrite leb_of_Z by lia.
      apply Z.leb_le. lia. }
    destruct (Hpos H0) as [i [Hi [Hlevel _]]].
    exists i. split; [| exact Hlevel].
    rewrite Exp in Hi. now apply highestThreshold64_of_Z in Hi; [| lia].
Qed.

Lemma addXP_spec_witness :
  addXP (-1) (Binary64.UserProgress.new "u")
  = (Thrown (Error "XP must be positive"), Binary64.UserProgress.new "u")
  /\ exists s',
      addXP 100 (Binary64.UserProgress.new "u") = (Returned true, s')
      /\ xp s' = 100%float /\ level s' = 2.
Proof.
  destruct (addXP_spec (Binary64.UserProgress.new "u") (-1)) as [Hneg _].
  destruct (addXP_spec (Binary64.UserProgress.new "u") 100) as [_ Hpos].
  split; [apply Hneg; reflexivity |].
  destruct (Hpos eq_refl) as [s' [H1 [H2 _]]].
  exists s'. split; [| split].
  - rewrite H1. replace s' with (snd (addXP 100 (Binary64.UserProgress.new "u")))
      by (now rewrite H1). reflexivity.
  - exact H2.
  - replace s' with (snd (addXP 100 (Binary64.UserProgress.new "u")))
      by (now rewrite H1). reflexivity.
Defined.

(** [NaN] passes the guard: the experience is lost and the level stays. *)
Example addXP_NaN :
  let s := snd (addXP 250 (Binary64.UserProgress.new "u")) in
  fst (addXP nan s) = Returned false
  /\ is_nan (xp (snd (addXP nan s))) = true
  /\ level (snd (addXP nan s)) = 3
  /\ level (snd (addXP 8000 (snd (addXP nan s)))) = 3.
Proof. repeat split. Qed.

Lemma recordActivity_fields64 tz date s clock k :
  let s' := fst (recordActivity tz date s clock k) in
  userId s' = userId s /\ xp s' = xp s /\ level s' = level s
  /\ completedLessons s' = completedLessons s.
Proof.
  unfold recordActivity, Clock.bind.
  destruct (Clock.orNow date clock k) as [d k'].
  destruct (lastActivityDate s); [| repeat split].
  destruct (_ =? 0); [repeat split |]. destruct (_ =? 1); repeat split.
Qed.

Lemma completeLesson_fields64 lessonId s :
  let s' := completeLesson lessonId s in
  userId s' = userId s /\ xp s' = xp s /\ level s' = level s
  /\ streak s' = streak s /\ lastActivityDate s' = lastActivityDate s.
Proof.
  unfold completeLesson. destruct (isLessonCompleted lessonId s); repeat split.
Qed.

(** What [xp] and [level] are after one more [addXP]. *)
Lemma addXP_xp64 amount s :
  (amount <? 0)%float = false ->
  (is_nan (xp s) = true \/ is_nan amount = true ->
   is_nan (xp (snd (addXP amount s))) = true
   /\ level (snd (addXP amount s)) = level s)
  /\ ((0 <=? xp s)%float = true -> (0 <=? amount)%float = true ->
      (0 <=? xp (snd (addXP amount s)))%float = true
      /\ (xp s <=? xp (snd (addXP amount s)))%float = true).
Proof.
  intros Hamount. rewrite addXP_state64, Hamount.
  set (s1 := mk (userId s) (xp s + amount)%float (level s) (streak s)
                (lastActivityDate s) (completedLessons s)).
  destruct (updateLevel_fields64 s1) as [_ [Hx _]].
  destruct (updateLevel_spec64 s1) as [_ Hneg].
  split.
  - intros Hnan.
    assert (H : is_nan (xp s1) = true).
    { subst s1. cbn [xp]. destruct Hnan; [now apply add_nan_l | now apply add_nan_r]. }
    rewrite Hx. split; [exact H |].
    rewrite Hneg; [reflexivity |]. now apply leb_nan_r.
  - intros H0 Ha. rewrite Hx. subst s1. cbn [xp].
    destruct (add_nonneg H0 Ha) as [H1 [H2 _]]. split; assumption.
Qed.

Lemma reachable_level64 s :
  reachable s ->
  1 <= level s <= 8
  /\ (is_nan (xp s) = true
      \/ ((0 <=? xp s)%float = true
          /\ exists i, highestThreshold64 (xp s) i
                       /\ level s = Z.of_nat i + 1)).
Proof.
  induction 1 as [u | amount s Hs IH | tz date clock k s Hs IH | l s Hs IH].
  - split; [cbn; lia |]. right. split; [reflexivity |].
    destruct (proj1 (updateLevel_spec64 (new u)) eq_refl) as [i [Hi [Hl _]]].
    exists i. split; [exact Hi |]. rewrite <- Hl. reflexivity.
  - destruct (amount <? 0)%float eqn:Hamount.
    + rewrite addXP_state64, Hamount. exact IH.
    + destruct (addXP_xp64 s Hamount) as [Hnan Hpos].
      destruct IH as [Hrange [Hx | [Hx [i [Hi Hl]]]]].
      * destruct (Hnan (or_introl Hx)) as [H1 H2].
        rewrite H2. split; [exact Hrange | now left].
      * apply ltb_zero_false in Hamount. destruct Hamount as [Ha | Ha].
        -- destruct (Hnan (or_intror Ha)) as [H1 H2].
           rewrite H2. split; [exact Hrange | now left].
        -- destruct (Hpos Hx Ha) as [H1 _].
           rewrite addXP_state64 in *.
           destruct (amount <? 0)%float; [split; [exact Hrange | right; eauto] |].
           set (s1 := mk _ _ _ _ _ _) in *.
           destruct (updateLevel_fields64 s1) as [_ [Ex _]].
           rewrite Ex in H1.
           destruct (proj1 (updateLevel_spec64 s1) H1) as [j [Hj [Hlj Hlt]]].
           split; [lia |]. right. rewrite Ex. split; [exact H1 |].
           exists j. split; assumption.
  - destruct (recordActivity_fields64 tz date s clock k) as [_ [-> [-> _]]].
    exact IH.
  - destruct (completeLesson_fields64 l s) as [_ [-> [-> _]]]. exact IH.
Qed.

(** In every state a user progress reaches, the level is between 1
    and 8, and [xp] is [NaN] (after [addXP(NaN)]) or at least 0 with the
    level one more than the highest threshold index not exceeding it. *)
Theorem userProgress_level_invariant (s : Binary64.UserProgress.t) :
  reachable s ->
  1 <= level s <= 8
  /\ (is_nan (xp s) = true
      \/ ((0 <=? xp s)%float = true
          /\ exists i, highestThreshold64 (xp s) i
                       /\ level s = Z.of_nat i + 1)).
Proof. apply reachable_level64. Qed.

Lemma userProgress_level_invariant_witness :
  let s := snd (addXP 120 (Binary64.UserProgress.new "u")) in
  1 <= level s <= 8
  /\ (is_nan (xp s) = true
      \/ ((0 <=? xp s)%float = true
          /\ exists i, highestThreshold64 (xp s) i
                       /\ level s = Z.of_nat i + 1)).
Proof.
  apply (@userProgress_level_invariant
           (snd (addXP 120 (Binary64.UserProgress.new "u")))).
  apply reach_addXP. apply reach_new.
Defined.

(** [addXP] from a reachable state: what becomes of [xp] and [level]. *)
Lemma addXP_never_loses64 s amount :
  reachable s ->
  let s' := snd (addXP amount s) in
  is_nan (xp s') = is_nan (xp s) || is_nan amount
  /\ (is_nan (xp s') = false -> (xp s <=? xp s')%float = true)
  /\ level s <= level s'.
Proof.
  intros Hs s'. subst s'.
  destruct (reachable_level64 Hs) as [_ Hinv].
  destruct (reachable_level64 (reach_addXP amount Hs)) as [_ Hinv'].
  destruct (amount <? 0)%float eqn:Hamount.
  - rewrite addXP_state64, Hamount.
    destruct (ltb_not_nan Hamount) as [-> _]. rewrite orb_false_r.
    split; [reflexivity |]. split; [| lia].
    intros Hx. now apply leb_refl64.
  - destruct (addXP_xp64 s Hamount) as [Hnan Hpos].
    destruct Hinv as [Hx | [Hx [i [Hi Hl]]]].
    + destruct (Hnan (or_introl Hx)) as [H1 H2]. rewrite H1, Hx.
      split; [reflexivity |]. split; [discriminate | lia].
    + pose proof Hamount as Ha. apply ltb_zero_false in Ha.
      destruct Ha as [Ha | Ha].
      * destruct (Hnan (or_intror Ha)) as [H1 H2]. rewrite H1, Ha, orb_true_r.
        split; [reflexivity |]. split; [discriminate | lia].
      * destruct (Hpos Hx Ha) as [H1 H2].
        destruct (leb_not_nan H2) as [Hn Hn'].
        destruct (leb_not_nan Ha) as [_ Hna].
        rewrite Hn, Hn', Hna. split; [reflexivity |].
        split; [intros _; exact H2 |].
        destruct Hinv' as [Hx' | [_ [i' [Hi' Hl']]]]; [congruence |].
        rewrite Hl, Hl'.
        destruct Hi as [[T [HT Hle]] _]. destruct Hi' as [_ Hmax'].
        assert (i <= i')%nat
          by (apply (Hmax' i T HT); now apply leb_trans with (xp s)).
        lia.
Qed.

(** Experience and levels are never lost: from a reachable state
    [addXP] leaves [xp] a number unless [xp] or the amount is [NaN], a
    number it leaves is not below the one before, and the level never
    falls; [recordActivity] and [completeLesson] leave both as they
    are. *)
Theorem userProgress_never_loses
  (s : Binary64.UserProgress.t) (amount : float) (tz : JsDate.TimeZone)
  (date : option JsDate.Date) (clock : nat -> Z) (k : nat)
  (lessonId : string) :
  reachable s ->
  (is_nan (xp (snd (addXP amount s))) = is_nan (xp s) || is_nan amount
   /\ (is_nan (xp (snd (addXP amount s))) = false ->
       (xp s <=? xp (snd (addXP amount s)))%float = true)
   /\ level s <= level (snd (addXP amount s)))
  /\ (xp (fst (recordActivity tz date s clock k)) = xp s
      /\ level (fst (recordActivity tz date s clock k)) = level s)
  /\ (xp (completeLesson lessonId s) = xp s
      /\ level (completeLesson lessonId s) = level s).
Proof.
  intros Hs. split; [| split].
  - exact (addXP_never_loses64 amount Hs).
  - destruct (recordActivity_fields64 tz date s clock k) as [_ [-> [-> _]]].
    split; reflexivity.
  - destruct (completeLesson_fields64 lessonId s) as [_ [-> [-> _]]].
    split; reflexivity.
Qed.

Lemma userProgress_never_loses_witness :
  let s := Binary64.UserProgress.new "u" in
  (xp s <=? xp (snd (addXP 250 s)))%float = true
  /\ level s <= level (snd (addXP 250 s)).
Proof.
  destruct (@userProgress_never_loses
              (Binary64.UserProgress.new "u") 250 JsDate.utc None
              (fun _ => 0) 0%nat "lesson" (reach_new "u"))
    as [[_ [Hxp Hlevel]] _].
  split; [apply Hxp; reflexivity | exact Hlevel].
Defined.

End ProgressFacts64.

(** ** The two embeddings agree on whole numbers *)

Section IntegerViewFacts.
Import JsNumber Floats IntegerView.

(** On whole counters up to 2^53 the two embeddings of the combo system
    agree. *)
Lemma recordAnswer_agrees (isCorrect : bool) (s : Gamification.ComboSystem.t) :
  0 <= Gamification.ComboSystem.currentCombo s < 2 ^ 53 ->
  0 <= Gamification.ComboSystem.highestCombo s <= 2 ^ 53 ->
  Binary64.ComboSystem.recordAnswer isCorrect (comboView s)
  = comboView (Gamification.ComboSystem.recordAnswer isCorrect s).
Proof.
  intros Hc Hh. unfold Binary64.ComboSystem.recordAnswer,
    Gamification.ComboSystem.recordAnswer, comboView.
  cbn [Binary64.ComboSystem.currentCombo Binary64.ComboSystem.highestCombo].
  destruct isCorrect; [| reflexivity].
  change 1%float with (of_Z 1). rewrite add_of_Z by lia.
  rewrite ltb_of_Z by lia.
  rewrite Z.gtb_ltb.
  destruct (_ <? _); reflexivity.
Qed.

Lemma calculatePoints_agrees (basePoints : Z) (s : Gamification.ComboSystem.t) :
  0 <= basePoints -> 3 * basePoints < 2 ^ 53 ->
  0 <= Gamification.ComboSystem.currentCombo s <= 2 ^ 53 ->
  Binary64.ComboSystem.calculatePoints (of_Z basePoints) (comboView s)
  = of_Z (Gamification.ComboSystem.calculatePoints basePoints s).
Proof.
  intros Hb H3 Hc. rewrite calculatePoints_64 by assumption.
  rewrite calculatePoints_formula. unfold comboView.
  cbn [Binary64.ComboSystem.currentCombo].
  change 5%float with (of_Z 5). change 3%float with (of_Z 3).
  rewrite !leb_of_Z by lia. rewrite !Z.geb_leb. reflexivity.
Qed.

Lemma updateLevelFrom_agrees (n : nat) (s : UserProgress.t) :
  0 <= UserProgress.xp s <= 2 ^ 53 ->
  Binary64.UserProgress.updateLevelFrom n (progressView s)
  = progressView (UserProgress.updateLevelFrom n s).
Proof.
  intros Hx. induction n as [| i IH]; [reflexivity |].
  cbn [Binary64.UserProgress.updateLevelFrom UserProgress.updateLevelFrom].
  rewrite XP_THRESHOLDS_of_Z, nth_error_map.
  destruct (nth_error UserProgress.XP_THRESHOLDS i) as [threshold |] eqn:E;
    cbn [option_map]; [| exact IH].
  assert (Ht : 0 <= threshold <= 2 ^ 53).
  { apply nth_error_In in E. cbn in E.
    repeat (destruct E as [<- | E]; [split; [lia | discriminate] |]).
    destruct E. }
  unfold progressView at 1. cbn [Binary64.UserProgress.xp].
  rewrite leb_of_Z by lia. rewrite Z.geb_leb.
  destruct (threshold <=? UserProgress.xp s); [reflexivity | exact IH].
Qed.

(** On whole experience and amounts that add up to at most 2^53 the two
    embeddings of [addXP] agree. *)
Lemma addXP_agrees (amount : Z) (s : UserProgress.t) :
  0 <= UserProgress.xp s -> 0 <= amount ->
  UserProgress.xp s + amount <= 2 ^ 53 ->
  Binary64.UserProgress.addXP (of_Z amount) (progressView s)
  = (fst (UserProgress.addXP amount s),
     progressView (snd (UserProgress.addXP amount s))).
Proof.
  intros Hx Ha Hsum.
  unfold Binary64.UserProgress.addXP, UserProgress.addXP.
  change 0%float with (of_Z 0). rewrite ltb_of_Z by lia.
  destruct (Z.ltb_spec amount 0) as [Hneg | _]; [lia |].
  cbn [fst snd]. unfold Binary64.UserProgress.updateLevel,
    UserProgress.updateLevel.
  set (s1 := UserProgress.mk (UserProgress.userId s)
                             (UserProgress.xp s + amount)
                             (UserProgress.level s) (UserProgress.streak s)
                             (UserProgress.lastActivityDate s)
                             (UserProgress.completedLessons s)).
  assert (E : Binary64.UserProgress.mk
                (Binary64.UserProgress.userId (progressView s))
                (Binary64.UserProgress.xp (progressView s) + of_Z amount)%float
                (Binary64.UserProgress.level (progressView s))
                (Binary64.UserProgress.streak (progressView s))
                (Binary64.UserProgress.lastActivityDate (progressView s))
                (Binary64.UserProgress.completedLessons (progressView s))
              = progressView s1).
  { unfold progressView, s1.
    cbn [Binary64.UserProgress.userId Binary64.UserProgress.xp
         Binary64.UserProgress.level Binary64.UserProgress.streak
         Binary64.UserProgress.lastActivityDate
         Binary64.UserProgress.completedLessons
         UserProgress.userId UserProgress.xp UserProgress.level
         UserProgress.streak UserProgress.lastActivityDate
         UserProgress.completedLessons].
    now rewrite add_of_Z by lia. }
  rewrite E.
  change (List.length Binary64.UserProgress.XP_THRESHOLDS)
    with (List.length UserProgress.XP_THRESHOLDS).
  rewrite updateLevelFrom_agrees by (subst s1; cbn [UserProgress.xp]; lia).
  reflexivity.
Qed.

End IntegerViewFacts.
